(** * NFL fantasy analytics: collection, merge/scoring, normalisation, analysis

    A shallow embedding of the three scripts of
    [nfl-fantasy-data-collection-analysis.py]:

    - 1.1 the collector ([scrape_table], [scrape_nfl_data]);
    - 1.2 the merger/scorer ([load_and_preprocess_data], [scale_features],
      the loop over the seasons and [pd.concat]);
    - 1.3 the analysis notebook (ranking, position extraction, group means).

    A pandas [DataFrame] is a list of column labels and a list of rows; a cell
    is a missing value, a number or a string.  Numbers are kept abstract behind
    the interface [Arith], which has two instances: [float64], the IEEE
    binary64 numbers numpy computes with (the development runs on it), and
    [exact], the real numbers (the statements about means, standard deviations
    and orderings are proved on it).  Python exceptions are the [Err] side of
    [result].

    The scripts call pandas and scikit-learn; what these calls do is taken
    from the libraries' documented behaviour:
    - [pd.merge(..., how='outer')] keeps the keys of both frames and renames
      overlapping value columns with [suffixes], whose default is
      [('_x', '_y')];
    - [fillna(0)] replaces every missing cell;
    - [pd.concat] takes the union of the columns and lists all rows;
    - [StandardScaler] centres on the mean and divides by the population
      standard deviation, disregarding missing values, and uses the scale 1
      for a feature whose standard deviation is zero;
    - [groupby] drops missing keys and orders the groups by key;
      [sort_values] puts missing values last; [df.corr()] and
      [df.describe()] work on the numeric columns. *)

From Stdlib Require Import String Ascii List ZArith Arith Bool Lia.
From Stdlib Require Import Permutation Sorted.
From Stdlib Require Import Reals Lra.
From Stdlib Require Import Floats Uint63.
From Stdlib Require DecimalString.
Import ListNotations.

Set Implicit Arguments.

(* ================================================================== *)
(** * Numbers *)

Class Arith (num : Type) : Type := {
  num_of_Z : Z -> num;
  num_add : num -> num -> num;
  num_sub : num -> num -> num;
  num_mul : num -> num -> num;
  num_div : num -> num -> num;
  num_sqrt : num -> num;
  num_eqb : num -> num -> bool;
  num_leb : num -> num -> bool
}.

Declare Scope num_scope.
Delimit Scope num_scope with num.
Infix "+" := num_add : num_scope.
Infix "-" := num_sub : num_scope.
Infix "*" := num_mul : num_scope.
Infix "/" := num_div : num_scope.

(** A decimal literal [m / 10^k], as in [0.04] = [dec 4 2]. *)
Definition dec {num} `{Arith num} (m : Z) (k : nat) : num :=
  (num_of_Z m / num_of_Z (10 ^ Z.of_nat k))%num.

(** ** numpy's float64 *)

Definition float_of_Z (z : Z) : float :=
  match z with
  | Z0 => PrimFloat.of_uint63 0
  | Zpos _ => PrimFloat.of_uint63 (Uint63.of_Z z)
  | Zneg p => PrimFloat.opp (PrimFloat.of_uint63 (Uint63.of_Z (Zpos p)))
  end.

#[export] Instance float64 : Arith float := {|
  num_of_Z := float_of_Z;
  num_add := PrimFloat.add;
  num_sub := PrimFloat.sub;
  num_mul := PrimFloat.mul;
  num_div := PrimFloat.div;
  num_sqrt := PrimFloat.sqrt;
  num_eqb := PrimFloat.eqb;
  num_leb := PrimFloat.leb
|}.

(** ** Exact arithmetic on the reals *)

Definition Reqb (x y : R) : bool := if Req_dec_T x y then true else false.
Definition Rleb (x y : R) : bool := if Rle_dec x y then true else false.

#[export] Instance exact : Arith R := {|
  num_of_Z := IZR;
  num_add := Rplus;
  num_sub := Rminus;
  num_mul := Rmult;
  num_div := Rdiv;
  num_sqrt := R_sqrt.sqrt;
  num_eqb := Reqb;
  num_leb := Rleb
|}.

(* ================================================================== *)
(** * Exceptions *)

Inductive error : Type :=
| KeyError (label : string)
| TypeError
| IndexError
| AttributeError
| ValueError
| FileNotFoundError.

Inductive result (A : Type) : Type :=
| Ok (a : A)
| Err (e : error).

Arguments Ok {A} a.
Arguments Err {A} e.

Definition bind {A B} (m : result A) (k : A -> result B) : result B :=
  match m with
  | Ok a => k a
  | Err e => Err e
  end.

Notation "x <- m ;; k" := (bind m (fun x => k))
  (at level 61, m at next level, right associativity).

Fixpoint mapM {A B} (f : A -> result B) (l : list A) : result (list B) :=
  match l with
  | [] => Ok []
  | a :: t => b <- f a ;; bs <- mapM f t ;; Ok (b :: bs)
  end.

(* ================================================================== *)
(** * Data frames *)

Inductive cell (num : Type) : Type :=
| NaN
| Num (x : num)
| Str (s : string).

Arguments NaN {num}.
Arguments Num {num} x.
Arguments Str {num} s.

Record DataFrame (num : Type) : Type := {
  columns : list string;
  rows : list (list (cell num))
}.

(** Every row has one cell per column. *)
Definition wfb {num} (df : DataFrame num) : bool :=
  forallb (fun r => Nat.eqb (length r) (length (columns df))) (rows df).

Definition wf {num} (df : DataFrame num) : Prop := wfb df = true.

Definition mem (c : string) (l : list string) : bool := existsb (String.eqb c) l.

(** Position of the first column carrying a label. *)
Fixpoint index_of (label : string) (cols : list string) : option nat :=
  match cols with
  | [] => None
  | c :: cs => if String.eqb c label then Some 0 else option_map S (index_of label cs)
  end.

Definition get_loc (cols : list string) (label : string) : result nat :=
  match index_of label cols with
  | Some i => Ok i
  | None => Err (KeyError label)
  end.

(** Keep the elements a mask marks [true]. *)
Fixpoint select {X} (mask : list bool) (l : list X) : list X :=
  match mask, l with
  | b :: m, x :: t => if b then x :: select m t else select m t
  | _, _ => []
  end.

Fixpoint set_nth {X} (i : nat) (l : list X) (v : X) : list X :=
  match l, i with
  | [], _ => []
  | _ :: t, O => v :: t
  | x :: t, S j => x :: set_nth j t v
  end.

(** Python's [str.isspace] on the code points below 256. *)
Definition is_space (c : ascii) : bool :=
  let n := nat_of_ascii c in
  ((9 <=? n) && (n <=? 13)) || ((28 <=? n) && (n <=? 32)) || (n =? 133) || (n =? 160).

(** [s.split()]: the maximal runs of characters that are not white space.
    [tok] is the run being read, if one has started. *)
Fixpoint split_from (tok : option string) (s : string) : list string :=
  match s with
  | EmptyString => match tok with Some t => [t] | None => [] end
  | String c s' =>
      if is_space c
      then match tok with
           | Some t => t :: split_from None s'
           | None => split_from None s'
           end
      else split_from (Some (match tok with
                             | Some t => t ++ String c EmptyString
                             | None => String c EmptyString
                             end)%string) s'
  end.

Definition split (s : string) : list string := split_from None s.

(** A string that is empty or made of white space only. *)
Fixpoint all_space (s : string) : bool :=
  match s with
  | EmptyString => true
  | String c s' => is_space c && all_space s'
  end.

Fixpoint insert_by {X} (le : X -> X -> bool) (x : X) (l : list X) : list X :=
  match l with
  | [] => [x]
  | y :: t => if le x y then x :: l else y :: insert_by le x t
  end.

Definition sort_by {X} (le : X -> X -> bool) (l : list X) : list X :=
  fold_right (insert_by le) [] l.

Section Frames.
Context {num : Type} `{Arith num}.

#[local] Abbreviation cell := (cell num).
#[local] Abbreviation DataFrame := (DataFrame num).

Definition zero : num := num_of_Z 0.
Definition one : num := num_of_Z 1.

Definition isna (c : cell) : bool :=
  match c with NaN => true | _ => false end.

(** Equality of join and group keys: missing keys match each other. *)
Definition cell_eqb (a b : cell) : bool :=
  match a, b with
  | NaN, NaN => true
  | Num x, Num y => num_eqb x y
  | Str s, Str t => String.eqb s t
  | _, _ => false
  end.

Definition cell_at (i : nat) (r : list cell) : cell := nth i r NaN.

(** [df[label]] *)
Definition getitem (df : DataFrame) (label : string) : result (list cell) :=
  i <- get_loc (columns df) label ;;
  Ok (map (cell_at i) (rows df)).

(** [df[label] = values]: overwrite the column, or append a new one. *)
Definition setitem (df : DataFrame) (label : string) (values : list cell) : DataFrame :=
  match index_of label (columns df) with
  | Some i =>
      {| columns := columns df;
         rows := map (fun rv => set_nth i (fst rv) (snd rv)) (combine (rows df) values) |}
  | None =>
      {| columns := columns df ++ [label];
         rows := map (fun rv => fst rv ++ [snd rv]) (combine (rows df) values) |}
  end.

(** [df.fillna(0)] *)
Definition fill (c : cell) : cell := if isna c then Num zero else c.

Definition fillna (df : DataFrame) : DataFrame :=
  {| columns := columns df; rows := map (map fill) (rows df) |}.

(** ** [pd.merge(left, right, on=..., how='outer', suffixes=...)] *)

Fixpoint keys_eqb (a b : list cell) : bool :=
  match a, b with
  | [], [] => true
  | x :: a', y :: b' => cell_eqb x y && keys_eqb a' b'
  | _, _ => false
  end.

Definition key_of (ks : list nat) (r : list cell) : list cell :=
  map (fun i => cell_at i r) ks.

Fixpoint put_keys (ks : list nat) (vs : list cell) (r : list cell) : list cell :=
  match ks, vs with
  | k :: ks', v :: vs' => put_keys ks' vs' (set_nth k r v)
  | _, _ => r
  end.

(** The columns of the right frame that are not join keys. *)
Definition value_mask (on cols : list string) : list bool :=
  map (fun c => negb (mem c on)) cols.

Definition same_key (lk rk : list nat) (l r : list cell) : bool :=
  keys_eqb (key_of lk l) (key_of rk r).

(** The rows a left row gives: one per right row with its key, or itself with
    the right columns missing. *)
Definition from_left (lk rk : list nat) (mask : list bool) (width : nat)
    (right_rows : list (list cell)) (l : list cell) : list (list cell) :=
  match filter (same_key lk rk l) right_rows with
  | [] => [l ++ repeat NaN width]
  | ms => map (fun r => l ++ select mask r) ms
  end.

(** The row a right row gives when no left row has its key: the left columns
    missing, but for the key. *)
Definition from_right (lk rk : list nat) (mask : list bool) (width : nat)
    (left_rows : list (list cell)) (r : list cell) : list (list cell) :=
  if existsb (fun l => same_key lk rk l r) left_rows then []
  else [put_keys lk (key_of rk r) (repeat NaN width) ++ select mask r].

(** A label that also names a value column of the other frame gets a suffix. *)
Definition suffixed (others : list string) (suffix : string) (c : string) : string :=
  if mem c others then (c ++ suffix)%string else c.

(** The key columns come once, at their place in the left frame; then the
    value columns of the right frame.  A missing label raises [KeyError].
    Rows are listed left frame first, then the rows only the right frame
    has; pandas orders them by key, which nothing below depends on.  The
    frames are those [read_csv] gives for the collector's tables: labels are
    distinct and key columns are text on both sides (pandas refuses to join
    a text key with a numeric one). *)
Definition merge (left right : DataFrame) (on : list string)
    (suffixes : string * string) : result DataFrame :=
  lk <- mapM (get_loc (columns left)) on ;;
  rk <- mapM (get_loc (columns right)) on ;;
  let mask := value_mask on (columns right) in
  let rcols := select mask (columns right) in
  Ok {| columns := map (suffixed rcols (fst suffixes)) (columns left)
                   ++ map (suffixed (columns left) (snd suffixes)) rcols;
        rows := flat_map (from_left lk rk mask (length rcols) (rows right)) (rows left)
                ++ flat_map (from_right lk rk mask (length (columns left)) (rows left))
                     (rows right) |}.

(** How the labels of a join relate to those of its two frames: a label of
    both frames that is not a key appears twice, once with each suffix; any
    other label appears as it is; no column is dropped. *)
Definition disambiguated (left right joined on : list string)
    (suffixes : string * string) : Prop :=
  (forall c, In c left -> In c right -> ~ In c on ->
     In (c ++ fst suffixes)%string joined /\ In (c ++ snd suffixes)%string joined) /\
  (forall c, In c left -> ~ In c right \/ In c on -> In c joined) /\
  (forall c, In c right -> ~ In c on -> ~ In c left -> In c joined) /\
  length joined = length left + length (filter (fun c => negb (mem c on)) right).

(** pandas' default for [suffixes]. *)
Definition default_suffixes : string * string := ("_x", "_y")%string.

(** ** Column arithmetic *)

(** [series * w] for a numeric weight.  A string cell raises: times a float
    at once, times an integer when the repeated string meets the numeric
    running sum one step later, before the next column is read. *)
Definition cell_mul (w : num) (c : cell) : result cell :=
  match c with
  | NaN => Ok NaN
  | Num x => Ok (Num (x * w)%num)
  | Str _ => Err TypeError
  end.

Definition cell_add (a b : cell) : result cell :=
  match a, b with
  | Num x, Num y => Ok (Num (x + y)%num)
  | Str _, _ | _, Str _ => Err TypeError
  | _, _ => Ok NaN
  end.

Definition weighted (df : DataFrame) (label : string) (w : num) : result (list cell) :=
  s <- getitem df label ;;
  mapM (cell_mul w) s.

Definition series_add (a b : list cell) : result (list cell) :=
  mapM (fun ab => cell_add (fst ab) (snd ab)) (combine a b).

(** The scoring table of [load_and_preprocess_data], in source order. *)
Definition scoring : list (string * num) :=
  [ ("Yds_pass", dec 4 2);
    ("TD_pass", num_of_Z 4);
    ("Int", num_of_Z (-2));
    ("Yds_rush", dec 1 1);
    ("TD_rush", num_of_Z 6);
    ("Rec", num_of_Z 1);
    ("Yds", dec 1 1);
    ("TD", num_of_Z 6) ]%string.

(** [a*wa + b*wb + ...], evaluated left to right. *)
Fixpoint weighted_sum (df : DataFrame) (acc : list cell)
    (terms : list (string * num)) : result (list cell) :=
  match terms with
  | [] => Ok acc
  | (label, w) :: rest =>
      t <- weighted df label w ;;
      acc' <- series_add acc t ;;
      weighted_sum df acc' rest
  end.

Definition fantasy_points (df : DataFrame) : result (list cell) :=
  match scoring with
  | [] => Ok []
  | (label, w) :: rest =>
      t <- weighted df label w ;;
      weighted_sum df t rest
  end.

(** The same sum for one row, term by term. *)
Fixpoint row_sum (cols : list string) (r : list cell) (acc : cell)
    (terms : list (string * num)) : result cell :=
  match terms with
  | [] => Ok acc
  | (label, w) :: rest =>
      i <- get_loc cols label ;;
      t <- cell_mul w (cell_at i r) ;;
      acc' <- cell_add acc t ;;
      row_sum cols r acc' rest
  end.

(** The cell of a row under a label. *)
Definition at_label (df : DataFrame) (r : list cell) (label : string) : option cell :=
  option_map (fun i => cell_at i r) (index_of label (columns df)).

(** A row whose [FantasyPoints] is the weighted sum of its eight statistics. *)
Definition scored (df : DataFrame) (r : list cell) : Prop :=
  exists pass_yds pass_td int rush_yds rush_td rec yds td : num,
    at_label df r "Yds_pass" = Some (Num pass_yds) /\
    at_label df r "TD_pass" = Some (Num pass_td) /\
    at_label df r "Int" = Some (Num int) /\
    at_label df r "Yds_rush" = Some (Num rush_yds) /\
    at_label df r "TD_rush" = Some (Num rush_td) /\
    at_label df r "Rec" = Some (Num rec) /\
    at_label df r "Yds" = Some (Num yds) /\
    at_label df r "TD" = Some (Num td) /\
    at_label df r "FantasyPoints"
      = Some (Num (pass_yds * dec 4 2 + pass_td * num_of_Z 4 + int * num_of_Z (-2)
                   + rush_yds * dec 1 1 + rush_td * num_of_Z 6 + rec * num_of_Z 1
                   + yds * dec 1 1 + td * num_of_Z 6)%num).

(** ** [load_and_preprocess_data] *)

(** The files under [data/raw/<year>/<category>.csv]. *)
Definition raw_data : Type := Z -> string -> result DataFrame.

Definition join_keys : list string := ["Player"; "Tm"]%string.

Definition merge_season (passing rushing receiving : DataFrame) : result DataFrame :=
  players <- merge passing rushing join_keys ("_pass", "_rush")%string ;;
  players <- merge players receiving join_keys default_suffixes ;;
  Ok (fillna players).

(** The table a column of the merged record comes from. *)
Inductive source : Type := Passing | Rushing | Receiving.

(** Column by column: the columns of the passing table ([None] for the two
    join keys), then the value columns of rushing, then those of receiving. *)
Definition origins (passing rushing receiving : DataFrame) : list (option source) :=
  map (fun c => if mem c join_keys then None else Some Passing) (columns passing)
  ++ map (fun _ => Some Rushing)
       (select (value_mask join_keys (columns rushing)) (columns rushing))
  ++ map (fun _ => Some Receiving)
       (select (value_mask join_keys (columns receiving)) (columns receiving)).

(** A table lists the pair (player, team). *)
Definition has_pair (df : DataFrame) (player team : string) : bool :=
  match index_of "Player" (columns df), index_of "Tm" (columns df) with
  | Some i, Some j =>
      existsb (fun r => cell_eqb (cell_at i r) (Str player)
                        && cell_eqb (cell_at j r) (Str team)) (rows df)
  | _, _ => false
  end.

(** A frame has the two key columns. *)
Definition has_keys (df : DataFrame) : Prop :=
  In "Player"%string (columns df) /\ In "Tm"%string (columns df).

Definition is_text (c : cell) : bool :=
  match c with Str _ => true | _ => false end.

(** A category table as the collector leaves it: the two key columns are
    there and every row has its player and team identifiers, which are text. *)
Definition keyedb (df : DataFrame) : bool :=
  match index_of "Player" (columns df), index_of "Tm" (columns df) with
  | Some i, Some j =>
      forallb (fun r => is_text (cell_at i r) && is_text (cell_at j r)) (rows df)
  | _, _ => false
  end.

Definition keyed (df : DataFrame) : Prop := keyedb df = true.

Definition table_of (passing rushing receiving : DataFrame) (src : source) : DataFrame :=
  match src with
  | Passing => passing
  | Rushing => rushing
  | Receiving => receiving
  end.

Definition load_and_preprocess_data (fs : raw_data) (year : Z) : result DataFrame :=
  passing <- fs year "passing"%string ;;
  rushing <- fs year "rushing"%string ;;
  receiving <- fs year "receiving"%string ;;
  players <- merge_season passing rushing receiving ;;
  points <- fantasy_points players ;;
  Ok (setitem players "FantasyPoints" points).

(** ** The loop over the seasons and [pd.concat] *)

Definition current_year : Z := 2023.

(** Python's [range(lo, hi)]. *)
Definition range (lo hi : Z) : list Z :=
  map (fun i => (lo + Z.of_nat i)%Z) (seq 0 (Z.to_nat (hi - lo))).

Definition seasons : list Z := range (current_year - 4) (current_year + 1).

Definition nrows (df : DataFrame) : nat := length (rows df).

(** One turn of the loop: load a season and stamp [Year] on its rows. *)
Definition season (fs : raw_data) (year : Z) : result DataFrame :=
  players <- load_and_preprocess_data fs year ;;
  Ok (setitem players "Year" (repeat (Num (num_of_Z year)) (nrows players))).

Definition all_players (fs : raw_data) : result (list DataFrame) :=
  mapM (season fs) seasons.

Definition add_label (acc : list string) (c : string) : list string :=
  if mem c acc then acc else acc ++ [c].

Definition union_columns (frames : list DataFrame) : list string :=
  fold_left (fun acc df => fold_left add_label (columns df) acc) frames [].

Definition reindex (cols_from cols_to : list string) (r : list cell) : list cell :=
  map (fun c => match index_of c cols_from with
                | Some i => cell_at i r
                | None => NaN
                end) cols_to.

(** [pd.concat(frames, ignore_index=True)]: the union of the columns, the
    rows of every frame in turn, missing where a frame lacks a column. *)
Definition concat (frames : list DataFrame) : result DataFrame :=
  match frames with
  | [] => Err ValueError
  | _ =>
      let cols := union_columns frames in
      Ok {| columns := cols;
            rows := flat_map (fun df => map (reindex (columns df) cols) (rows df)) frames |}
  end.

Definition all_players_df (fs : raw_data) : result DataFrame :=
  frames <- all_players fs ;;
  concat frames.

(** ** [scale_features]: sklearn's [StandardScaler] on the numeric columns *)

Definition column (df : DataFrame) (j : nat) : list cell :=
  map (cell_at j) (rows df).

(** [select_dtypes(include=[np.number])]: a column holding no string. *)
Definition is_numeric (s : list cell) : bool :=
  forallb (fun c => match c with Str _ => false | _ => true end) s.

(** The numbers of a column; missing values are disregarded. *)
Definition numbers (s : list cell) : list num :=
  flat_map (fun c => match c with Num x => [x] | _ => [] end) s.

Definition total (l : list num) : num := fold_left num_add l zero.

Definition count (l : list num) : num := num_of_Z (Z.of_nat (length l)).

Definition mean (l : list num) : num := (total l / count l)%num.

(** Population variance, as [StandardScaler.var_]. *)
Definition variance (l : list num) : num :=
  let m := mean l in
  mean (map (fun x => ((x - m) * (x - m))%num) l).

Definition std (l : list num) : num := num_sqrt (variance l).

(** [StandardScaler.scale_]: the standard deviation, and 1 where it is zero
    (scikit-learn: "if a variance is zero, we can't achieve unit variance,
    and the data is left as-is, giving a scaling factor of 1"). *)
Definition scale_ (l : list num) : num :=
  let s := std l in
  if num_eqb s zero then one else s.

(** [transform] of one cell of a column [s]; missing stays missing. *)
Definition standardize (s : list cell) (c : cell) : cell :=
  match c with
  | Num x => Num ((x - mean (numbers s)) / scale_ (numbers s))%num
  | _ => c
  end.

Definition scale_cell (sc : list cell * cell) : cell :=
  if is_numeric (fst sc) then standardize (fst sc) (snd sc) else snd sc.

(** [fit_transform] refuses an input with no row or no numeric column. *)
Definition scale_features (df : DataFrame) : result DataFrame :=
  let cols := map (column df) (seq 0 (length (columns df))) in
  match rows df with
  | [] => Err ValueError
  | _ =>
      if existsb is_numeric cols
      then Ok {| columns := columns df;
                 rows := map (fun r => map scale_cell (combine cols r)) (rows df) |}
      else Err ValueError
  end.

Definition all_players_scaled (fs : raw_data) : result DataFrame :=
  df <- all_players_df fs ;;
  scale_features df.

(** ** The collector *)

(** The statistics site: the table with a given [id] on the page at a given
    address, as [pd.read_html] parses it. *)
Definition web : Type := string -> string -> result DataFrame.

(** [df[mask]] *)
Definition loc_mask (df : DataFrame) (mask : list bool) : DataFrame :=
  {| columns := columns df; rows := select mask (rows df) |}.

(** [series != value] *)
Definition series_ne (s : list cell) (v : string) : list bool :=
  map (fun c => negb (cell_eqb c (Str v))) s.

(** [df.dropna(how='all')] *)
Definition dropna_all (df : DataFrame) : DataFrame :=
  {| columns := columns df;
     rows := filter (fun r => negb (forallb isna r)) (rows df) |}.

Definition scrape_table (site : web) (url stat_type : string) : result DataFrame :=
  df <- site url ("all_" ++ stat_type)%string ;;
  player <- getitem df "Player" ;;
  let df := loc_mask df (series_ne player "Player") in
  Ok (dropna_all df).

Definition string_of_year (year : Z) : string :=
  DecimalString.NilZero.string_of_int (Z.to_int year).

Definition scrape_nfl_data (site : web) (year : Z)
    : result (DataFrame * DataFrame * DataFrame * DataFrame) :=
  let base_url :=
    ("https://www.pro-football-reference.com/years/" ++ string_of_year year ++ "/")%string in
  passing_df <- scrape_table site (base_url ++ "passing.htm") "passing" ;;
  rushing_df <- scrape_table site (base_url ++ "rushing.htm") "rushing" ;;
  receiving_df <- scrape_table site (base_url ++ "receiving.htm") "receiving" ;;
  defense_df <- scrape_table site (base_url ++ "defense.htm") "defense" ;;
  Ok (passing_df, rushing_df, receiving_df, defense_df).

(** The files written so far, newest first: year, category, table. *)
Definition disk : Type := list (Z * string * DataFrame).

(** The collecting loop; a failure stops it and leaves what was written. *)
Fixpoint collect (site : web) (years : list Z) (d : disk) : disk * result unit :=
  match years with
  | [] => (d, Ok tt)
  | year :: rest =>
      match scrape_nfl_data site year with
      | Err e => (d, Err e)
      | Ok (passing, rushing, receiving, defense) =>
          collect site rest
            ((year, "defense", defense) :: (year, "receiving", receiving)
             :: (year, "rushing", rushing) :: (year, "passing", passing) :: d)%string
      end
  end.

(** The collector script: the five seasons up to [current_year]. *)
Definition collector (site : web) : disk * result unit :=
  collect site seasons [].

(** Reading back what the collector wrote. *)
Fixpoint read_csv (d : disk) (year : Z) (category : string) : result DataFrame :=
  match d with
  | [] => Err FileNotFoundError
  | (y, c, df) :: rest =>
      if Z.eqb y year && String.eqb c category then Ok df else read_csv rest year category
  end.

(** ** The analysis notebook *)

(** [lambda x: x.split()[-1]]; only a string has [split]. *)
Definition position (x : cell) : result cell :=
  match x with
  | Str s =>
      match rev (split s) with
      | [] => Err IndexError
      | t :: _ => Ok (Str t)
      end
  | _ => Err AttributeError
  end.

(** [series.apply(f)] *)
Definition apply (f : cell -> result cell) (s : list cell) : result (list cell) :=
  mapM f s.

Definition dropna (s : list cell) : list cell :=
  filter (fun c => negb (isna c)) s.

(** The distinct values of a series, by first appearance. *)
Fixpoint unique (s : list cell) : list cell :=
  match s with
  | [] => []
  | c :: t => c :: filter (fun d => negb (cell_eqb c d)) (unique t)
  end.

(** Order of the group keys: numbers, then strings. *)
Definition key_leb (a b : cell) : bool :=
  match a, b with
  | Num x, Num y => num_leb x y
  | Str s, Str t => String.leb s t
  | Str _, Num _ => false
  | _, _ => true
  end.

Definition group_of (keys values : list cell) (k : cell) : list cell :=
  map snd (filter (fun kv => cell_eqb (fst kv) k) (combine keys values)).

(** [df.groupby(by)[label]]: the column, and its groups in key order; rows
    with a missing key belong to no group. *)
Definition groupby (df : DataFrame) (by_ label : string)
    : result (list cell * list (cell * list cell)) :=
  keys <- getitem df by_ ;;
  values <- getitem df label ;;
  Ok (values,
      map (fun k => (k, group_of keys values k)) (sort_by key_leb (unique (dropna keys)))).

Definition series_mean (s : list cell) : cell :=
  match numbers s with
  | [] => NaN
  | l => Num (mean l)
  end.

(** [.mean()] of a grouped column: numeric columns only. *)
Definition groupby_mean (df : DataFrame) (by_ label : string)
    : result (list (cell * cell)) :=
  g <- groupby df by_ label ;;
  if is_numeric (fst g)
  then Ok (map (fun kg => (fst kg, series_mean (snd kg))) (snd g))
  else Err TypeError.

(** Descending order of [sort_values(ascending=False)]: numbers from the
    largest down, then the missing values.  Equal values keep the order of
    the groups here; pandas leaves their order open. *)
Definition desc_leb (a b : cell) : bool :=
  match a, b with
  | Num x, Num y => num_leb y x
  | Num _, _ => true
  | _, Num _ => false
  | _, _ => true
  end.

Definition sort_values_desc (s : list (cell * cell)) : list (cell * cell) :=
  sort_by (fun a b => desc_leb (snd a) (snd b)) s.

Definition head {X} (n : nat) (l : list X) : list X := firstn n l.

(** [df.groupby('Player')['FantasyPoints'].mean()
       .sort_values(ascending=False).head(20)] *)
Definition top_players (df : DataFrame) : result (list (cell * cell)) :=
  means <- groupby_mean df "Player" "FantasyPoints" ;;
  Ok (head 20 (sort_values_desc means)).

(** [describe()] of one column. *)
Record stats : Type := {
  st_count : cell; st_mean : cell; st_std : cell; st_min : cell;
  st_q25 : cell; st_q50 : cell; st_q75 : cell; st_max : cell
}.

Definition num_of_nat (n : nat) : num := num_of_Z (Z.of_nat n).

(** Sample standard deviation ([ddof=1]). *)
Definition sample_std (l : list num) : cell :=
  match l with
  | [] | [_] => NaN
  | _ =>
      let m := mean l in
      Num (num_sqrt (total (map (fun x => ((x - m) * (x - m))%num) l)
                     / num_of_nat (length l - 1))%num)
  end.

(** The [k]-th quartile of a sorted list, by linear interpolation. *)
Definition quartile (k : nat) (sorted : list num) : cell :=
  match sorted with
  | [] => NaN
  | x0 :: _ =>
      let p := (k * (length sorted - 1))%nat in
      let lo := nth (p / 4) sorted x0 in
      let hi := nth (S (p / 4)) sorted lo in
      Num (lo + (hi - lo) * (num_of_nat (p mod 4) / num_of_nat 4))%num
  end.

Definition describe (s : list cell) : stats :=
  let l := numbers s in
  let sorted := sort_by num_leb l in
  {| st_count := Num (count l);
     st_mean := series_mean s;
     st_std := sample_std l;
     st_min := match sorted with [] => NaN | x :: _ => Num x end;
     st_q25 := quartile 1 sorted;
     st_q50 := quartile 2 sorted;
     st_q75 := quartile 3 sorted;
     st_max := match rev sorted with [] => NaN | x :: _ => Num x end |}.

Definition numeric_columns (df : DataFrame) : list (string * list cell) :=
  filter (fun ls => is_numeric (snd ls))
    (combine (columns df) (map (column df) (seq 0 (length (columns df))))).

(** [df.describe()] *)
Definition describe_frame (df : DataFrame) : list (string * stats) :=
  map (fun ls => (fst ls, describe (snd ls))) (numeric_columns df).

(** Pearson correlation over the rows where both columns hold a number. *)
Definition pearson (a b : list cell) : cell :=
  let pairs := flat_map (fun ab => match ab with
                                   | (Num x, Num y) => [(x, y)]
                                   | _ => []
                                   end) (combine a b) in
  let mx := mean (map fst pairs) in
  let my := mean (map snd pairs) in
  let sxy := total (map (fun p => ((fst p - mx) * (snd p - my))%num) pairs) in
  let sxx := total (map (fun p => ((fst p - mx) * (fst p - mx))%num) pairs) in
  let syy := total (map (fun p => ((snd p - my) * (snd p - my))%num) pairs) in
  let d := num_sqrt (sxx * syy)%num in
  match pairs with
  | [] => NaN
  | _ => if num_eqb d zero then NaN else Num (sxy / d)%num
  end.

(** [df.corr()] across the numeric columns. *)
Definition corr (df : DataFrame) : list (string * list cell) :=
  let cols := numeric_columns df in
  map (fun a => (fst a, map (fun b => pearson (snd a) (snd b)) cols)) cols.

(** What the notebook computes; the drawing itself is not modelled. *)
Record report : Type := {
  summary : list (string * stats);
  heatmap : list (string * list cell);
  histplot : list cell;
  ranking : list (cell * cell);
  position_stats : list (cell * stats);
  boxplot : list cell * list cell;
  yearly_avg : list (cell * cell)
}.

(** A notebook cell runs on the frame bound to [df] and may rebind it. *)
Definition script (A : Type) : Type := DataFrame -> result (A * DataFrame).

Definition sbind {A B} (m : script A) (k : A -> script B) : script B :=
  fun df => match m df with
            | Ok (a, df') => k a df'
            | Err e => Err e
            end.

Definition sret {A} (a : A) : script A := fun df => Ok (a, df).

(** An expression that reads [df]. *)
Definition reads {A} (f : DataFrame -> result A) : script A :=
  fun df => a <- f df ;; Ok (a, df).

(** [df[label] = e] *)
Definition assigns (label : string) (f : DataFrame -> result (list cell)) : script unit :=
  fun df => v <- f df ;; Ok (tt, setitem df label v).

End Frames.

Arguments raw_data : clear implicits.
Arguments web : clear implicits.
Arguments disk : clear implicits.
Arguments stats : clear implicits.
Arguments report : clear implicits.
Arguments script : clear implicits.

Notation "x <~ m ;; k" := (sbind m (fun x => k))
  (at level 61, m at next level, right associativity).

Section Analysis.
Context {num : Type} `{Arith num}.

(** [df['Position'] = df['Player'].apply(lambda x: x.split()[-1])] *)
Definition extract_position : script num unit :=
  assigns "Position" (fun df => player <- getitem df "Player" ;; apply position player).

Definition analysis : script num (report num) :=
  summary <~ reads (fun df => Ok (describe_frame df)) ;;
  heatmap <~ reads (fun df => Ok (corr df)) ;;
  histplot <~ reads (fun df => getitem df "FantasyPoints") ;;
  ranking <~ reads top_players ;;
  _ <~ extract_position ;;
  position_stats <~ reads (fun df =>
    g <- groupby df "Position" "FantasyPoints" ;;
    Ok (map (fun kg => (fst kg, describe (snd kg))) (snd g))) ;;
  boxplot <~ reads (fun df =>
    x <- getitem df "Position" ;; y <- getitem df "FantasyPoints" ;; Ok (x, y)) ;;
  yearly_avg <~ reads (fun df => groupby_mean df "Year" "FantasyPoints") ;;
  sret {| summary := summary; heatmap := heatmap; histplot := histplot;
          ranking := ranking; position_stats := position_stats;
          boxplot := boxplot; yearly_avg := yearly_avg |}.

(** The notebook from [pd.read_csv] on: the report and the final [df]. *)
Definition notebook (processed : result (DataFrame num))
    : result (report num * DataFrame num) :=
  df <- processed ;;
  analysis df.

End Analysis.


(* ================================================================== *)
(** * Sample data *)

Module Sample.
Open Scope string_scope.

Definition n (z : Z) : cell float := Num (float_of_Z z).

(** A small normalised dataset, as the notebook reads it. *)
Definition dataset : DataFrame float :=
  {| columns := ["Player"; "Tm"; "FantasyPoints"; "Year"];
     rows := [ [Str "Patrick Mahomes QB"; Str "KAN"; n 1; n (-1)];
               [Str "Derrick Henry RB"; Str "TEN"; n 0; n (-1)];
               [Str "Patrick Mahomes QB"; Str "KAN"; n (-1); n 1] ] |}.

(** The same with a player identifier made of white space. *)
Definition blank_dataset : DataFrame float :=
  {| columns := ["Player"; "Tm"; "FantasyPoints"; "Year"];
     rows := [ [Str "Patrick Mahomes QB"; Str "KAN"; n 1; n (-1)];
               [Str "  "; Str "TEN"; n 0; n (-1)] ] |}.

(** A scraped page with a repeated header row and an empty row. *)
Definition page : DataFrame float :=
  {| columns := ["Rk"; "Player"; "Tm"; "Yds"];
     rows := [ [n 1; Str "Patrick Mahomes"; Str "KAN"; n 300];
               [Str "Rk"; Str "Player"; Str "Tm"; Str "Yds"];
               [NaN; NaN; NaN; NaN];
               [n 2; Str "Josh Allen"; Str "BUF"; n 280] ] |}.

Definition site : web float := fun _ _ => Ok page.

(** One season of raw tables. *)
Definition passing : DataFrame float :=
  {| columns := ["Player"; "Tm"; "Yds"; "TD"; "Int"];
     rows := [ [Str "Patrick Mahomes"; Str "KAN"; n 300; n 2; n 1] ] |}.

Definition rushing : DataFrame float :=
  {| columns := ["Player"; "Tm"; "Yds"; "TD"; "Fmb"];
     rows := [ [Str "Patrick Mahomes"; Str "KAN"; n 20; n 0; n 1];
               [Str "Derrick Henry"; Str "TEN"; n 100; n 1; n 0] ] |}.

Definition receiving : DataFrame float :=
  {| columns := ["Player"; "Tm"; "Rec"; "Yds"; "TD"; "Fmb"];
     rows := [ [Str "Patrick Mahomes"; Str "KAN"; n 5; n 50; n 1; n 2];
               [Str "Tyreek Hill"; Str "MIA"; n 7; n 120; n 1; n 0] ] |}.

Definition files : raw_data float :=
  fun _ category =>
    if String.eqb category "passing" then Ok passing
    else if String.eqb category "rushing" then Ok rushing
    else if String.eqb category "receiving" then Ok receiving
    else Err FileNotFoundError.

(** A dataset over the reals: a column that varies and one that does not. *)
Definition scores : DataFrame R :=
  {| columns := ["Player"; "FantasyPoints"; "Year"];
     rows := [ [Str "Patrick Mahomes QB"; Num 1%R; Num 2023%R];
               [Str "Derrick Henry RB"; Num 3%R; Num 2023%R] ] |}.



(** A site whose 2021 rushing page has no table. *)
Definition flaky_site : web float :=
  fun url _ =>
    if String.eqb url "https://www.pro-football-reference.com/years/2021/rushing.htm"
    then Err ValueError
    else Ok page.

(** A receiving table that carries an [Int] column, as the passing table
    does. *)
Definition receiving_int : DataFrame float :=
  {| columns := ["Player"; "Tm"; "Rec"; "Yds"; "TD"; "Int"];
     rows := [ [Str "Tyreek Hill"; Str "MIA"; n 7; n 120; n 1; n 0] ] |}.

Definition colliding_files : raw_data float :=
  fun _ category =>
    if String.eqb category "passing" then Ok passing
    else if String.eqb category "rushing" then Ok rushing
    else if String.eqb category "receiving" then Ok receiving_int
    else Err FileNotFoundError.

(** The same season files with the defense tables beside them. *)
Definition archive : raw_data float :=
  fun year category =>
    if String.eqb category "defense" then Ok page else files year category.




End Sample.

Unset Implicit Arguments.

(* ================================================================== *)
(** * Further notions *)

(** The four categories the collector scrapes, in source order. *)
Definition categories : list string :=
  ["passing"; "rushing"; "receiving"; "defense"]%string.

(** The four files one turn of the collecting loop writes, newest first. *)
Definition season_files {num} (year : Z)
    (t : DataFrame num * DataFrame num * DataFrame num * DataFrame num) : disk num :=
  let '(passing, rushing, receiving, defense) := t in
  [(year, "defense", defense); (year, "receiving", receiving);
   (year, "rushing", rushing); (year, "passing", passing)]%string.

(** The row filter of [scrape_table]: not a repeated header, not empty. *)
Definition data_row {num} `{Arith num} (i : nat) (r : list (cell num)) : bool :=
  negb (cell_eqb (cell_at i r) (Str "Player")) && negb (forallb isna r).

(** A string without white space. *)
Fixpoint no_space (s : string) : bool :=
  match s with
  | EmptyString => true
  | String c s' => negb (is_space c) && no_space s'
  end.

(** A player identifier [x.split()[-1]] accepts: a string with a character
    that is not white space. *)
Definition has_token {num} (c : cell num) : bool :=
  match c with
  | Str s => negb (all_space s)
  | _ => false
  end.

(** The (player, team) pair of every row. *)
Definition pairs {num} `{Arith num} (df : DataFrame num)
    : list (option (cell num) * option (cell num)) :=
  map (fun r => (at_label df r "Player", at_label df r "Tm")) (rows df).

(** The labels the scoring reads. *)
Definition scored_labels {num} `{Arith num} : list string :=
  map fst (scoring (num:=num)).

(** A cell that is not text. *)
Definition not_text {num} (c : cell num) : bool :=
  match c with Str _ => false | _ => true end.

(** The entry of a labelled matrix at a row and a column. *)
Definition entry {num} (m : list (string * list (cell num))) (i j : nat) : cell num :=
  nth j (snd (nth i m (EmptyString, []))) NaN.

(* ================================================================== *)
(** * Basic facts *)

Lemma bind_Ok {A B} (m : result A) (k : A -> result B) (b : B) :
  (x <- m ;; k x) = Ok b -> exists a, m = Ok a /\ k a = Ok b.
Proof.
  destruct m as [a|e]; simpl; intros E; [exists a; auto | discriminate].
Qed.

Tactic Notation "inv_bind" hyp(H) "as" ident(a) ident(Ha) :=
  apply bind_Ok in H; destruct H as (a & Ha & H).

Lemma mapM_Forall2 {A B} (f : A -> result B) (l : list A) (l' : list B) :
  mapM f l = Ok l' <-> Forall2 (fun a b => f a = Ok b) l l'.
Proof.
  revert l'; induction l as [|a l IH]; intros l'; simpl.
  - split; intros E; [injection E as <-; constructor | inversion E; reflexivity].
  - split.
    + intros E. inv_bind E as b Hb. inv_bind E as bs Hbs. injection E as <-.
      constructor; [assumption | apply IH; assumption].
    + intros E. inversion E as [|? b ? bs Hb Hbs]; subst.
      rewrite Hb; simpl. apply IH in Hbs. rewrite Hbs. reflexivity.
Qed.

Lemma mapM_total {A B} (f : A -> result B) (l : list A) :
  (forall a, In a l -> exists b, f a = Ok b) -> exists l', mapM f l = Ok l'.
Proof.
  induction l as [|a l IH]; intros Hf; simpl.
  - eexists; reflexivity.
  - destruct (Hf a) as (b & Hb); [left; reflexivity|].
    destruct IH as (bs & Hbs); [intros; apply Hf; right; assumption|].
    rewrite Hb, Hbs. eexists; reflexivity.
Qed.

Lemma Forall2_combine_In {A B} (P : A -> B -> Prop) l l' a b :
  Forall2 P l l' -> In (a, b) (combine l l') -> P a b.
Proof.
  induction 1 as [|x y l l' Hxy _ IH]; simpl; [tauto|].
  intros [E|E]; [injection E as <- <-; assumption | auto].
Qed.

Lemma index_of_Some label cols i :
  index_of label cols = Some i -> i < length cols /\ nth_error cols i = Some label.
Proof.
  revert i; induction cols as [|c cs IH]; intros i; simpl; [discriminate|].
  destruct (String.eqb c label) eqn:E.
  - intros [= <-]. apply String.eqb_eq in E. subst. split; [lia | reflexivity].
  - destruct (index_of label cs) as [j|]; simpl; [|discriminate].
    intros [= <-]. destruct (IH j eq_refl). split; [lia | assumption].
Qed.

Lemma index_of_In label cols :
  In label cols -> exists i, index_of label cols = Some i.
Proof.
  induction cols as [|c cs IH]; simpl; [tauto|].
  intros Hin. destruct (String.eqb c label) eqn:E; [eexists; reflexivity|].
  destruct Hin as [->|Hin]; [rewrite String.eqb_refl in E; discriminate|].
  destruct (IH Hin) as (j & ->). eexists; reflexivity.
Qed.


Lemma mem_In c l : mem c l = true <-> In c l.
Proof.
  unfold mem. rewrite existsb_exists. split.
  - intros (x & Hx & E). apply String.eqb_eq in E. subst. assumption.
  - intros Hin. exists c. split; [assumption | apply String.eqb_refl].
Qed.

Lemma wf_row {num} (df : DataFrame num) r :
  wf df -> In r (rows df) -> length r = length (columns df).
Proof.
  unfold wf, wfb. rewrite forallb_forall. intros Hwf Hin.
  apply Nat.eqb_eq. apply Hwf. assumption.
Qed.

Lemma wf_intro {num} (df : DataFrame num) :
  (forall r, In r (rows df) -> length r = length (columns df)) -> wf df.
Proof.
  intros Hr. unfold wf, wfb. rewrite forallb_forall. intros r Hin.
  apply Nat.eqb_eq. auto.
Qed.


Lemma In_select_combine {X} (f : X -> bool) (l : list X) x :
  In x (select (map f l) l) <-> In x l /\ f x = true.
Proof.
  induction l as [|y l IH]; simpl; [tauto|].
  destruct (f y) eqn:E; simpl; rewrite IH; intuition (subst; auto; congruence).
Qed.

(** A cell equals a string for [cell_eqb] exactly when it is that string. *)
Lemma cell_eqb_Str {num} `{Arith num} (c : cell num) s :
  cell_eqb c (Str s) = true <-> c = Str s.
Proof.
  destruct c as [|x|t]; simpl; split; try discriminate.
  - intros E. apply String.eqb_eq in E. subst. reflexivity.
  - intros [= ->]. apply String.eqb_refl.
Qed.

(* ================================================================== *)
(** * The collector *)

Lemma forallb_isna_Forall {num} `{Arith num} (r : list (cell num)) :
  forallb isna r = true <-> Forall (fun c => c = NaN) r.
Proof.
  rewrite forallb_forall, Forall_forall. split; intros Hr c Hin.
  - specialize (Hr c Hin). destruct c; simpl in Hr; try discriminate; reflexivity.
  - rewrite (Hr c Hin). reflexivity.
Qed.

(** C8: whenever the site serves a table with a [Player] column,
    [scrape_table] returns a table, made of rows of the scraped one, in which
    no row has the string "Player" in its [Player] column and no row consists
    of missing cells only. *)
Theorem scrape_table_drops_header_and_empty_rows :
  forall (num : Type) (A : Arith num) (site : web num) (url stat_type : string)
         (table : DataFrame num),
    site url ("all_" ++ stat_type)%string = Ok table ->
    In "Player"%string (columns table) ->
    exists df i,
      scrape_table site url stat_type = Ok df /\
      get_loc (columns df) "Player" = Ok i /\
      forall r, In r (rows df) ->
        In r (rows table) /\
        cell_at i r <> Str "Player" /\
        ~ Forall (fun c => c = NaN) r.
Proof.
  intros num A site url stat_type table Hsite Hcol.
  destruct (index_of_In _ _ Hcol) as (i & Hi).
  unfold scrape_table, getitem, get_loc. rewrite Hsite. simpl. rewrite Hi. simpl.
  eexists; exists i. split; [reflexivity|]. split; [simpl; rewrite Hi; reflexivity|].
  simpl. intros r Hr. apply filter_In in Hr. destruct Hr as [Hr Hne].
  unfold series_ne in Hr. rewrite map_map in Hr.
  apply In_select_combine in Hr. destruct Hr as [Hr Hp].
  split; [assumption|]. split.
  - intros E. apply cell_eqb_Str in E. rewrite E in Hp. discriminate.
  - intros Hall. apply forallb_isna_Forall in Hall. rewrite Hall in Hne. discriminate.
Qed.

(* ================================================================== *)
(** * The analysis notebook: position extraction *)

Lemma split_all_space s : all_space s = true -> split s = [].
Proof.
  unfold split. induction s as [|c s IH]; simpl; [reflexivity|].
  intros E. apply andb_prop in E. destruct E as [Hc Hs]. rewrite Hc. auto.
Qed.

Example position_of_quarterback :
  position (num:=float) (Str "Patrick Mahomes QB") = Ok (Str "QB").
Proof. reflexivity. Qed.

Lemma mapM_Err {A B} (f : A -> result B) (e : error) (l : list A) :
  Forall (fun a => (exists b, f a = Ok b) \/ f a = Err e) l ->
  Exists (fun a => f a = Err e) l ->
  mapM f l = Err e.
Proof.
  induction 1 as [|a l Ha _ IH]; intros Hex; [inversion Hex|].
  simpl. destruct Ha as [(b & Hb)|Ha].
  - rewrite Hb. simpl. inversion Hex as [? ? Hx|? ? Hx]; subst; [congruence|].
    rewrite (IH Hx). reflexivity.
  - rewrite Ha. reflexivity.
Qed.

Lemma position_Str {num} `{Arith num} (s : string) :
  (exists b, position (num:=num) (Str s) = Ok b) \/ position (num:=num) (Str s) = Err IndexError.
Proof.
  simpl. destruct (rev (split s)); [right | left; eexists]; reflexivity.
Qed.

Lemma top_players_reads {num} `{Arith num} (df : DataFrame num) top :
  top_players df = Ok top ->
  exists keys values,
    getitem df "Player" = Ok keys /\ getitem df "FantasyPoints" = Ok values /\
    is_numeric values = true.
Proof.
  unfold top_players, groupby_mean, groupby. intros E.
  inv_bind E as means Hm. inv_bind Hm as g Hg.
  inv_bind Hg as keys Hk. inv_bind Hg as values Hv. injection Hg as <-.
  simpl in Hm. destruct (is_numeric values) eqn:En; [|discriminate].
  eauto.
Qed.

(** C10: if every cell of the [Player] column is a string and one of them is
    empty or made of white space only, the position extraction raises
    [IndexError] (the last element of an empty token list), and so does the
    notebook once its ranking has been computed. *)
Theorem position_extraction_index_error :
  forall (num : Type) (A : Arith num) (df : DataFrame num) (players : list (cell num)),
    getitem df "Player" = Ok players ->
    Forall (fun c => exists s, c = Str s) players ->
    Exists (fun c => exists s, c = Str s /\ all_space s = true) players ->
    extract_position df = Err IndexError /\
    (forall top, top_players df = Ok top -> analysis df = Err IndexError).
Proof.
  intros num A df players Hp Hstr Hblank.
  assert (Hx : extract_position df = Err IndexError).
  { unfold extract_position, assigns, apply. rewrite Hp. simpl.
    rewrite (@mapM_Err _ _ position IndexError players); [reflexivity| |].
    - eapply Forall_impl; [|exact Hstr]. intros c (s & ->). apply position_Str.
    - eapply Exists_impl; [|exact Hblank]. intros c (s & -> & Hs).
      simpl. rewrite (split_all_space _ Hs). reflexivity. }
  split; [exact Hx|].
  intros top Htop. destruct (top_players_reads _ _ Htop) as (keys & values & _ & Hv & _).
  unfold analysis, sbind, reads. cbn [bind]. rewrite Hv. cbn [bind].
  rewrite Htop. cbn [bind]. rewrite Hx. reflexivity.
Qed.

(* ================================================================== *)
(** * The analysis notebook: what happens to [df] *)

Lemma sbind_Ok {num A B} (m : script num A) (k : A -> script num B) df b df2 :
  sbind m k df = Ok (b, df2) ->
  exists a df1, m df = Ok (a, df1) /\ k a df1 = Ok (b, df2).
Proof.
  unfold sbind. destruct (m df) as [[a df1]|e]; [|discriminate].
  intros E. exists a, df1. auto.
Qed.

Lemma reads_Ok {num A} (f : DataFrame num -> result A) df a df1 :
  reads f df = Ok (a, df1) -> f df = Ok a /\ df1 = df.
Proof.
  unfold reads. destruct (f df) as [x|e]; simpl; [|discriminate].
  intros [= <- <-]. auto.
Qed.

Lemma assigns_Ok {num} `{Arith num} label (f : DataFrame num -> result (list (cell num)))
    df u df1 :
  assigns label f df = Ok (u, df1) -> exists v, f df = Ok v /\ df1 = setitem df label v.
Proof.
  unfold assigns. destruct (f df) as [v|e]; simpl; [|discriminate].
  intros [= _ <-]. eauto.
Qed.

Ltac step_reads H :=
  let a := fresh "a" in
  let d := fresh "df" in
  let Hm := fresh "Hm" in
  apply sbind_Ok in H; destruct H as (a & d & Hm & H);
  apply reads_Ok in Hm; destruct Hm as [Hm ->].

Lemma nth_set_nth_other {X} (l : list X) i j v d :
  i <> j -> nth i (set_nth j l v) d = nth i l d.
Proof.
  revert i j; induction l as [|x l IH]; intros [|i] [|j] Hij; simpl; auto; try congruence.
Qed.

Lemma length_set_nth {X} (l : list X) i v : length (set_nth i l v) = length l.
Proof.
  revert i; induction l as [|x l IH]; intros [|i]; simpl; auto.
Qed.

Lemma index_of_app_other label other cols :
  label <> other -> index_of label (cols ++ [other]) = index_of label cols.
Proof.
  intros Hne. induction cols as [|c cs IH]; simpl.
  - destruct (String.eqb other label) eqn:E; [|reflexivity].
    apply String.eqb_eq in E. congruence.
  - rewrite IH. reflexivity.
Qed.

Lemma index_of_inj a b cols i :
  index_of a cols = Some i -> index_of b cols = Some i -> a = b.
Proof.
  intros Ha Hb. apply index_of_Some in Ha, Hb. destruct Ha as [_ Ha], Hb as [_ Hb]. congruence.
Qed.

(** Assigning a column of the right length keeps the frame rectangular, keeps
    its number of rows, and leaves every other column as it was. *)
Lemma setitem_frame {num} `{Arith num} (df : DataFrame num) label v :
  length v = nrows df ->
  nrows (setitem df label v) = nrows df /\
  (wf df -> wf (setitem df label v)) /\
  (wf df -> forall other, other <> label ->
     getitem (setitem df label v) other = getitem df other).
Proof.
  unfold nrows. intros Hlen. unfold setitem.
  destruct (index_of label (columns df)) as [i|] eqn:Hi; simpl.
  - split; [rewrite length_map, length_combine; lia|]. split.
    + intros Hwf. apply wf_intro. simpl. intros r Hr. apply in_map_iff in Hr.
      destruct Hr as ([r0 c] & <- & Hin). simpl. rewrite length_set_nth.
      apply in_combine_l in Hin. apply wf_row; assumption.
    + intros _ other Hne. unfold getitem, get_loc. simpl.
      destruct (index_of other (columns df)) as [j|] eqn:Hj; simpl; [|reflexivity].
      f_equal. rewrite map_map.
      assert (Hij : j <> i) by (intros ->; apply Hne; eapply index_of_inj; eauto).
      clear Hi Hj. revert v Hlen. induction (rows df) as [|r rs IH]; intros [|c v] Hlen;
        simpl in *; try discriminate; [reflexivity|].
      unfold cell_at at 1. rewrite nth_set_nth_other by assumption.
      f_equal. apply IH. lia.
  - split; [rewrite length_map, length_combine; lia|]. split.
    + intros Hwf. apply wf_intro. simpl. intros r Hr. apply in_map_iff in Hr.
      destruct Hr as ([r0 c] & <- & Hin). simpl. rewrite !length_app. simpl.
      apply in_combine_l in Hin. rewrite (wf_row _ _ Hwf Hin). reflexivity.
    + intros Hwf other Hne. unfold getitem, get_loc. simpl.
      rewrite index_of_app_other by assumption.
      destruct (index_of other (columns df)) as [j|] eqn:Hj; simpl; [|reflexivity].
      f_equal. rewrite map_map. apply index_of_Some in Hj. destruct Hj as [Hj _].
      assert (Hr : forall r, In r (rows df) -> j < length r)
        by (intros r Hr; rewrite (wf_row _ _ Hwf Hr); assumption).
      clear Hwf Hi. revert v Hlen. induction (rows df) as [|r rs IH]; intros [|c v] Hlen;
        simpl in *; try discriminate; [reflexivity|].
      unfold cell_at at 1. rewrite app_nth1 by (apply Hr; left; reflexivity).
      f_equal. apply IH; [intros; apply Hr; right; assumption | lia].
Qed.

Lemma getitem_length {num} `{Arith num} (df : DataFrame num) label s :
  getitem df label = Ok s -> length s = nrows df.
Proof.
  unfold getitem. intros E. inv_bind E as i Hi. injection E as <-.
  apply length_map.
Qed.

Lemma mapM_length {A B} (f : A -> result B) l l' : mapM f l = Ok l' -> length l' = length l.
Proof.
  intros E. apply mapM_Forall2 in E. symmetry. eapply Forall2_length; eauto.
Qed.

(** C9, as the code has it: when the notebook runs to its end, the frame bound
    to [df] is the one that was read with the column [Position] assigned (the
    last token of each player identifier); the number of rows is unchanged
    and, for a rectangular frame, so is every column other than [Position].
    The columns are those read, followed by [Position] unless the dataset
    already had a column of that name. *)
Theorem analysis_only_assigns_position :
  forall (num : Type) (A : Arith num) (df : DataFrame num)
         (out : report num * DataFrame num),
    analysis df = Ok out ->
    exists players positions,
      getitem df "Player" = Ok players /\
      apply position players = Ok positions /\
      snd out = setitem df "Position" positions /\
      nrows (snd out) = nrows df /\
      (columns (snd out) = columns df \/
       columns (snd out) = columns df ++ ["Position"%string]) /\
      (wf df -> forall label, label <> "Position"%string ->
         getitem (snd out) label = getitem df label).
Proof.
  intros num A df [rep df'] Hrun. unfold analysis in Hrun.
  step_reads Hrun. step_reads Hrun. step_reads Hrun. step_reads Hrun.
  apply sbind_Ok in Hrun. destruct Hrun as (u & df1 & Hpos & Hrun).
  step_reads Hrun. step_reads Hrun. step_reads Hrun.
  unfold sret in Hrun. injection Hrun as _ <-.
  unfold extract_position in Hpos.
  apply assigns_Ok in Hpos. destruct Hpos as (positions & Hpos & ->).
  inv_bind Hpos as players Hplayers.
  exists players, positions. simpl.
  assert (Hlen : length positions = nrows df).
  { unfold apply in Hpos. rewrite (mapM_length _ _ _ Hpos). eapply getitem_length; eauto. }
  destruct (setitem_frame df "Position" positions Hlen) as (Hn & _ & Hother).
  repeat split; auto.
  unfold setitem. destruct (index_of "Position" (columns df)); simpl; auto.
Qed.

(** The analysis of the sample dataset ends with a frame that is not the one
    it read: it has one more column, [Position]. *)
Lemma analysis_adds_position_column :
  exists out,
    analysis Sample.dataset = Ok out /\
    columns (snd out) = columns Sample.dataset ++ ["Position"%string] /\
    snd out <> Sample.dataset.
Proof.
  eexists. split; [vm_compute; reflexivity|]. split; [vm_compute; reflexivity|].
  intros E. apply (f_equal (fun d => length (columns d))) in E. vm_compute in E. discriminate.
Qed.

Lemma analysis_only_assigns_position_witness :
  exists out,
    analysis Sample.dataset = Ok out /\
    exists players positions,
      getitem Sample.dataset "Player" = Ok players /\
      apply position players = Ok positions /\
      snd out = setitem Sample.dataset "Position" positions /\
      nrows (snd out) = nrows Sample.dataset /\
      (columns (snd out) = columns Sample.dataset \/
       columns (snd out) = columns Sample.dataset ++ ["Position"%string]) /\
      (wf Sample.dataset -> forall label, label <> "Position"%string ->
         getitem (snd out) label = getitem Sample.dataset label).
Proof.
  eexists. split; [vm_compute; reflexivity|].
  apply (@analysis_only_assigns_position float float64 Sample.dataset).
  vm_compute. reflexivity.
Defined.

Lemma position_extraction_index_error_witness :
  getitem Sample.blank_dataset "Player"
    = Ok [Str "Patrick Mahomes QB"; Str "  "]%string /\
  extract_position Sample.blank_dataset = Err IndexError /\
  (forall top, top_players Sample.blank_dataset = Ok top ->
     analysis Sample.blank_dataset = Err IndexError).
Proof.
  split; [reflexivity|].
  apply (@position_extraction_index_error float float64 Sample.blank_dataset
           [Str "Patrick Mahomes QB"; Str "  "]%string).
  - reflexivity.
  - repeat constructor; eexists; reflexivity.
  - apply Exists_cons_tl. apply Exists_cons_hd. eexists. split; reflexivity.
Defined.

Lemma scrape_table_drops_header_and_empty_rows_witness :
  Sample.site "https://www.pro-football-reference.com/years/2023/passing.htm"%string
              ("all_" ++ "passing")%string = Ok Sample.page /\
  exists df i,
    scrape_table Sample.site
      "https://www.pro-football-reference.com/years/2023/passing.htm" "passing" = Ok df /\
    get_loc (columns df) "Player" = Ok i /\
    forall r, In r (rows df) ->
      In r (rows Sample.page) /\
      cell_at i r <> Str "Player" /\
      ~ Forall (fun c => c = NaN) r.
Proof.
  split; [reflexivity|].
  apply (@scrape_table_drops_header_and_empty_rows float float64 Sample.site).
  - reflexivity.
  - right; left; reflexivity.
Defined.

(* ================================================================== *)
(** * The merge keeps frames rectangular *)

Lemma select_length_eq {X Y} (mask : list bool) (l : list X) (l' : list Y) :
  length l = length l' -> length (select mask l) = length (select mask l').
Proof.
  revert l l'; induction mask as [|b m IH]; intros [|x l] [|y l']; simpl;
    try discriminate; try reflexivity.
  intros [= E]. destruct b; simpl; auto.
Qed.

Lemma length_put_keys {num} (ks : list nat) (vs r : list (cell num)) :
  length (put_keys ks vs r) = length r.
Proof.
  revert vs r; induction ks as [|k ks IH]; intros [|v vs] r; simpl; try reflexivity.
  rewrite IH. apply length_set_nth.
Qed.

Lemma merge_Ok {num} `{Arith num} (left right : DataFrame num) on suffixes m :
  merge left right on suffixes = Ok m ->
  exists lk rk,
    mapM (get_loc (columns left)) on = Ok lk /\
    mapM (get_loc (columns right)) on = Ok rk /\
    let mask := value_mask on (columns right) in
    let rcols := select mask (columns right) in
    columns m = map (suffixed rcols (fst suffixes)) (columns left)
                ++ map (suffixed (columns left) (snd suffixes)) rcols /\
    rows m = flat_map (from_left lk rk mask (length rcols) (rows right)) (rows left)
             ++ flat_map (from_right lk rk mask (length (columns left)) (rows left))
                  (rows right).
Proof.
  unfold merge. intros E. inv_bind E as lk Hlk. inv_bind E as rk Hrk.
  injection E as <-. exists lk, rk. simpl. auto.
Qed.

Lemma In_from_left {num} `{Arith num} lk rk mask width right_rows (l x : list (cell num)) :
  In x (from_left lk rk mask width right_rows l) ->
  (x = l ++ repeat NaN width /\
   forall r, In r right_rows -> same_key lk rk l r = false) \/
  (exists r, In r right_rows /\ same_key lk rk l r = true /\ x = l ++ select mask r).
Proof.
  unfold from_left. destruct (filter (same_key lk rk l) right_rows) as [|r0 ms] eqn:E.
  - intros [<-|[]]. left. split; [reflexivity|].
    intros r Hr. destruct (same_key lk rk l r) eqn:Hs; [|reflexivity].
    assert (Hin : In r (filter (same_key lk rk l) right_rows))
      by (apply filter_In; auto).
    rewrite E in Hin. destruct Hin.
  - intros Hin. right. apply in_map_iff in Hin. destruct Hin as (r & <- & Hr).
    rewrite <- E in Hr. apply filter_In in Hr. destruct Hr. eauto.
Qed.

Lemma In_from_right {num} `{Arith num} lk rk mask width left_rows (r x : list (cell num)) :
  In x (from_right lk rk mask width left_rows r) ->
  x = put_keys lk (key_of rk r) (repeat NaN width) ++ select mask r /\
  forall l, In l left_rows -> same_key lk rk l r = false.
Proof.
  unfold from_right.
  destruct (existsb (fun l => same_key lk rk l r) left_rows) eqn:E; [intros []|].
  intros [<-|[]]. split; [reflexivity|].
  intros l Hl. destruct (same_key lk rk l r) eqn:Hs; [|reflexivity].
  assert (Hex : existsb (fun l => same_key lk rk l r) left_rows = true)
    by (apply existsb_exists; eauto).
  congruence.
Qed.

(** Where the rows of a merge come from. *)
Lemma merge_rows {num} `{Arith num} (left right : DataFrame num) on suffixes m lk rk x :
  merge left right on suffixes = Ok m ->
  mapM (get_loc (columns left)) on = Ok lk ->
  mapM (get_loc (columns right)) on = Ok rk ->
  In x (rows m) ->
  let mask := value_mask on (columns right) in
  (exists l, In l (rows left) /\
     x = l ++ repeat NaN (length (select mask (columns right))) /\
     forall r, In r (rows right) -> same_key lk rk l r = false) \/
  (exists l r, In l (rows left) /\ In r (rows right) /\
     same_key lk rk l r = true /\ x = l ++ select mask r) \/
  (exists r, In r (rows right) /\
     x = put_keys lk (key_of rk r) (repeat NaN (length (columns left))) ++ select mask r /\
     forall l, In l (rows left) -> same_key lk rk l r = false).
Proof.
  intros Hm Hlk Hrk Hx. apply merge_Ok in Hm.
  destruct Hm as (lk' & rk' & Hlk' & Hrk' & _ & Hrows).
  rewrite Hlk in Hlk'. rewrite Hrk in Hrk'. injection Hlk' as <-. injection Hrk' as <-.
  simpl. rewrite Hrows in Hx. apply in_app_or in Hx. destruct Hx as [Hx|Hx].
  - apply in_flat_map in Hx. destruct Hx as (l & Hl & Hx).
    apply In_from_left in Hx. destruct Hx as [[-> Hno]|(r & Hr & Hs & ->)].
    + left. eauto.
    + right. left. exists l, r. auto.
  - apply in_flat_map in Hx. destruct Hx as (r & Hr & Hx).
    apply In_from_right in Hx. destruct Hx as [-> Hno].
    right. right. eauto.
Qed.

Lemma merge_wf {num} `{Arith num} (left right : DataFrame num) on suffixes m :
  wf left -> wf right -> merge left right on suffixes = Ok m -> wf m.
Proof.
  intros Hl Hr Hm. apply wf_intro. intros x Hx.
  destruct (merge_Ok _ _ _ _ _ Hm) as (lk & rk & Hlk & Hrk & Hcols & _).
  simpl in Hcols. rewrite Hcols, length_app, !length_map.
  destruct (merge_rows _ _ _ _ _ _ _ _ Hm Hlk Hrk Hx)
    as [(l & Hin & -> & _)|[(l & r & Hin & Hin' & _ & ->)|(r & Hin & -> & _)]];
    rewrite length_app.
  - rewrite repeat_length, (wf_row _ _ Hl Hin). reflexivity.
  - rewrite (wf_row _ _ Hl Hin). f_equal. apply select_length_eq.
    apply (wf_row _ _ Hr Hin').
  - rewrite length_put_keys, repeat_length. f_equal. apply select_length_eq.
    apply (wf_row _ _ Hr Hin).
Qed.

Lemma fillna_wf {num} `{Arith num} (df : DataFrame num) : wf df -> wf (fillna df).
Proof.
  intros Hwf. apply wf_intro. simpl. intros r Hr. apply in_map_iff in Hr.
  destruct Hr as (r0 & <- & Hin). rewrite length_map. apply wf_row; assumption.
Qed.

Lemma fillna_no_NaN {num} `{Arith num} (df : DataFrame num) r c :
  In r (rows (fillna df)) -> In c r -> c <> NaN.
Proof.
  simpl. intros Hr Hc. apply in_map_iff in Hr. destruct Hr as (r0 & <- & _).
  apply in_map_iff in Hc. destruct Hc as (c0 & <- & _).
  destruct c0; simpl; discriminate.
Qed.

Lemma merge_season_Ok {num} `{Arith num} (passing rushing receiving players : DataFrame num) :
  merge_season passing rushing receiving = Ok players ->
  exists first both,
    merge passing rushing join_keys ("_pass", "_rush")%string = Ok first /\
    merge first receiving join_keys default_suffixes = Ok both /\
    players = fillna both.
Proof.
  unfold merge_season. intros E. inv_bind E as first H1. inv_bind E as both H2.
  injection E as <-. eauto.
Qed.

Lemma merge_season_wf {num} `{Arith num} (passing rushing receiving players : DataFrame num) :
  wf passing -> wf rushing -> wf receiving ->
  merge_season passing rushing receiving = Ok players ->
  wf players /\ forall r c, In r (rows players) -> In c r -> c <> NaN.
Proof.
  intros Hp Hr Hc E. apply merge_season_Ok in E.
  destruct E as (first & both & H1 & H2 & ->). split.
  - apply fillna_wf. eapply merge_wf; [| |exact H2]; [|assumption].
    eapply merge_wf; [| |exact H1]; assumption.
  - intros r c. apply fillna_no_NaN.
Qed.

(* ================================================================== *)
(** * Scoring *)

Lemma Forall2_map_l {A B C} (f : A -> B) (P : B -> C -> Prop) l l' :
  Forall2 P (map f l) l' <-> Forall2 (fun a c => P (f a) c) l l'.
Proof.
  revert l'; induction l as [|a l IH]; intros l'; simpl.
  - split; inversion 1; constructor.
  - split; inversion 1; subst; constructor; auto; apply IH; assumption.
Qed.

Lemma Forall2_combine {A B C D} (P : A -> B -> Prop) (Q : A -> C -> Prop)
    (S : B * C -> D -> Prop) rs a b c :
  Forall2 P rs a -> Forall2 Q rs b -> Forall2 S (combine a b) c ->
  Forall2 (fun r z => exists x y, P r x /\ Q r y /\ S (x, y) z) rs c.
Proof.
  intros Ha. revert b c. induction Ha as [|r x rs a Hx _ IH]; intros b c Hb Hc.
  - inversion Hb; subst. simpl in Hc. inversion Hc. constructor.
  - inversion Hb as [|? y ? b' Hy Hb']; subst. simpl in Hc.
    inversion Hc as [|? z ? c' Hz Hc']; subst.
    constructor; [exists x, y; auto | apply (IH b'); assumption].
Qed.

Lemma weighted_rows {num} `{Arith num} (df : DataFrame num) label w t :
  weighted df label w = Ok t ->
  exists i, get_loc (columns df) label = Ok i /\
            Forall2 (fun r c => cell_mul w (cell_at i r) = Ok c) (rows df) t.
Proof.
  unfold weighted, getitem. intros E. inv_bind E as s Hs. inv_bind Hs as i Hi.
  injection Hs as <-. exists i. split; [assumption|].
  apply mapM_Forall2 in E. apply Forall2_map_l in E. exact E.
Qed.

(** The column-wise sum is the row-wise sum of every row. *)
Lemma weighted_sum_rows {num} `{Arith num} (df : DataFrame num) terms :
  forall (R : list (cell num) -> cell num -> Prop) acc pts,
    Forall2 R (rows df) acc ->
    weighted_sum df acc terms = Ok pts ->
    Forall2 (fun r p => exists a, R r a /\ row_sum (columns df) r a terms = Ok p)
            (rows df) pts.
Proof.
  induction terms as [|[label w] rest IH]; intros R acc pts Hacc E; simpl in E.
  - injection E as <-. eapply Forall2_impl; [|exact Hacc]. simpl. eauto.
  - inv_bind E as t Ht. inv_bind E as acc' Hadd.
    apply weighted_rows in Ht. destruct Ht as (i & Hi & Ht).
    unfold series_add in Hadd. apply mapM_Forall2 in Hadd.
    pose proof (Forall2_combine _ _ _ _ _ _ _ Hacc Ht Hadd) as Hacc'.
    specialize (IH _ _ _ Hacc' E).
    eapply Forall2_impl; [|exact IH]. simpl.
    intros r p (a' & (x & y & Hx & Hy & Hxy) & Hp).
    exists x. split; [assumption|]. rewrite Hi. simpl. rewrite Hy. simpl.
    simpl in Hxy. rewrite Hxy. simpl. exact Hp.
Qed.

Lemma fantasy_points_rows {num} `{Arith num} (df : DataFrame num) pts :
  fantasy_points df = Ok pts ->
  Forall2 (fun r p =>
             exists i a, get_loc (columns df) "Yds_pass" = Ok i /\
                         cell_mul (dec 4 2) (cell_at i r) = Ok a /\
                         row_sum (columns df) r a (tl scoring) = Ok p)
          (rows df) pts.
Proof.
  unfold fantasy_points, scoring. cbv beta iota. intros E. inv_bind E as t Ht.
  apply weighted_rows in Ht. destruct Ht as (i & Hi & Ht).
  pose proof (weighted_sum_rows df _ _ _ _ Ht E) as Hrows.
  eapply Forall2_impl; [|exact Hrows]. cbv beta.
  intros r p (a & Ha & Hp). exists i, a. auto.
Qed.

Lemma get_loc_lt cols label i : get_loc cols label = Ok i -> i < length cols.
Proof.
  unfold get_loc. destruct (index_of label cols) as [j|] eqn:E; [|discriminate].
  intros [= <-]. apply index_of_Some in E. tauto.
Qed.

Lemma get_loc_index cols label i : get_loc cols label = Ok i <-> index_of label cols = Some i.
Proof.
  unfold get_loc. destruct (index_of label cols); split; congruence.
Qed.

(** In a row without missing cell, a term of the sum is a number times its
    weight, or the sum fails. *)
Lemma term_Num {num} `{Arith num} (r : list (cell num)) i w t :
  (forall c, In c r -> c <> NaN) -> i < length r ->
  cell_mul w (cell_at i r) = Ok t ->
  exists x, cell_at i r = Num x /\ t = Num (x * w)%num.
Proof.
  intros Hr Hi. unfold cell_at.
  assert (Hin : In (nth i r NaN) r) by (apply nth_In; assumption).
  specialize (Hr _ Hin). destruct (nth i r NaN) as [|x|s]; simpl;
    [congruence | intros [= <-]; eauto | discriminate].
Qed.

Ltac score_step H r Hna Hlen :=
  let i := fresh "i" in
  let Hi := fresh "Hi" in
  let t := fresh "t" in
  let Ht := fresh "Ht" in
  let x := fresh "x" in
  let Hx := fresh "Hx" in
  apply bind_Ok in H; destruct H as (i & Hi & H);
  apply bind_Ok in H; destruct H as (t & Ht & H);
  apply (term_Num r) in Ht; [|exact Hna|rewrite Hlen; eapply get_loc_lt; exact Hi];
  destruct Ht as (x & Hx & ->);
  cbn [cell_add bind] in H;
  apply get_loc_index in Hi.

(** The score of a full row without missing cell. *)
Lemma row_score {num} `{Arith num} (cols : list string) (r : list (cell num)) i a p :
  length r = length cols ->
  (forall c, In c r -> c <> NaN) ->
  get_loc cols "Yds_pass" = Ok i ->
  cell_mul (dec 4 2) (cell_at i r) = Ok a ->
  row_sum cols r a (tl scoring) = Ok p ->
  exists pass_yds pass_td int rush_yds rush_td rec yds td : num,
    option_map (fun i => cell_at i r) (index_of "Yds_pass" cols) = Some (Num pass_yds) /\
    option_map (fun i => cell_at i r) (index_of "TD_pass" cols) = Some (Num pass_td) /\
    option_map (fun i => cell_at i r) (index_of "Int" cols) = Some (Num int) /\
    option_map (fun i => cell_at i r) (index_of "Yds_rush" cols) = Some (Num rush_yds) /\
    option_map (fun i => cell_at i r) (index_of "TD_rush" cols) = Some (Num rush_td) /\
    option_map (fun i => cell_at i r) (index_of "Rec" cols) = Some (Num rec) /\
    option_map (fun i => cell_at i r) (index_of "Yds" cols) = Some (Num yds) /\
    option_map (fun i => cell_at i r) (index_of "TD" cols) = Some (Num td) /\
    p = Num (pass_yds * dec 4 2 + pass_td * num_of_Z 4 + int * num_of_Z (-2)
             + rush_yds * dec 1 1 + rush_td * num_of_Z 6 + rec * num_of_Z 1
             + yds * dec 1 1 + td * num_of_Z 6)%num.
Proof.
  intros Hlen Hna Hi Ha Hp.
  apply (term_Num r) in Ha; [|exact Hna|rewrite Hlen; eapply get_loc_lt; exact Hi].
  destruct Ha as (x0 & Hx0 & ->). apply get_loc_index in Hi.
  unfold scoring, tl in Hp. cbn [row_sum] in Hp.
  score_step Hp r Hna Hlen. score_step Hp r Hna Hlen. score_step Hp r Hna Hlen.
  score_step Hp r Hna Hlen. score_step Hp r Hna Hlen. score_step Hp r Hna Hlen.
  score_step Hp r Hna Hlen. injection Hp as <-.
  exists x0, x, x1, x2, x3, x4, x5, x6.
  rewrite Hi, Hi0, Hi1, Hi2, Hi3, Hi4, Hi5, Hi6. cbn [option_map].
  rewrite Hx0, Hx, Hx1, Hx2, Hx3, Hx4, Hx5, Hx6.
  repeat split; reflexivity.
Qed.

Lemma nth_set_nth_same {X} (l : list X) i v d :
  i < length l -> nth i (set_nth i l v) d = v.
Proof.
  revert i; induction l as [|x l IH]; intros [|i]; simpl; intros Hi; try lia; auto.
  apply IH. lia.
Qed.

Lemma index_of_app_new label cols :
  index_of label cols = None -> index_of label (cols ++ [label]) = Some (length cols).
Proof.
  induction cols as [|c cs IH]; simpl.
  - rewrite String.eqb_refl. reflexivity.
  - destruct (String.eqb c label); [discriminate|].
    destruct (index_of label cs); [discriminate|]. intros _. rewrite IH; reflexivity.
Qed.

(** A row of a frame after a column assignment: the row it was, with the new
    cell under the assigned label and the other cells in place. *)
Lemma setitem_rows {num} `{Arith num} (df : DataFrame num) label v r' :
  wf df ->
  In r' (rows (setitem df label v)) ->
  exists r c,
    In (r, c) (combine (rows df) v) /\
    at_label (setitem df label v) r' label = Some c /\
    forall other, other <> label ->
      at_label (setitem df label v) r' other = at_label df r other.
Proof.
  intros Hwf. unfold setitem, at_label.
  destruct (index_of label (columns df)) as [i|] eqn:Hi; simpl; intros Hin;
    apply in_map_iff in Hin; destruct Hin as ([r c] & <- & Hin); simpl;
    exists r, c; (split; [assumption|]);
    pose proof (wf_row _ _ Hwf (in_combine_l _ _ _ _ Hin)) as Hlen.
  - rewrite Hi. simpl. split.
    + unfold cell_at. rewrite nth_set_nth_same; [reflexivity|].
      rewrite Hlen. apply index_of_Some in Hi. tauto.
    + intros other Hne. destruct (index_of other (columns df)) as [j|] eqn:Hj;
        simpl; [|reflexivity].
      unfold cell_at. rewrite nth_set_nth_other; [reflexivity|].
      intros ->. apply Hne. eapply index_of_inj; eauto.
  - rewrite (index_of_app_new _ _ Hi). simpl. split.
    + unfold cell_at. rewrite app_nth2 by lia. rewrite Hlen, Nat.sub_diag. reflexivity.
    + intros other Hne. rewrite index_of_app_other by assumption.
      destruct (index_of other (columns df)) as [j|] eqn:Hj; simpl; [|reflexivity].
      unfold cell_at. rewrite app_nth1; [reflexivity|].
      rewrite Hlen. apply index_of_Some in Hj. tauto.
Qed.

(** The weights 0.04 and 0.1 are the float64 numbers Python reads. *)
Example float64_weights :
  dec (num:=float) 4 2 = 0x1.47ae147ae147bp-5%float /\
  dec (num:=float) 1 1 = 0x1.999999999999ap-4%float.
Proof. split; reflexivity. Qed.

(** C1: every row of a season's merged record carries, under
    [FantasyPoints], the sum 0.04*Yds_pass + 4*TD_pass - 2*Int + 0.1*Yds_rush
    + 6*TD_rush + 1*Rec + 0.1*Yds + 6*TD of its own zero-filled cells; and in
    float64, on the sample season, the row with 300 passing yards, 2 passing
    touchdowns, 1 interception, 20 rushing yards, 0 rushing touchdowns,
    5 receptions, 50 receiving yards and 1 receiving touchdown scores
    exactly 36. *)
Theorem fantasy_points_formula :
  (forall (num : Type) (A : Arith num) (fs : raw_data num) (year : Z)
          (passing rushing receiving players : DataFrame num),
     fs year "passing"%string = Ok passing ->
     fs year "rushing"%string = Ok rushing ->
     fs year "receiving"%string = Ok receiving ->
     wf passing -> wf rushing -> wf receiving ->
     load_and_preprocess_data fs year = Ok players ->
     forall r, In r (rows players) -> scored players r)
  /\
  (exists players r,
     load_and_preprocess_data Sample.files 2023 = Ok players /\
     In r (rows players) /\
     at_label players r "Yds_pass" = Some (Num 300%float) /\
     at_label players r "TD_pass" = Some (Num 2%float) /\
     at_label players r "Int" = Some (Num 1%float) /\
     at_label players r "Yds_rush" = Some (Num 20%float) /\
     at_label players r "TD_rush" = Some (Num 0%float) /\
     at_label players r "Rec" = Some (Num 5%float) /\
     at_label players r "Yds" = Some (Num 50%float) /\
     at_label players r "TD" = Some (Num 1%float) /\
     at_label players r "FantasyPoints" = Some (Num 36%float)).
Proof.
  split.
  - intros num A fs year passing rushing receiving players Hp Hr Hc Wp Wr Wc Hload r Hin.
    unfold load_and_preprocess_data in Hload. rewrite Hp, Hr, Hc in Hload.
    cbn [bind] in Hload. inv_bind Hload as merged Hm. inv_bind Hload as pts Hpts.
    injection Hload as <-.
    destruct (merge_season_wf _ _ _ _ Wp Wr Wc Hm) as [Wm Hna].
    apply fantasy_points_rows in Hpts.
    destruct (setitem_rows merged "FantasyPoints" pts r Wm Hin) as (r0 & p & Hrp & Hfp & Hother).
    pose proof (in_combine_l _ _ _ _ Hrp) as Hr0.
    pose proof (Forall2_combine_In _ _ _ _ _ Hpts Hrp) as (i & a & Hi & Ha & Hsum).
    destruct (row_score (columns merged) r0 i a p (wf_row _ _ Wm Hr0)
                (fun c => Hna r0 c Hr0) Hi Ha Hsum)
      as (x1 & x2 & x3 & x4 & x5 & x6 & x7 & x8 & H1 & H2 & H3 & H4 & H5 & H6 & H7 & H8 & ->).
    exists x1, x2, x3, x4, x5, x6, x7, x8.
    rewrite !Hother by discriminate. rewrite Hfp. unfold at_label.
    repeat split; assumption || reflexivity.
  - eexists. eexists. split; [vm_compute; reflexivity|].
    split; [left; reflexivity|]. vm_compute. repeat split.
Qed.

Lemma fantasy_points_formula_witness :
  exists players r,
    load_and_preprocess_data Sample.files 2023 = Ok players /\
    In r (rows players) /\ scored players r.
Proof.
  eexists. eexists. split; [vm_compute; reflexivity|]. split; [left; reflexivity|].
  apply (proj1 fantasy_points_formula float float64 Sample.files 2023%Z
           Sample.passing Sample.rushing Sample.receiving);
    try reflexivity.
  left; reflexivity.
Defined.

(* ================================================================== *)
(** * Concatenation of the seasons *)

Lemma length_flat_map_sum {A B} (f : A -> list B) (l : list A) :
  length (flat_map f l) = list_sum (map (fun a => length (f a)) l).
Proof.
  induction l as [|a l IH]; simpl; [reflexivity|].
  rewrite length_app, IH. reflexivity.
Qed.

(** [pd.concat] keeps every row of every frame, and adds none. *)
Lemma concat_nrows {num} `{Arith num} (frames : list (DataFrame num)) df :
  concat frames = Ok df -> nrows df = list_sum (map nrows frames).
Proof.
  unfold concat. destruct frames as [|f fs] eqn:E; [discriminate|]. rewrite <- E.
  intros [= <-]. unfold nrows. cbv zeta. cbn [rows]. rewrite length_flat_map_sum.
  f_equal. apply map_ext. intros a. apply length_map.
Qed.

Lemma concat_total {num} `{Arith num} (frames : list (DataFrame num)) :
  frames <> [] -> exists df, concat frames = Ok df.
Proof.
  destruct frames; [congruence|]. intros _. eexists. reflexivity.
Qed.

(** Stamping [Year] keeps the rows of a season. *)
Lemma season_nrows {num} `{Arith num} (fs : raw_data num) ys records :
  mapM (load_and_preprocess_data fs) ys = Ok records ->
  exists frames,
    mapM (season fs) ys = Ok frames /\ map nrows frames = map nrows records.
Proof.
  revert records. induction ys as [|y ys IH]; intros records E; simpl in E.
  - injection E as <-. exists []. split; reflexivity.
  - inv_bind E as q Hq. inv_bind E as qs Hqs. injection E as <-.
    destruct (IH _ Hqs) as (frames & Hf & Hn).
    eexists. simpl. unfold season at 1. rewrite Hq. cbn [bind]. rewrite Hf. cbn [bind].
    split; [reflexivity|]. simpl. f_equal; [|assumption].
    apply setitem_frame. apply repeat_length.
Qed.

Lemma length_reindex {num} `{Arith num} cols_from cols_to (r : list (cell num)) :
  length (reindex cols_from cols_to r) = length cols_to.
Proof. unfold reindex. apply length_map. Qed.

(** The concatenated dataset is rectangular, whatever the seasons are. *)
Lemma all_players_df_wf {num} `{Arith num} (fs : raw_data num) df :
  all_players_df fs = Ok df -> wf df.
Proof.
  unfold all_players_df, concat. intros E. inv_bind E as frames Hf.
  destruct frames as [|f rest] eqn:Hfr; [discriminate|]. rewrite <- Hfr in E.
  injection E as <-. apply wf_intro. cbv zeta. cbn [rows columns]. intros r Hr.
  apply in_flat_map in Hr. destruct Hr as (d & _ & Hr).
  apply in_map_iff in Hr. destruct Hr as (r0 & <- & _). apply length_reindex.
Qed.

(** C6: when every season of the range 2019..2023 loads, the concatenated
    dataset exists and its number of rows is the sum of the numbers of rows
    of the five per-season merged records. *)
Theorem concat_row_count :
  forall (num : Type) (A : Arith num) (fs : raw_data num),
    (forall year, In year seasons ->
       exists players, load_and_preprocess_data fs year = Ok players) ->
    seasons = [2019; 2020; 2021; 2022; 2023]%Z /\
    exists records df,
      mapM (load_and_preprocess_data fs) seasons = Ok records /\
      all_players_df fs = Ok df /\
      nrows df = list_sum (map nrows records).
Proof.
  intros num A fs Hload. split; [reflexivity|].
  destruct (mapM_total _ _ Hload) as (records & Hrec).
  destruct (season_nrows fs _ _ Hrec) as (frames & Hf & Hn).
  assert (Hne : frames <> []).
  { apply mapM_length in Hf. intros ->. discriminate Hf. }
  destruct (concat_total frames Hne) as (df & Hdf).
  exists records, df. split; [assumption|].
  unfold all_players_df, all_players. rewrite Hf. cbn [bind].
  split; [assumption|]. rewrite (concat_nrows _ _ Hdf). congruence.
Qed.

Lemma concat_row_count_witness :
  (forall year, In year seasons ->
     exists players, load_and_preprocess_data Sample.files year = Ok players) /\
  seasons = [2019; 2020; 2021; 2022; 2023]%Z /\
  exists records df,
    mapM (load_and_preprocess_data Sample.files) seasons = Ok records /\
    all_players_df Sample.files = Ok df /\
    nrows df = list_sum (map nrows records).
Proof.
  assert (Hload : forall year, In year seasons ->
            exists players, load_and_preprocess_data Sample.files year = Ok players)
    by (intros year _; eexists; vm_compute; reflexivity).
  split; [exact Hload|].
  exact (concat_row_count float float64 Sample.files Hload).
Defined.

(* ================================================================== *)
(** * Column labels of the two joins *)

Lemma select_filter {X} (f : X -> bool) (l : list X) : select (map f l) l = filter f l.
Proof.
  induction l as [|x l IH]; simpl; [reflexivity|].
  destruct (f x); rewrite IH; reflexivity.
Qed.

Lemma value_columns on cols c :
  In c (select (value_mask on cols) cols) <-> In c cols /\ ~ In c on.
Proof.
  unfold value_mask. rewrite select_filter, filter_In.
  rewrite negb_true_iff, <- not_true_iff_false, mem_In. reflexivity.
Qed.

Lemma merge_disambiguates {num} `{Arith num} (left right : DataFrame num) on suffixes m :
  merge left right on suffixes = Ok m ->
  disambiguated (columns left) (columns right) (columns m) on suffixes.
Proof.
  intros Hm. apply merge_Ok in Hm. destruct Hm as (lk & rk & _ & _ & Hcols & _).
  simpl in Hcols. rewrite Hcols. clear Hcols.
  set (rcols := select (value_mask on (columns right)) (columns right)).
  repeat split.
  - apply in_or_app. left. apply in_map_iff. exists c. split; [|assumption].
    unfold suffixed. replace (mem c rcols) with true; [reflexivity|].
    symmetry. apply mem_In. apply value_columns. auto.
  - apply in_or_app. right. apply in_map_iff. exists c. split.
    + unfold suffixed. replace (mem c (columns left)) with true; [reflexivity|].
      symmetry. apply mem_In. assumption.
    + apply value_columns. auto.
  - intros c Hc Hno. apply in_or_app. left. apply in_map_iff. exists c.
    split; [|assumption]. unfold suffixed.
    destruct (mem c rcols) eqn:E; [|reflexivity].
    apply mem_In in E. apply value_columns in E. tauto.
  - intros c Hc Hkey Hno. apply in_or_app. right. apply in_map_iff. exists c. split.
    + unfold suffixed. destruct (mem c (columns left)) eqn:E; [|reflexivity].
      apply mem_In in E. tauto.
    + apply value_columns. auto.
  - rewrite length_app, !length_map. f_equal. unfold rcols, value_mask.
    rewrite select_filter. reflexivity.
Qed.

(** C3, as the code has it: the first join gives a label shared by the
    passing and rushing tables the suffixes [_pass] and [_rush]; the second
    join gives a label shared by that result and the receiving table the
    suffixes [_x] and [_y], pandas' defaults; in both joins every other
    label is kept and no column is dropped, so no receiving column is
    shadowed. *)
Theorem both_joins_suffix_conflicts :
  forall (num : Type) (A : Arith num) (passing rushing receiving players : DataFrame num),
    merge_season passing rushing receiving = Ok players ->
    exists first,
      merge passing rushing join_keys ("_pass", "_rush")%string = Ok first /\
      disambiguated (columns passing) (columns rushing) (columns first)
                    join_keys ("_pass", "_rush")%string /\
      disambiguated (columns first) (columns receiving) (columns players)
                    join_keys ("_x", "_y")%string.
Proof.
  intros num A passing rushing receiving players Hm.
  apply merge_season_Ok in Hm. destruct Hm as (first & both & H1 & H2 & ->).
  exists first. split; [assumption|]. split.
  - eapply merge_disambiguates; eauto.
  - change (columns (fillna both)) with (columns both).
    apply (merge_disambiguates _ _ _ _ _ H2).
Qed.

Lemma both_joins_suffix_conflicts_witness :
  exists players,
    merge_season Sample.passing Sample.rushing Sample.receiving = Ok players /\
    exists first,
      merge Sample.passing Sample.rushing join_keys ("_pass", "_rush")%string = Ok first /\
      disambiguated (columns Sample.passing) (columns Sample.rushing) (columns first)
                    join_keys ("_pass", "_rush")%string /\
      disambiguated (columns first) (columns Sample.receiving) (columns players)
                    join_keys ("_x", "_y")%string.
Proof.
  eexists. split; [vm_compute; reflexivity|].
  apply (both_joins_suffix_conflicts float float64 Sample.passing Sample.rushing
           Sample.receiving).
  vm_compute. reflexivity.
Defined.

(** On the sample season the label [Fmb] is shared by the first join and the
    receiving table: the second join suffixes it on both sides, and the row
    of Patrick Mahomes keeps his rushing fumbles (1) under [Fmb_x] and his
    receiving fumbles (2) under [Fmb_y]. *)
Lemma second_join_suffixes_and_keeps_both :
  exists first players r,
    merge Sample.passing Sample.rushing join_keys ("_pass", "_rush")%string = Ok first /\
    merge_season Sample.passing Sample.rushing Sample.receiving = Ok players /\
    In "Fmb"%string (columns first) /\
    In "Fmb"%string (columns Sample.receiving) /\
    ~ In "Fmb"%string (columns players) /\
    In r (rows players) /\
    at_label players r "Player" = Some (Str "Patrick Mahomes") /\
    at_label players r "Fmb_x" = Some (Num 1%float) /\
    at_label players r "Fmb_y" = Some (Num 2%float).
Proof.
  eexists. eexists. eexists.
  split; [vm_compute; reflexivity|]. split; [vm_compute; reflexivity|].
  split; [vm_compute; tauto|]. split; [vm_compute; tauto|].
  split.
  - intros Hin. apply mem_In in Hin. vm_compute in Hin. discriminate.
  - split; [left; reflexivity|]. vm_compute. repeat split.
Qed.

(* ================================================================== *)
(** * Rows of the two joins *)

Lemma cell_eqb_Str_l {num} `{Arith num} (c : cell num) s :
  cell_eqb (Str s) c = true <-> c = Str s.
Proof.
  destruct c as [|x|t]; simpl; split; try discriminate.
  - intros E. apply String.eqb_eq in E. subst. reflexivity.
  - intros [= ->]. apply String.eqb_refl.
Qed.

Lemma keys_eqb_pair_r {num} `{Arith num} (k : list (cell num)) p t :
  keys_eqb k [Str p; Str t] = true <-> k = [Str p; Str t].
Proof.
  destruct k as [|a [|b [|c k]]]; cbn [keys_eqb];
    rewrite ?andb_false_r, ?andb_true_r; try (split; discriminate).
  rewrite andb_true_iff, !cell_eqb_Str.
  split; [intros [-> ->]; reflexivity | intros [= -> ->]; auto].
Qed.

Lemma keys_eqb_pair_l {num} `{Arith num} (k : list (cell num)) p t :
  keys_eqb [Str p; Str t] k = true <-> k = [Str p; Str t].
Proof.
  destruct k as [|a [|b [|c k]]]; cbn [keys_eqb];
    rewrite ?andb_false_r, ?andb_true_r; try (split; discriminate).
  rewrite andb_true_iff, !cell_eqb_Str_l.
  split; [intros [-> ->]; reflexivity | intros [= -> ->]; auto].
Qed.

Lemma join_locs cols i j :
  index_of "Player" cols = Some i -> index_of "Tm" cols = Some j ->
  mapM (get_loc cols) join_keys = Ok [i; j].
Proof.
  intros Hi Hj. unfold join_keys, get_loc. simpl. rewrite Hi, Hj. reflexivity.
Qed.

Lemma has_pair_spec {num} `{Arith num} (df : DataFrame num) i j p t :
  index_of "Player" (columns df) = Some i ->
  index_of "Tm" (columns df) = Some j ->
  has_pair df p t = true <->
  exists r, In r (rows df) /\ key_of [i; j] r = [Str p; Str t].
Proof.
  intros Hi Hj. unfold has_pair. rewrite Hi, Hj, existsb_exists.
  split; intros (r & Hr & E); exists r; (split; [assumption|]).
  - apply andb_prop in E. destruct E as [Ea Eb].
    apply cell_eqb_Str in Ea, Eb. unfold key_of. cbn [map]. congruence.
  - unfold key_of in E. cbn [map] in E. injection E as -> ->.
    rewrite andb_true_iff, !cell_eqb_Str. auto.
Qed.

Lemma has_pair_false {num} `{Arith num} (df : DataFrame num) i j p t r :
  index_of "Player" (columns df) = Some i ->
  index_of "Tm" (columns df) = Some j ->
  has_pair df p t = false -> In r (rows df) -> key_of [i; j] r <> [Str p; Str t].
Proof.
  intros Hi Hj Hno Hr E.
  assert (Hyes : has_pair df p t = true) by (apply (has_pair_spec df i j); eauto).
  congruence.
Qed.

Lemma key_of_app {num} `{Arith num} i j (L R : list (cell num)) :
  i < length L -> j < length L -> key_of [i; j] (L ++ R) = key_of [i; j] L.
Proof.
  intros Hi Hj. unfold key_of, cell_at. simpl. rewrite !app_nth1 by assumption. reflexivity.
Qed.

Lemma key_of_put_keys {num} `{Arith num} i j (a b : cell num) r :
  i <> j -> i < length r -> j < length r ->
  key_of [i; j] (put_keys [i; j] [a; b] r) = [a; b].
Proof.
  intros Hij Hi Hj. unfold key_of, cell_at. simpl.
  rewrite nth_set_nth_other by assumption.
  rewrite !nth_set_nth_same by (rewrite ?length_set_nth; assumption).
  reflexivity.
Qed.

Lemma set_nth_app {X} (l l' : list X) i v :
  i < length l -> set_nth i (l ++ l') v = set_nth i l v ++ l'.
Proof.
  revert i; induction l as [|x l IH]; intros [|i]; simpl; intros Hi; try lia; auto.
  rewrite IH by lia. reflexivity.
Qed.

Lemma put_keys_repeat_app {num} `{Arith num} i j (a b : cell num) n m :
  i < n -> j < n ->
  put_keys [i; j] [a; b] (repeat NaN (n + m))
  = put_keys [i; j] [a; b] (repeat NaN n) ++ repeat NaN m.
Proof.
  intros Hi Hj. simpl. rewrite repeat_app.
  rewrite !set_nth_app by (rewrite ?length_set_nth, repeat_length; assumption).
  reflexivity.
Qed.

Lemma nth_error_set_nth_other {X} (l : list X) i j v :
  i <> j -> nth_error (set_nth j l v) i = nth_error l i.
Proof.
  revert i j; induction l as [|x l IH]; intros [|i] [|j] Hij; simpl; auto; try congruence.
Qed.

Lemma nth_error_put_keys_other {num} `{Arith num} i j (a b : cell num) r k :
  k <> i -> k <> j -> nth_error (put_keys [i; j] [a; b] r) k = nth_error r k.
Proof.
  intros Hi Hj. simpl. rewrite !nth_error_set_nth_other by assumption. reflexivity.
Qed.

Lemma nth_error_repeat {X} (x : X) n k : k < n -> nth_error (repeat x n) k = Some x.
Proof.
  revert k; induction n as [|n IH]; intros [|k] Hk; simpl; try lia; auto.
  apply IH. lia.
Qed.

(** No suffix of the two joins turns a label into a join key. *)
Lemma suffix_not_key (c key : string) (suffix : string) :
  In suffix ["_pass"; "_x"]%string -> In key join_keys -> (c ++ suffix)%string <> key.
Proof.
  intros [<-|[<-|[]]] [<-|[<-|[]]];
    destruct c as [|a1 [|a2 [|a3 [|a4 [|a5 [|a6 [|a7 c]]]]]]]; simpl; discriminate.
Qed.

Lemma index_of_suffixed key cols i others suffix more :
  index_of key cols = Some i ->
  mem key others = false ->
  (forall c, (c ++ suffix)%string <> key) ->
  index_of key (map (suffixed others suffix) cols ++ more) = Some i.
Proof.
  intros Hi Hkey Hsfx. revert i Hi. induction cols as [|c cs IH]; intros i; simpl;
    [discriminate|].
  destruct (String.eqb c key) eqn:E.
  - apply String.eqb_eq in E. subst c. intros [= <-].
    unfold suffixed. rewrite Hkey, String.eqb_refl. reflexivity.
  - destruct (index_of key cs) as [k|]; simpl; [|discriminate]. intros [= <-].
    replace (String.eqb (suffixed others suffix c) key) with false.
    + rewrite (IH k eq_refl). reflexivity.
    + symmetry. apply String.eqb_neq. unfold suffixed.
      destruct (mem c others); [apply Hsfx | apply String.eqb_neq; assumption].
Qed.

(** The join keys stay where the left frame has them. *)
Lemma merge_key_loc {num} `{Arith num} (left right m : DataFrame num) suffixes key i :
  merge left right join_keys suffixes = Ok m ->
  In (fst suffixes) ["_pass"; "_x"]%string ->
  In key join_keys ->
  index_of key (columns left) = Some i ->
  index_of key (columns m) = Some i.
Proof.
  intros Hm Hsfx Hkey Hi. apply merge_Ok in Hm.
  destruct Hm as (lk & rk & _ & _ & Hcols & _). simpl in Hcols. rewrite Hcols.
  apply index_of_suffixed; [assumption| |].
  - destruct (mem key _) eqn:E; [|reflexivity].
    apply mem_In in E. apply value_columns in E. tauto.
  - intros c. apply suffix_not_key; assumption.
Qed.

Lemma key_locs_distinct cols i j :
  index_of "Player" cols = Some i -> index_of "Tm" cols = Some j ->
  i <> j /\ i < length cols /\ j < length cols.
Proof.
  intros Hi Hj. split.
  - intros ->. pose proof (index_of_inj _ _ _ _ Hi Hj). discriminate.
  - apply index_of_Some in Hi, Hj. tauto.
Qed.

Section JoinRows.
Context {num : Type} `{Arith num}.
Variables (left right m : DataFrame num) (suffixes : string * string).
Variables (i j i' j' : nat) (p t : string).
Hypothesis Wl : wf left.
Hypothesis Hi : index_of "Player" (columns left) = Some i.
Hypothesis Hj : index_of "Tm" (columns left) = Some j.
Hypothesis Hi' : index_of "Player" (columns right) = Some i'.
Hypothesis Hj' : index_of "Tm" (columns right) = Some j'.
Hypothesis Hm : merge left right join_keys suffixes = Ok m.

Local Abbreviation K := [Str p; Str t].
Local Abbreviation mask := (value_mask join_keys (columns right)).
Local Abbreviation width := (length (select mask (columns right))).

(** A row of the join with the key (p, t): a left part and a right part,
    each taken from its table when the table lists the pair and missing
    otherwise. *)
Lemma merge_pair_row x :
  In x (rows m) -> key_of [i; j] x = K ->
  exists L R,
    x = L ++ R /\ length L = length (columns left) /\
    ((In L (rows left) /\ key_of [i; j] L = K) \/
     (L = put_keys [i; j] K (repeat NaN (length (columns left))) /\
      has_pair left p t = false)) /\
    (has_pair right p t = false -> R = repeat NaN width) /\
    (wf right -> length R = width).
Proof.
  intros Hx Hk.
  destruct (key_locs_distinct _ _ _ Hi Hj) as (Hij & Hil & Hjl).
  destruct (merge_rows _ _ _ _ _ _ _ _ Hm (join_locs _ _ _ Hi Hj) (join_locs _ _ _ Hi' Hj') Hx)
    as [(l & Hl & -> & Hno)|[(l & r & Hl & Hr & Hs & ->)|(r & Hr & -> & Hno)]].
  - pose proof (wf_row _ _ Wl Hl) as Hlen.
    rewrite key_of_app in Hk by (rewrite Hlen; assumption).
    exists l, (repeat NaN width).
    split; [reflexivity|]. split; [assumption|]. split; [left; auto|].
    split; [reflexivity | intros _; apply repeat_length].
  - pose proof (wf_row _ _ Wl Hl) as Hlen.
    rewrite key_of_app in Hk by (rewrite Hlen; assumption).
    exists l, (select mask r).
    split; [reflexivity|]. split; [assumption|]. split; [left; auto|]. split.
    + intros Hno. exfalso. unfold same_key in Hs. rewrite Hk in Hs.
      apply keys_eqb_pair_l in Hs.
      exact (has_pair_false _ _ _ _ _ _ Hi' Hj' Hno Hr Hs).
    + intros Wr. apply select_length_eq. apply (wf_row _ _ Wr Hr).
  - rewrite key_of_app in Hk by (rewrite length_put_keys, repeat_length; assumption).
    change (key_of [i'; j'] r) with [cell_at i' r; cell_at j' r] in Hk.
    rewrite key_of_put_keys in Hk by (rewrite ?repeat_length; assumption).
    assert (Hkr : key_of [i'; j'] r = K) by exact Hk.
    rewrite Hkr.
    exists (put_keys [i; j] K (repeat NaN (length (columns left)))), (select mask r).
    split; [reflexivity|].
    split; [rewrite length_put_keys; apply repeat_length|]. split; [|split].
    + right. split; [reflexivity|].
      destruct (has_pair left p t) eqn:E; [|reflexivity]. exfalso.
      apply (has_pair_spec left i j) in E; [|assumption|assumption].
      destruct E as (l & Hl & Hkl). specialize (Hno l Hl).
      unfold same_key in Hno. rewrite Hkl, Hkr in Hno.
      apply not_true_iff_false in Hno. apply Hno.
      apply keys_eqb_pair_l. reflexivity.
    + intros Hnone. exfalso.
      exact (has_pair_false _ _ _ _ _ _ Hi' Hj' Hnone Hr Hkr).
    + intros Wr. apply select_length_eq. apply (wf_row _ _ Wr Hr).
Qed.

Lemma from_left_nonempty lk rk l :
  exists R, In (l ++ R) (from_left lk rk mask width (rows right) l).
Proof.
  unfold from_left. destruct (filter (same_key lk rk l) (rows right)) as [|r0 ms].
  - eexists. left. reflexivity.
  - exists (select mask r0). left. reflexivity.
Qed.

(** The join lists every pair one of its tables lists. *)
Lemma merge_has_pair :
  In (fst suffixes) ["_pass"; "_x"]%string ->
  has_pair left p t = true \/ has_pair right p t = true ->
  has_pair m p t = true.
Proof.
  intros Hsfx Hany.
  destruct (key_locs_distinct _ _ _ Hi Hj) as (Hij & Hil & Hjl).
  assert (Hmi : index_of "Player" (columns m) = Some i)
    by (eapply merge_key_loc; eauto; left; reflexivity).
  assert (Hmj : index_of "Tm" (columns m) = Some j)
    by (eapply merge_key_loc; eauto; right; left; reflexivity).
  apply (has_pair_spec m i j); [assumption|assumption|].
  destruct (merge_Ok _ _ _ _ _ Hm) as (lk & rk & Hlk & Hrk & _ & Hrows).
  rewrite (join_locs _ _ _ Hi Hj) in Hlk. injection Hlk as <-.
  rewrite (join_locs _ _ _ Hi' Hj') in Hrk. injection Hrk as <-.
  simpl in Hrows.
  destruct (has_pair left p t) eqn:El.
  - apply (has_pair_spec left i j) in El; [|assumption|assumption].
    destruct El as (l & Hl & Hkl).
    destruct (from_left_nonempty [i; j] [i'; j'] l) as (R & HR).
    exists (l ++ R). split.
    + rewrite Hrows. apply in_or_app. left. apply in_flat_map. exists l. auto.
    + rewrite key_of_app by (rewrite (wf_row _ _ Wl Hl); assumption). exact Hkl.
  - destruct Hany as [Hany|Hany]; [discriminate|].
    apply (has_pair_spec right i' j') in Hany; [|assumption|assumption].
    destruct Hany as (r & Hr & Hkr).
    exists (put_keys [i; j] (key_of [i'; j'] r) (repeat NaN (length (columns left)))
            ++ select mask r). split.
    + rewrite Hrows. apply in_or_app. right. apply in_flat_map. exists r.
      split; [assumption|]. unfold from_right.
      replace (existsb _ (rows left)) with false; [left; reflexivity|].
      symmetry. apply not_true_iff_false. intros Hex. apply existsb_exists in Hex.
      destruct Hex as (l & Hl & Hs). unfold same_key in Hs. rewrite Hkr in Hs.
      apply keys_eqb_pair_r in Hs.
      exact (has_pair_false _ _ _ _ _ _ Hi Hj El Hl Hs).
    + rewrite key_of_app by (rewrite length_put_keys, repeat_length; assumption).
      rewrite Hkr. apply key_of_put_keys; rewrite ?repeat_length; assumption.
Qed.

End JoinRows.

Lemma keyed_has_keys {num} `{Arith num} (df : DataFrame num) : keyed df -> has_keys df.
Proof.
  unfold keyed, keyedb, has_keys.
  destruct (index_of "Player" (columns df)) as [i|] eqn:Hi; [|discriminate].
  destruct (index_of "Tm" (columns df)) as [j|] eqn:Hj; [|discriminate].
  intros _. apply index_of_Some in Hi, Hj.
  split; eapply nth_error_In; intuition eauto.
Qed.

Lemma merge_total {num} `{Arith num} (left right : DataFrame num) suffixes :
  has_keys left -> has_keys right ->
  exists m, merge left right join_keys suffixes = Ok m.
Proof.
  intros [Hp Ht] [Hp' Ht'].
  destruct (index_of_In _ _ Hp) as (i & Hi). destruct (index_of_In _ _ Ht) as (j & Hj).
  destruct (index_of_In _ _ Hp') as (i' & Hi'). destruct (index_of_In _ _ Ht') as (j' & Hj').
  unfold merge. rewrite (join_locs _ _ _ Hi Hj), (join_locs _ _ _ Hi' Hj').
  eexists. reflexivity.
Qed.

Lemma cell_at_map_fill {num} `{Arith num} (x : list (cell num)) i :
  i < length x -> cell_at i (map fill x) = fill (cell_at i x).
Proof.
  intros Hi. unfold cell_at.
  rewrite (nth_indep _ NaN (fill NaN)) by (rewrite length_map; assumption).
  apply map_nth.
Qed.

Lemma fill_Str {num} `{Arith num} (c : cell num) s : fill c = Str s -> c = Str s.
Proof. unfold fill. destruct c; simpl; congruence. Qed.

(** The cells of a merged row, table by table. *)
Lemma zero_cells {num} `{Arith num} (passing rushing receiving : DataFrame num)
    i j p t (L1 R1 R2 : list (cell num)) k src :
  index_of "Player" (columns passing) = Some i ->
  index_of "Tm" (columns passing) = Some j ->
  length L1 = length (columns passing) ->
  length R1 = length (select (value_mask join_keys (columns rushing)) (columns rushing)) ->
  length R2 = length (select (value_mask join_keys (columns receiving)) (columns receiving)) ->
  (has_pair passing p t = false ->
   L1 = put_keys [i; j] [Str p; Str t] (repeat NaN (length (columns passing)))) ->
  (has_pair rushing p t = false -> R1 = repeat NaN (length R1)) ->
  (has_pair receiving p t = false -> R2 = repeat NaN (length R2)) ->
  nth_error (origins passing rushing receiving) k = Some (Some src) ->
  has_pair (table_of passing rushing receiving src) p t = false ->
  nth_error (map fill (L1 ++ R1 ++ R2)) k = Some (Num zero).
Proof.
  intros Hi Hj Hl1 Hr1 Hr2 Hp Hr Hc Hk Hno. unfold origins in Hk.
  rewrite nth_error_map.
  destruct (Nat.lt_ge_cases k (length (columns passing))) as [Hlt|Hge].
  - rewrite nth_error_app1 in Hk by (rewrite length_map; assumption).
    rewrite nth_error_map in Hk.
    destruct (nth_error (columns passing) k) as [c|] eqn:Hc'; [|discriminate].
    cbn [option_map] in Hk. destruct (mem c join_keys) eqn:Hkey; [discriminate|].
    injection Hk as <-. simpl in Hno.
    rewrite nth_error_app1 by lia. rewrite (Hp Hno).
    apply index_of_Some in Hi, Hj. destruct Hi as [_ Hi], Hj as [_ Hj].
    rewrite nth_error_put_keys_other.
    + rewrite nth_error_repeat by assumption. reflexivity.
    + intros ->. rewrite Hi in Hc'. injection Hc' as <-. discriminate Hkey.
    + intros ->. rewrite Hj in Hc'. injection Hc' as <-. discriminate Hkey.
  - rewrite nth_error_app2 in Hk by (rewrite length_map; assumption).
    rewrite length_map in Hk. rewrite nth_error_app2 by lia. rewrite Hl1.
    set (k' := k - length (columns passing)) in *.
    destruct (Nat.lt_ge_cases k' (length R1)) as [Hlt|Hge'].
    + rewrite nth_error_app1 in Hk by (rewrite length_map, <- Hr1; assumption).
      rewrite nth_error_map in Hk.
      destruct (nth_error _ k'); [|discriminate]. injection Hk as <-. simpl in Hno.
      rewrite nth_error_app1 by assumption. rewrite (Hr Hno).
      rewrite nth_error_repeat by assumption. reflexivity.
    + rewrite nth_error_app2 in Hk by (rewrite length_map, <- Hr1; assumption).
      rewrite length_map, <- Hr1 in Hk. rewrite nth_error_map in Hk.
      destruct (nth_error _ (k' - length R1)) eqn:E; [|discriminate].
      injection Hk as <-. simpl in Hno.
      rewrite nth_error_app2 by assumption. rewrite (Hc Hno).
      rewrite nth_error_repeat; [reflexivity|].
      rewrite Hr2. apply nth_error_Some. congruence.
Qed.

(** C2: for rectangular passing, rushing and receiving tables whose rows
    have their player and team identifiers, and a pair (player, team) of
    identifiers that at least one of them lists, the merged and zero-filled
    record of the season exists and has a row for the pair; and in every row
    for the pair, each column that comes from a table not listing the pair
    holds 0. *)
Theorem outer_join_zero_fill :
  forall (num : Type) (A : Arith num) (passing rushing receiving : DataFrame num)
         (p t : string),
    wf passing -> wf rushing -> wf receiving ->
    keyed passing -> keyed rushing -> keyed receiving ->
    has_pair passing p t || has_pair rushing p t || has_pair receiving p t = true ->
    exists players,
      merge_season passing rushing receiving = Ok players /\
      (exists r, In r (rows players) /\
                 at_label players r "Player" = Some (Str p) /\
                 at_label players r "Tm" = Some (Str t)) /\
      (forall r, In r (rows players) ->
         at_label players r "Player" = Some (Str p) ->
         at_label players r "Tm" = Some (Str t) ->
         forall k src,
           nth_error (origins passing rushing receiving) k = Some (Some src) ->
           has_pair (table_of passing rushing receiving src) p t = false ->
           nth_error r k = Some (Num zero)).
Proof.
  intros num A passing rushing receiving p t Wp Wr Wc Kp Kr Kc Hany.
  apply keyed_has_keys in Kp, Kr, Kc.
  destruct (merge_total passing rushing ("_pass", "_rush")%string Kp Kr) as (first & H1).
  pose proof (merge_wf _ _ _ _ _ Wp Wr H1) as Wf.
  destruct Kp as [Kp1 Kp2]. destruct Kr as [Kr1 Kr2].
  destruct (index_of_In _ _ Kp1) as (i & Hi). destruct (index_of_In _ _ Kp2) as (j & Hj).
  destruct (index_of_In _ _ Kr1) as (i2 & Hi2). destruct (index_of_In _ _ Kr2) as (j2 & Hj2).
  assert (Hfi : index_of "Player" (columns first) = Some i)
    by (eapply merge_key_loc; eauto; simpl; tauto).
  assert (Hfj : index_of "Tm" (columns first) = Some j)
    by (eapply merge_key_loc; eauto; simpl; tauto).
  assert (Kf : has_keys first).
  { split; [apply index_of_Some in Hfi | apply index_of_Some in Hfj];
      eapply nth_error_In; intuition eauto. }
  destruct (merge_total first receiving default_suffixes Kf Kc) as (both & H2).
  pose proof (merge_wf _ _ _ _ _ Wf Wc H2) as Wb.
  destruct Kc as [Kc1 Kc2].
  destruct (index_of_In _ _ Kc1) as (i3 & Hi3). destruct (index_of_In _ _ Kc2) as (j3 & Hj3).
  assert (Hbi : index_of "Player" (columns both) = Some i)
    by (eapply merge_key_loc; eauto; simpl; tauto).
  assert (Hbj : index_of "Tm" (columns both) = Some j)
    by (eapply merge_key_loc; eauto; simpl; tauto).
  destruct (key_locs_distinct _ _ _ Hbi Hbj) as (Hij & Hib & Hjb).
  exists (fillna both). split; [|split].
  - unfold merge_season. rewrite H1. cbn [bind]. rewrite H2. reflexivity.
  - (* a row for the pair *)
    assert (Hb : has_pair both p t = true).
    { apply (merge_has_pair first receiving both default_suffixes i j i3 j3 p t);
        try assumption; [simpl; tauto|].
      destruct (has_pair receiving p t); [right; reflexivity|]. left.
      apply (merge_has_pair passing rushing first ("_pass", "_rush")%string i j i2 j2 p t);
        try assumption; [simpl; tauto|].
      rewrite orb_false_r in Hany. apply orb_prop in Hany. exact Hany. }
    apply (has_pair_spec both i j) in Hb; [|assumption|assumption].
    destruct Hb as (x & Hx & Hk). unfold key_of in Hk. cbn [map] in Hk.
    injection Hk as Hkp Hkt.
    pose proof (wf_row _ _ Wb Hx) as Hlen.
    exists (map fill x). split; [apply in_map; assumption|].
    unfold at_label. cbn [fillna columns]. rewrite Hbi, Hbj. cbn [option_map].
    rewrite !cell_at_map_fill by (rewrite Hlen; assumption).
    rewrite Hkp, Hkt. split; reflexivity.
  - (* every row for the pair *)
    intros r Hr Hrp Hrt k src Hk Hno. cbn [fillna rows] in Hr.
    apply in_map_iff in Hr. destruct Hr as (x & <- & Hx).
    pose proof (wf_row _ _ Wb Hx) as Hlen.
    unfold at_label in Hrp, Hrt. cbn [fillna columns] in Hrp, Hrt.
    rewrite Hbi in Hrp. rewrite Hbj in Hrt. cbn [option_map] in Hrp, Hrt.
    rewrite cell_at_map_fill in Hrp, Hrt by (rewrite Hlen; assumption).
    injection Hrp as Hrp. injection Hrt as Hrt.
    apply fill_Str in Hrp, Hrt.
    assert (Hkx : key_of [i; j] x = [Str p; Str t])
      by (unfold key_of; cbn [map]; congruence).
    destruct (merge_pair_row first receiving both default_suffixes i j i3 j3 p t
                Wf Hfi Hfj Hi3 Hj3 H2 x Hx Hkx)
      as (L & R2 & -> & HL & HLcase & HR2 & HR2len).
    specialize (HR2len Wc).
    assert (Hcols : length (columns first)
                    = length (columns passing)
                      + length (select (value_mask join_keys (columns rushing))
                                  (columns rushing))).
    { destruct (merge_Ok _ _ _ _ _ H1) as (? & ? & _ & _ & Hc & _). simpl in Hc.
      rewrite Hc, length_app, !length_map. reflexivity. }
    destruct (key_locs_distinct _ _ _ Hi Hj) as (_ & Hip & Hjp).
    assert (Hparts : exists L1 R1,
               L = L1 ++ R1 /\ length L1 = length (columns passing) /\
               length R1 = length (select (value_mask join_keys (columns rushing))
                                     (columns rushing)) /\
               (has_pair passing p t = false ->
                L1 = put_keys [i; j] [Str p; Str t]
                       (repeat NaN (length (columns passing)))) /\
               (has_pair rushing p t = false -> R1 = repeat NaN (length R1))).
    { destruct HLcase as [[HLin HLk]|[-> Hnf]].
      - destruct (merge_pair_row passing rushing first ("_pass", "_rush")%string
                    i j i2 j2 p t Wp Hi Hj Hi2 Hj2 H1 L HLin HLk)
          as (L1 & R1 & -> & HL1 & HL1case & HR1 & HR1len).
        specialize (HR1len Wr).
        exists L1, R1. split; [reflexivity|]. split; [assumption|]. split; [assumption|].
        split.
        + intros Hnp. destruct HL1case as [[Hin Hkey]|[-> _]]; [|reflexivity].
          exfalso. exact (has_pair_false _ _ _ _ _ _ Hi Hj Hnp Hin Hkey).
        + intros Hnr. rewrite HR1len. auto.
      - rewrite Hcols, put_keys_repeat_app by assumption.
        eexists. eexists. split; [reflexivity|].
        split; [rewrite length_put_keys; apply repeat_length|].
        split; [apply repeat_length|].
        split; [reflexivity|]. intros _. rewrite repeat_length. reflexivity. }
    destruct Hparts as (L1 & R1 & -> & HL1 & HR1 & Hp1 & Hr1).
    rewrite <- app_assoc.
    apply (zero_cells passing rushing receiving i j p t L1 R1 R2 k src);
      try assumption.
    intros Hnc. rewrite HR2len. auto.
Qed.

Lemma outer_join_zero_fill_witness :
  has_pair Sample.passing "Derrick Henry" "TEN"
    || has_pair Sample.rushing "Derrick Henry" "TEN"
    || has_pair Sample.receiving "Derrick Henry" "TEN" = true /\
  exists players,
    merge_season Sample.passing Sample.rushing Sample.receiving = Ok players /\
    (exists r, In r (rows players) /\
               at_label players r "Player" = Some (Str "Derrick Henry") /\
               at_label players r "Tm" = Some (Str "TEN")) /\
    (forall r, In r (rows players) ->
       at_label players r "Player" = Some (Str "Derrick Henry") ->
       at_label players r "Tm" = Some (Str "TEN") ->
       forall k src,
         nth_error (origins Sample.passing Sample.rushing Sample.receiving) k
           = Some (Some src) ->
         has_pair (table_of Sample.passing Sample.rushing Sample.receiving src)
                  "Derrick Henry" "TEN" = false ->
         nth_error r k = Some (Num zero)).
Proof.
  split; [reflexivity|].
  apply (outer_join_zero_fill float float64 Sample.passing Sample.rushing Sample.receiving
           "Derrick Henry" "TEN");
    reflexivity.
Defined.

(* ================================================================== *)
(** * Normalisation *)

Lemma nth_map_combine {A B C} (f : A * B -> C) (a : list A) (b : list B) j da db dc :
  j < length a -> length a = length b ->
  nth j (map f (combine a b)) dc = f (nth j a da, nth j b db).
Proof.
  revert b j; induction a as [|x a IH]; intros [|y b] [|j]; simpl; intros Hj Hlen;
    try lia; try reflexivity.
  apply IH; lia.
Qed.

(** The scaled frame, column by column. *)
Lemma scale_features_column {num} `{Arith num} (df out : DataFrame num) j :
  wf df -> scale_features df = Ok out -> j < length (columns df) ->
  columns out = columns df /\
  column out j = map (fun c => scale_cell (column df j, c)) (column df j).
Proof.
  intros Hwf Hs Hj. unfold scale_features in Hs.
  destruct (rows df) as [|r0 rs] eqn:Hrows; [discriminate|]. rewrite <- Hrows in Hs.
  destruct (existsb is_numeric _); [|discriminate]. injection Hs as <-.
  split; [reflexivity|]. unfold column at 1. cbn [rows]. rewrite map_map.
  unfold column at 3. rewrite map_map.
  apply map_ext_in. intros r Hr. unfold cell_at at 1.
  rewrite (nth_map_combine _ _ _ _ [] NaN).
  - rewrite (nth_indep _ [] (column df 0)) by (rewrite length_map, length_seq; assumption).
    rewrite map_nth, seq_nth by assumption. reflexivity.
  - rewrite length_map, length_seq. assumption.
  - rewrite length_map, length_seq. symmetry. apply wf_row; assumption.
Qed.

Lemma numbers_standardize {num} `{Arith num} (s col : list (cell num)) :
  numbers (map (standardize s) col)
  = map (fun x => ((x - mean (numbers s)) / scale_ (numbers s))%num) (numbers col).
Proof.
  induction col as [|c col IH]; [reflexivity|].
  destruct c; simpl; rewrite ?IH; reflexivity.
Qed.

Ltac to_R :=
  unfold zero, one, count in *;
  cbn [num_add num_sub num_mul num_div num_of_Z num_sqrt num_eqb num_leb exact] in *.

Section ExactScaling.
Local Open Scope R_scope.

Lemma fold_left_Rplus l a : fold_left Rplus l a = a + fold_left Rplus l 0.
Proof.
  revert a; induction l as [|x l IH]; intros a; simpl; [lra|].
  rewrite (IH (a + x)), (IH (0 + x)). lra.
Qed.

Lemma total_nil : total (num:=R) [] = 0.
Proof. reflexivity. Qed.

Lemma total_cons (x : R) l : total (x :: l) = x + total l.
Proof.
  unfold total. to_R. simpl. rewrite fold_left_Rplus. lra.
Qed.

Lemma count_INR (l : list R) : count l = INR (length l).
Proof. unfold count. to_R. symmetry. apply INR_IZR_INZ. Qed.

Lemma total_map_affine (l : list R) a b :
  total (map (fun x => a * x + b) l) = a * total l + INR (length l) * b.
Proof.
  induction l as [|x l IH].
  - simpl. rewrite total_nil. lra.
  - rewrite map_cons, !total_cons, IH. change (length (x :: l)) with (S (length l)).
    rewrite S_INR. lra.
Qed.

Lemma total_map_ext (f g : R -> R) l :
  (forall x, In x l -> f x = g x) -> total (map f l) = total (map g l).
Proof.
  intros E. f_equal. apply map_ext_in. assumption.
Qed.

Lemma total_nonneg (l : list R) : (forall x, In x l -> 0 <= x) -> 0 <= total l.
Proof.
  induction l as [|x l IH]; intros Hl.
  - rewrite total_nil. lra.
  - rewrite total_cons. assert (0 <= x) by (apply Hl; left; reflexivity).
    assert (0 <= total l) by (apply IH; intros; apply Hl; right; assumption). lra.
Qed.


Lemma count_pos (l : list R) : l <> [] -> 0 < count l.
Proof.
  intros Hl. rewrite count_INR. apply lt_0_INR. destruct l; [congruence | simpl; lia].
Qed.

Lemma squares_nonneg (m : R) (l : list R) x :
  In x (map (fun x => (x - m) * (x - m)) l) -> 0 <= x.
Proof.
  intros Hx. apply in_map_iff in Hx. destruct Hx as (y & <- & _).
  exact (Rle_0_sqr (y - m)).
Qed.

Lemma variance_nonneg (l : list R) : 0 <= variance l.
Proof.
  unfold variance, mean. to_R. destruct l as [|x l].
  - simpl. rewrite total_nil. unfold Rdiv. lra.
  - apply Rmult_le_pos.
    + apply total_nonneg. apply squares_nonneg.
    + left. apply Rinv_0_lt_compat. rewrite length_map. apply count_pos. discriminate.
Qed.


Lemma scale_nonzero_variance (l : list R) :
  variance l <> 0 ->
  scale_ l = std l /\ std l * std l = variance l /\ std l <> 0.
Proof.
  intros Hv. pose proof (variance_nonneg l) as Hpos.
  assert (Hs : std l * std l = variance l)
    by (unfold std; to_R; apply sqrt_sqrt; assumption).
  assert (Hz : std l <> 0) by (intros E; rewrite E in Hs; lra).
  unfold scale_. to_R. unfold Reqb.
  destruct (Req_dec_T (std l) 0); [contradiction|]. auto.
Qed.

Lemma scale_zero_variance (l : list R) : variance l = 0 -> scale_ l = 1.
Proof.
  intros Hv. unfold scale_, std. rewrite Hv. to_R. rewrite sqrt_0. unfold Reqb.
  destruct (Req_dec_T 0 0); [reflexivity | congruence].
Qed.


Lemma mean_centered (l : list R) s :
  mean (map (fun x => (x - mean l) / s) l) = 0.
Proof.
  unfold mean at 1. to_R.
  rewrite (total_map_ext _ (fun x => / s * x + - (mean l / s)))
    by (intros; unfold Rdiv; lra).
  rewrite total_map_affine. destruct l as [|x l].
  - simpl. rewrite total_nil. unfold Rdiv. lra.
  - assert (Hn : 0 < count (x :: l)) by (apply count_pos; discriminate).
    unfold mean. rewrite !count_INR in *. to_R.
    set (n := INR (length (x :: l))) in *. set (T := total (x :: l)).
    assert (Hnv : n * / n = 1) by (apply Rinv_r; lra).
    replace (/ s * T + n * - (T / n / s)) with (/ s * T * (1 - n * / n))
      by (unfold Rdiv; ring).
    rewrite Hnv. unfold Rdiv. ring.
Qed.

(** Dividing the centred values by [s] divides the variance by [s * s]. *)
Lemma variance_scaled (l : list R) s :
  variance (map (fun x => (x - mean l) / s) l) = variance l * (/ s * / s).
Proof.
  unfold variance. rewrite mean_centered. unfold mean at 1 3. to_R.
  rewrite !length_map, map_map.
  replace (map (fun x => ((x - mean l) / s - 0) * ((x - mean l) / s - 0)) l)
    with (map (fun z => (/ s * / s) * z + 0)
              (map (fun x => (x - mean l) * (x - mean l)) l))
    by (rewrite map_map; apply map_ext; intros; unfold Rdiv; ring).
  rewrite total_map_affine. unfold Rdiv. ring.
Qed.

(** The standardised numbers of a column of nonzero variance. *)
Lemma standardized_moments (l : list R) :
  variance l <> 0 ->
  let ys := map (fun x => (x - mean l) / scale_ l) l in
  mean ys = 0 /\ std ys = 1.
Proof.
  intros Hv ys. destruct (scale_nonzero_variance l Hv) as (Hsc & Hsq & Hz).
  unfold ys. rewrite Hsc. split; [apply mean_centered|].
  unfold std at 1. rewrite variance_scaled. to_R.
  replace (variance l * (/ std l * / std l)) with 1.
  - apply sqrt_1.
  - rewrite <- Hsq. field. assumption.
Qed.

End ExactScaling.


Lemma scaled_numeric_column (df out : DataFrame R) j :
  wf df -> scale_features df = Ok out ->
  j < length (columns df) -> is_numeric (column df j) = true ->
  column out j = map (standardize (column df j)) (column df j).
Proof.
  intros Hwf Hs Hj Hnum.
  destruct (scale_features_column df out j Hwf Hs Hj) as [_ ->].
  apply map_ext. intros c. unfold scale_cell. cbn [fst snd]. rewrite Hnum. reflexivity.
Qed.







(** The same scaler run in float64 on the sample dataset: the scaled
    [FantasyPoints] column has mean and standard deviation within 1e-9 of
    0 and 1. *)
Example float64_scaling_within_tolerance :
  exists out,
    scale_features Sample.dataset = Ok out /\
    let ys := numbers (column out 2) in
    PrimFloat.leb (PrimFloat.abs (mean ys)) (dec 1 9) = true /\
    PrimFloat.leb (PrimFloat.abs (std ys - num_of_Z 1)%num) (dec 1 9) = true.
Proof.
  eexists. split; [vm_compute; reflexivity|]. vm_compute. split; reflexivity.
Qed.

(* ================================================================== *)
(** * The ranking *)

Section Sorting.
Context {X : Type} (le : X -> X -> bool).

Lemma insert_by_perm x l : Permutation (insert_by le x l) (x :: l).
Proof.
  induction l as [|y l IH]; simpl; [reflexivity|].
  destruct (le x y); [reflexivity|].
  rewrite IH. apply perm_swap.
Qed.

Lemma sort_by_perm l : Permutation (sort_by le l) l.
Proof.
  induction l as [|x l IH]; simpl; [reflexivity|].
  rewrite insert_by_perm. constructor. exact IH.
Qed.

Hypothesis le_total : forall a b, le a b = true \/ le b a = true.

Lemma insert_by_sorted x l :
  Sorted (fun a b => le a b = true) l ->
  Sorted (fun a b => le a b = true) (insert_by le x l).
Proof.
  induction 1 as [|y l Hs IH Hhd]; simpl; [repeat constructor|].
  destruct (le x y) eqn:E.
  - constructor; [constructor; assumption | constructor; assumption].
  - constructor; [exact IH|].
    assert (Hyx : le y x = true) by (destruct (le_total x y); congruence).
    destruct Hhd as [|z l Hz]; simpl; [constructor; assumption|].
    destruct (le x z); constructor; assumption.
Qed.

Lemma sort_by_sorted l : Sorted (fun a b => le a b = true) (sort_by le l).
Proof.
  induction l as [|x l IH]; simpl; [constructor|].
  apply insert_by_sorted. exact IH.
Qed.

End Sorting.






Lemma Rleb_true x y : Rleb x y = true <-> (x <= y)%R.
Proof. unfold Rleb. destruct (Rle_dec x y); split; congruence. Qed.









Lemma Sorted_impl {X} (P Q : X -> X -> Prop) l :
  (forall a b, P a b -> Q a b) -> Sorted P l -> Sorted Q l.
Proof.
  intros HPQ. induction 1 as [|x l Hs IH Hhd]; constructor; auto.
  destruct Hhd; constructor; auto.
Qed.





(* ================================================================== *)
(** * More on the collector *)

Lemma filter_idem {X} (f : X -> bool) (l : list X) : filter f (filter f l) = filter f l.
Proof.
  induction l as [|x l IH]; simpl; [reflexivity|].
  destruct (f x) eqn:E; simpl; rewrite ?E, IH; reflexivity.
Qed.

Lemma filter_filter {X} (f g : X -> bool) (l : list X) :
  filter g (filter f l) = filter (fun x => f x && g x) l.
Proof.
  induction l as [|x l IH]; simpl; [reflexivity|].
  destruct (f x); simpl; [destruct (g x)|]; rewrite IH; reflexivity.
Qed.

Lemma scrape_table_Ok {num} `{Arith num} (site : web num) url stat_type table i :
  site url ("all_" ++ stat_type)%string = Ok table ->
  index_of "Player" (columns table) = Some i ->
  scrape_table site url stat_type
  = Ok {| columns := columns table; rows := filter (data_row i) (rows table) |}.
Proof.
  intros Hsite Hi. unfold scrape_table, getitem, get_loc. rewrite Hsite. cbn [bind].
  rewrite Hi. cbn [bind]. unfold dropna_all, loc_mask, series_ne. cbn [columns rows].
  rewrite map_map, select_filter, filter_filter. reflexivity.
Qed.

(** X1: [scrape_table] keeps the labels and, in their order, exactly the rows
    of the scraped table that are neither a repeated header nor empty; a
    table without a [Player] column raises [KeyError]. *)
Theorem scrape_table_keeps_the_data_rows :
  forall (num : Type) (A : Arith num) (site : web num) (url stat_type : string)
         (table : DataFrame num),
    site url ("all_" ++ stat_type)%string = Ok table ->
    (forall i, index_of "Player" (columns table) = Some i ->
       exists df,
         scrape_table site url stat_type = Ok df /\
         columns df = columns table /\
         rows df = filter (data_row i) (rows table) /\
         forall r, In r (rows df) <->
                   In r (rows table) /\ cell_at i r <> Str "Player"
                   /\ ~ Forall (fun c => c = NaN) r) /\
    (~ In "Player"%string (columns table) ->
     scrape_table site url stat_type = Err (KeyError "Player")).
Proof.
  intros num A site url stat_type table Hsite. split.
  - intros i Hi. eexists. split; [apply scrape_table_Ok; eassumption|].
    cbn [columns rows]. split; [reflexivity|]. split; [reflexivity|].
    intros r. rewrite filter_In. unfold data_row.
    rewrite andb_true_iff, !negb_true_iff, <- !not_true_iff_false.
    rewrite cell_eqb_Str, forallb_isna_Forall. reflexivity.
  - intros Hno. unfold scrape_table, getitem, get_loc. rewrite Hsite. cbn [bind].
    destruct (index_of "Player" (columns table)) as [i|] eqn:Hi; [|reflexivity].
    apply index_of_Some in Hi. destruct Hi as [_ Hi]. apply nth_error_In in Hi. contradiction.
Qed.

Lemma scrape_table_keeps_the_data_rows_witness :
  Sample.site "u"%string ("all_" ++ "passing")%string = Ok Sample.page /\
  (forall i, index_of "Player" (columns Sample.page) = Some i ->
     exists df,
       scrape_table Sample.site "u" "passing" = Ok df /\
       columns df = columns Sample.page /\
       rows df = filter (data_row i) (rows Sample.page) /\
       forall r, In r (rows df) <->
                 In r (rows Sample.page) /\ cell_at i r <> Str "Player"
                 /\ ~ Forall (fun c => c = NaN) r) /\
  (~ In "Player"%string (columns Sample.page) ->
   scrape_table Sample.site "u" "passing" = Err (KeyError "Player")).
Proof.
  split; [reflexivity|].
  exact (scrape_table_keeps_the_data_rows float float64 Sample.site "u" "passing"
           Sample.page eq_refl).
Defined.

(** X2: scraping a table that [scrape_table] has already cleaned gives the
    same table back. *)
Theorem scrape_table_idempotent :
  forall (num : Type) (A : Arith num) (site site' : web num)
         (url stat_type url' stat_type' : string) (df : DataFrame num),
    scrape_table site url stat_type = Ok df ->
    site' url' ("all_" ++ stat_type')%string = Ok df ->
    scrape_table site' url' stat_type' = Ok df.
Proof.
  intros num A site site' url stat_type url' stat_type' df Hdf Hsite'.
  unfold scrape_table in Hdf. inv_bind Hdf as table Hsite. inv_bind Hdf as player Hp.
  unfold getitem in Hp. inv_bind Hp as i Hi. apply get_loc_index in Hi.
  pose proof (scrape_table_Ok site url stat_type table i Hsite Hi) as E.
  unfold scrape_table, getitem in E. rewrite Hsite in E. cbn [bind] in E.
  apply get_loc_index in Hi. rewrite Hi in E. cbn [bind] in E.
  injection Hp as <-. rewrite E in Hdf. injection Hdf as <-.
  apply get_loc_index in Hi.
  rewrite (scrape_table_Ok site' url' stat_type' _ i Hsite' Hi). cbn [columns rows].
  rewrite filter_idem. reflexivity.
Qed.

Lemma scrape_table_idempotent_witness :
  exists df,
    scrape_table Sample.site "u" "passing" = Ok df /\
    scrape_table (fun _ _ => Ok df) "v" "rushing" = Ok df.
Proof.
  eexists. split; [vm_compute; reflexivity|].
  apply (scrape_table_idempotent float float64 Sample.site _ "u"%string "passing"%string);
    vm_compute; reflexivity.
Defined.

Lemma collect_step {num} `{Arith num} (site : web num) y ys d t :
  scrape_nfl_data site y = Ok t ->
  collect site (y :: ys) d = collect site ys (season_files y t ++ d).
Proof.
  intros E. simpl. rewrite E. destruct t as [[[p r] c] q]. reflexivity.
Qed.

Lemma collect_all_ok {num} `{Arith num} (site : web num) ys ts :
  Forall2 (fun y t => scrape_nfl_data site y = Ok t) ys ts ->
  forall d,
    collect site ys d
    = (flat_map (fun yt => season_files (fst yt) (snd yt)) (rev (combine ys ts)) ++ d, Ok tt).
Proof.
  induction 1 as [|y t ys ts Hy _ IH]; intros d; [reflexivity|].
  rewrite (collect_step site y ys d t Hy), IH. simpl.
  rewrite flat_map_app. simpl. rewrite app_nil_r, <- app_assoc. reflexivity.
Qed.

Lemma collect_fails {num} `{Arith num} (site : web num) ys ts y rest e :
  Forall2 (fun y t => scrape_nfl_data site y = Ok t) ys ts ->
  scrape_nfl_data site y = Err e ->
  forall d,
    collect site (ys ++ y :: rest) d
    = (flat_map (fun yt => season_files (fst yt) (snd yt)) (rev (combine ys ts)) ++ d, Err e).
Proof.
  intros Hys Hy. induction Hys as [|y0 t ys ts Hy0 _ IH]; intros d.
  - simpl. rewrite Hy. reflexivity.
  - change ((y0 :: ys) ++ y :: rest) with (y0 :: (ys ++ y :: rest)).
    rewrite (collect_step site y0 _ d t Hy0), IH. simpl.
    rewrite flat_map_app. simpl. rewrite app_nil_r, <- app_assoc. reflexivity.
Qed.

Lemma collect_Ok_inv {num} `{Arith num} (site : web num) ys :
  forall d, snd (collect site ys d) = Ok tt ->
  exists ts, Forall2 (fun y t => scrape_nfl_data site y = Ok t) ys ts.
Proof.
  induction ys as [|y ys IH]; intros d E; [exists []; constructor|].
  simpl in E. destruct (scrape_nfl_data site y) as [t|e] eqn:Hy; [|discriminate].
  destruct t as [[[p r] c] q]. apply IH in E. destruct E as (ts & Hts).
  eexists (_ :: ts). constructor; eauto.
Qed.

Lemma In_season_files {num} y (t : DataFrame num * DataFrame num * DataFrame num * DataFrame num)
    y' c :
  (exists df, In (y', c, df) (season_files y t)) <-> y' = y /\ In c categories.
Proof.
  destruct t as [[[p r] rc] q]. unfold season_files, categories. simpl. split.
  - intros (df & [E|[E|[E|[E|[]]]]]); injection E as <- <- _; tauto.
  - intros [-> [<-|[<-|[<-|[<-|[]]]]]]; eexists; eauto 6.
Qed.

Lemma In_written {num} ys (ts : list (DataFrame num * DataFrame num * DataFrame num * DataFrame num))
    y c :
  length ys = length ts ->
  (exists df, In (y, c, df)
                 (flat_map (fun yt => season_files (fst yt) (snd yt)) (rev (combine ys ts))))
  <-> In y ys /\ In c categories.
Proof.
  intros Hlen. split.
  - intros (df & Hin). apply in_flat_map in Hin. destruct Hin as ([y0 t] & Hyt & Hin).
    apply in_rev in Hyt. cbn [fst snd] in Hin.
    destruct (proj1 (In_season_files y0 t y c) (ex_intro _ df Hin)) as [-> Hc].
    split; [eapply in_combine_l; eauto | assumption].
  - intros [Hy Hc]. revert ts Hlen. induction ys as [|y0 ys IH]; intros [|t ts] Hlen;
      simpl in *; try discriminate; [destruct Hy|].
    destruct Hy as [->|Hy].
    + destruct (proj2 (In_season_files y t y c) (conj eq_refl Hc)) as (df & Hdf).
      exists df. rewrite flat_map_app. apply in_or_app. right. simpl.
      rewrite app_nil_r. exact Hdf.
    + destruct (IH Hy ts) as (df & Hdf); [lia|].
      exists df. rewrite flat_map_app. apply in_or_app. left. exact Hdf.
Qed.

Lemma read_csv_In {num} (d : disk num) y c df :
  read_csv d y c = Ok df -> In (y, c, df) d.
Proof.
  induction d as [|[[y0 c0] df0] d IH]; simpl; [discriminate|].
  destruct (Z.eqb y0 y && String.eqb c0 c) eqn:E.
  - intros [= <-]. apply andb_prop in E. destruct E as [Ey Ec].
    apply Z.eqb_eq in Ey. apply String.eqb_eq in Ec. subst. left. reflexivity.
  - intros Hr. right. auto.
Qed.

Lemma In_read_csv {num} (d : disk num) y c df :
  In (y, c, df) d -> exists df', read_csv d y c = Ok df'.
Proof.
  induction d as [|[[y0 c0] df0] d IH]; simpl; [tauto|].
  intros Hin. destruct (Z.eqb y0 y && String.eqb c0 c) eqn:E; [eauto|].
  destruct Hin as [Hin|Hin]; [|auto].
  injection Hin as -> -> _. rewrite Z.eqb_refl, String.eqb_refl in E. discriminate.
Qed.

Lemma read_csv_found {num} (d : disk num) y c :
  (exists df, read_csv d y c = Ok df) <-> (exists df, In (y, c, df) d).
Proof.
  split; intros (df & Hdf); [exists df; apply read_csv_In; assumption|].
  eapply In_read_csv; eauto.
Qed.

Lemma read_csv_missing {num} (d : disk num) y c :
  (forall df, ~ In (y, c, df) d) -> read_csv d y c = Err FileNotFoundError.
Proof.
  induction d as [|[[y0 c0] df0] d IH]; simpl; intros Hno; [reflexivity|].
  destruct (Z.eqb y0 y && String.eqb c0 c) eqn:E.
  - apply andb_prop in E. destruct E as [Ey Ec].
    apply Z.eqb_eq in Ey. apply String.eqb_eq in Ec. subst.
    exfalso. apply (Hno df0). left. reflexivity.
  - apply IH. intros df Hin. apply (Hno df). right. assumption.
Qed.

Lemma collected_seasons {num} `{Arith num} (site : web num) :
  snd (collector site) = Ok tt ->
  forall year, In year seasons -> exists t, scrape_nfl_data site year = Ok t.
Proof.
  intros Hok year Hy. unfold collector in Hok.
  destruct (collect_Ok_inv site seasons [] Hok) as (ts & Hts).
  clear Hok. induction Hts as [|y t ys ts Hyt _ IH]; [destruct Hy|].
  destruct Hy as [<-|Hy]; eauto.
Qed.

Lemma collected_tables {num} `{Arith num} (site : web num) year
    (passing rushing receiving defense : DataFrame num) :
  snd (collector site) = Ok tt ->
  In year seasons ->
  scrape_nfl_data site year = Ok (passing, rushing, receiving, defense) ->
  read_csv (fst (collector site)) year "passing" = Ok passing /\
  read_csv (fst (collector site)) year "rushing" = Ok rushing /\
  read_csv (fst (collector site)) year "receiving" = Ok receiving /\
  read_csv (fst (collector site)) year "defense" = Ok defense.
Proof.
  intros Hok Hy Hscrape. unfold collector in *.
  destruct (collect_Ok_inv site seasons [] Hok) as (ts & Hts).
  rewrite (collect_all_ok site seasons ts Hts []) in *. cbn [fst]. rewrite app_nil_r.
  unfold seasons, range, current_year in Hts, Hy. simpl in Hts, Hy.
  repeat match goal with
         | H : Forall2 _ (_ :: _) _ |- _ => inversion H; subst; clear H
         | H : Forall2 _ [] _ |- _ => inversion H; subst; clear H
         end.
  unfold seasons, range, current_year. simpl.
  repeat match goal with H : _ \/ _ |- _ => destruct H end;
    try contradiction; subst year;
    match goal with
    | H : scrape_nfl_data site ?y = Ok ?t |- _ =>
        rewrite Hscrape in H; injection H as <-
    end;
    repeat match goal with t : (_ * _)%type |- _ => destruct t end;
    repeat split; reflexivity.
Qed.

(** X3: when the collection succeeds it has written, into a data directory
    that was empty, twenty files, one for each of the seasons 2019..2023 and
    each of the four categories, and no other; the file of a season and
    category holds the table [scrape_nfl_data] returned for it. *)
Theorem collector_writes_twenty_files :
  forall (num : Type) (A : Arith num) (site : web num),
    snd (collector site) = Ok tt ->
    length (fst (collector site)) = 20 /\
    (forall year category,
       (exists df, read_csv (fst (collector site)) year category = Ok df)
       <-> In year seasons /\ In category categories) /\
    (forall year category,
       ~ (In year seasons /\ In category categories) ->
       read_csv (fst (collector site)) year category = Err FileNotFoundError) /\
    (forall year passing rushing receiving defense,
       In year seasons ->
       scrape_nfl_data site year = Ok (passing, rushing, receiving, defense) ->
       read_csv (fst (collector site)) year "passing" = Ok passing /\
       read_csv (fst (collector site)) year "rushing" = Ok rushing /\
       read_csv (fst (collector site)) year "receiving" = Ok receiving /\
       read_csv (fst (collector site)) year "defense" = Ok defense).
Proof.
  intros num A site Hok.
  split; [|split; [|split]]; [| | |intros; apply collected_tables; assumption].
  all: unfold collector in *;
    destruct (collect_Ok_inv site seasons [] Hok) as (ts & Hts);
    rewrite (collect_all_ok site seasons ts Hts []) in *; cbn [fst]; rewrite app_nil_r;
    pose proof (Forall2_length Hts) as Hlen.
  - unfold seasons, range, current_year in Hts. simpl in Hts.
    repeat match goal with
           | H : Forall2 _ (_ :: _) _ |- _ => inversion H; subst; clear H
           | H : Forall2 _ [] _ |- _ => inversion H; subst; clear H
           end.
    repeat match goal with t : (_ * _)%type |- _ => destruct t end.
    reflexivity.
  - intros year category. rewrite read_csv_found. apply In_written. assumption.
  - intros year category Hno. apply read_csv_missing. intros df Hin.
    apply Hno. apply (In_written seasons ts year category Hlen). eauto.
Qed.

Lemma collector_writes_twenty_files_witness :
  snd (collector Sample.site) = Ok tt /\
  length (fst (collector Sample.site)) = 20 /\
  (forall year category,
     (exists df, read_csv (fst (collector Sample.site)) year category = Ok df)
     <-> In year seasons /\ In category categories).
Proof.
  assert (Hok : snd (collector Sample.site) = Ok tt) by (vm_compute; reflexivity).
  split; [exact Hok|].
  destruct (collector_writes_twenty_files float float64 Sample.site Hok) as (Hn & Hf & _).
  split; assumption.
Defined.

(** X4: the collection stops at the first season one of whose four pages
    fails to scrape, with that error; the files of the seasons before it are
    written, and no file of the failing season or of a later one. *)
Theorem collector_stops_at_first_failure :
  forall (num : Type) (A : Arith num) (site : web num)
         (before after : list Z) (failing : Z) (e : error),
    seasons = before ++ failing :: after ->
    (forall year, In year before -> exists t, scrape_nfl_data site year = Ok t) ->
    scrape_nfl_data site failing = Err e ->
    snd (collector site) = Err e /\
    (forall year category,
       (exists df, read_csv (fst (collector site)) year category = Ok df)
       <-> In year before /\ In category categories).
Proof.
  intros num A site before after failing e Hsplit Hbefore Hfail.
  destruct (mapM_total _ _ Hbefore) as (ts & Hts). apply mapM_Forall2 in Hts.
  unfold collector. rewrite Hsplit.
  rewrite (collect_fails site before ts failing after e Hts Hfail []). cbn [fst snd].
  split; [reflexivity|]. intros year category. rewrite app_nil_r, read_csv_found.
  apply In_written. eapply Forall2_length; eauto.
Qed.

Lemma collector_stops_at_first_failure_witness :
  snd (collector Sample.flaky_site) = Err ValueError /\
  (forall year category,
     (exists df, read_csv (fst (collector Sample.flaky_site)) year category = Ok df)
     <-> In year [2019; 2020]%Z /\ In category categories).
Proof.
  apply (collector_stops_at_first_failure float float64 Sample.flaky_site
           [2019; 2020]%Z [2022; 2023]%Z 2021%Z ValueError).
  - reflexivity.
  - intros year [<-|[<-|[]]]; eexists; vm_compute; reflexivity.
  - vm_compute. reflexivity.
Defined.

(* ================================================================== *)
(** * More on the joins *)

(** X5: an outer join loses no row and invents none: every row of the left
    frame begins a row of the result, the value cells of every row of the
    right frame end one, and every row of the result begins with a left row
    or ends with the value cells of a right row. *)
Theorem merge_keeps_every_row :
  forall (num : Type) (A : Arith num) (left right m : DataFrame num)
         (on : list string) (suffixes : string * string),
    merge left right on suffixes = Ok m ->
    let mask := value_mask on (columns right) in
    (forall l, In l (rows left) -> exists R, In (l ++ R) (rows m)) /\
    (forall r, In r (rows right) -> exists L, In (L ++ select mask r) (rows m)) /\
    (forall x, In x (rows m) ->
       (exists l R, In l (rows left) /\ x = l ++ R) \/
       (exists L r, In r (rows right) /\ x = L ++ select mask r)).
Proof.
  intros num A left right m on suffixes Hm mask.
  destruct (merge_Ok _ _ _ _ _ Hm) as (lk & rk & Hlk & Hrk & _ & Hrows).
  cbv zeta in Hrows. fold mask in Hrows. split; [|split].
  - intros l Hl. rewrite Hrows.
    assert (Hne : exists R, In (l ++ R)
                    (from_left lk rk mask (length (select mask (columns right)))
                       (rows right) l)).
    { unfold from_left. destruct (filter (same_key lk rk l) (rows right)) as [|r0 ms].
      - eexists. left. reflexivity.
      - exists (select mask r0). left. reflexivity. }
    destruct Hne as (R & HR). exists R. apply in_or_app. left.
    apply in_flat_map. eauto.
  - intros r Hr. rewrite Hrows.
    destruct (existsb (fun l => same_key lk rk l r) (rows left)) eqn:E.
    + apply existsb_exists in E. destruct E as (l & Hl & Hs).
      exists l. apply in_or_app. left. apply in_flat_map. exists l. split; [assumption|].
      unfold from_left.
      assert (Hin : In r (filter (same_key lk rk l) (rows right)))
        by (apply filter_In; auto).
      destruct (filter (same_key lk rk l) (rows right)) as [|r0 ms]; [destruct Hin|].
      apply in_map_iff. exists r. auto.
    + eexists. apply in_or_app. right. apply in_flat_map. exists r. split; [assumption|].
      unfold from_right. rewrite E. left. reflexivity.
  - intros x Hx.
    destruct (merge_rows _ _ _ _ _ _ _ _ Hm Hlk Hrk Hx)
      as [(l & Hl & -> & _)|[(l & r & Hl & Hr & _ & ->)|(r & Hr & -> & _)]].
    + left. eauto.
    + left. eauto.
    + right. eauto.
Qed.

Lemma merge_keeps_every_row_witness :
  exists m,
    merge Sample.passing Sample.rushing join_keys ("_pass", "_rush")%string = Ok m /\
    (forall l, In l (rows Sample.passing) -> exists R, In (l ++ R) (rows m)) /\
    (forall r, In r (rows Sample.rushing) ->
       exists L, In (L ++ select (value_mask join_keys (columns Sample.rushing)) r) (rows m)).
Proof.
  eexists. split; [vm_compute; reflexivity|].
  destruct (merge_keeps_every_row float float64 Sample.passing Sample.rushing _
              join_keys ("_pass", "_rush")%string eq_refl) as (Hl & Hr & _).
  split; assumption.
Defined.

(** A scored label that both frames of the second join carry is in neither
    form a label of the result. *)
Lemma merge_renames_shared_label {num} `{Arith num} (left right m : DataFrame num)
    on suffixes c :
  merge left right on suffixes = Ok m ->
  In c (columns left) -> In c (columns right) -> ~ In c on ->
  (forall d, (d ++ fst suffixes)%string <> c) ->
  (forall d, (d ++ snd suffixes)%string <> c) ->
  ~ In c (columns m).
Proof.
  intros Hm Hl Hr Hon H1 H2 Hin.
  destruct (merge_Ok _ _ _ _ _ Hm) as (lk & rk & _ & _ & Hcols & _).
  cbv zeta in Hcols. rewrite Hcols in Hin. apply in_app_or in Hin.
  destruct Hin as [Hin|Hin]; apply in_map_iff in Hin; destruct Hin as (d & E & Hd);
    unfold suffixed in E.
  - destruct (mem d _) eqn:Hmem; [exact (H1 d E)|]. subst d.
    apply not_true_iff_false in Hmem. apply Hmem. apply mem_In.
    apply value_columns. auto.
  - destruct (mem d (columns left)) eqn:Hmem; [exact (H2 d E)|]. subst d.
    apply not_true_iff_false in Hmem. apply Hmem. apply mem_In. assumption.
Qed.

Lemma weighted_label {num} `{Arith num} (df : DataFrame num) l w t :
  weighted df l w = Ok t ->
  exists s, getitem df l = Ok s /\ forallb not_text s = true /\
            length t = nrows df /\ forallb not_text t = true.
Proof.
  unfold weighted. intros Ht. inv_bind Ht as s Hs. exists s. split; [assumption|].
  pose proof (getitem_length _ _ _ Hs) as Hlen. rewrite <- Hlen, (mapM_length _ _ _ Ht).
  apply mapM_Forall2 in Ht. clear Hs Hlen.
  induction Ht as [|c0 t0 s t Hc0 _ (IH1 & _ & IH2)]; [auto|].
  simpl. rewrite IH1, IH2. destruct c0; simpl in Hc0; try discriminate;
    injection Hc0 as <-; auto.
Qed.

Lemma weighted_sum_labels {num} `{Arith num} (df : DataFrame num) terms :
  forall acc pts, weighted_sum df acc terms = Ok pts ->
  forall l, In l (map fst terms) ->
    exists s, getitem df l = Ok s /\ forallb not_text s = true.
Proof.
  induction terms as [|[label w0] rest IH]; intros acc pts E l Hin; [destruct Hin|].
  simpl in E. inv_bind E as t Ht. inv_bind E as acc' Hadd.
  destruct Hin as [<-|Hin]; [|eapply IH; eauto].
  destruct (weighted_label _ _ _ _ Ht) as (s & Hs & Hts & _). eauto.
Qed.

Lemma fantasy_points_labels {num} `{Arith num} (df : DataFrame num) pts :
  fantasy_points df = Ok pts ->
  forall l, In l scored_labels ->
    exists s, getitem df l = Ok s /\ forallb not_text s = true.
Proof.
  unfold fantasy_points, scored_labels, scoring. cbv beta iota. intros E l Hl.
  inv_bind E as t Ht. cbn [map fst] in Hl. destruct Hl as [<-|Hl].
  - destruct (weighted_label _ _ _ _ Ht) as (s & Hs & Hts & _). eauto.
  - eapply weighted_sum_labels; [exact E|exact Hl].
Qed.

Lemma weighted_total {num} `{Arith num} (df : DataFrame num) l w s :
  getitem df l = Ok s -> forallb not_text s = true ->
  exists t, weighted df l w = Ok t.
Proof.
  intros Hs Hts. unfold weighted. rewrite Hs. cbn [bind]. apply mapM_total.
  intros c Hc. rewrite forallb_forall in Hts. specialize (Hts c Hc).
  destruct c; simpl in *; try discriminate; eauto.
Qed.

Lemma series_add_total {num} `{Arith num} (a b : list (cell num)) :
  forallb not_text a = true -> forallb not_text b = true -> length a = length b ->
  exists c, series_add a b = Ok c /\ forallb not_text c = true /\ length c = length a.
Proof.
  revert b; induction a as [|x a IH]; intros [|y b] Ha Hb Hlen; simpl in *;
    try discriminate; [exists []; auto|].
  apply andb_prop in Ha, Hb. destruct Ha as [Hx Ha], Hb as [Hy Hb].
  destruct (IH b Ha Hb) as (c & Hc & Htc & Hlc); [lia|].
  unfold series_add in *. simpl. 
  assert (Hxy : exists z, cell_add x y = Ok z /\ not_text z = true)
    by (destruct x, y; simpl in *; try discriminate; eauto).
  destruct Hxy as (z & Hz & Htz). rewrite Hz. cbn [bind]. rewrite Hc. cbn [bind].
  exists (z :: c). simpl. rewrite Htz, Htc, Hlc. auto.
Qed.

Lemma weighted_sum_total {num} `{Arith num} (df : DataFrame num) terms :
  forall acc,
    forallb not_text acc = true -> length acc = nrows df ->
    (forall l, In l (map fst terms) ->
       exists s, getitem df l = Ok s /\ forallb not_text s = true) ->
    exists pts, weighted_sum df acc terms = Ok pts.
Proof.
  induction terms as [|[label w] rest IH]; intros acc Hacc Hlen Hall; [eexists; reflexivity|].
  destruct (Hall label) as (s & Hs & Hts); [left; reflexivity|].
  destruct (weighted_total df label w s Hs Hts) as (t & Ht).
  destruct (weighted_label _ _ _ _ Ht) as (_ & _ & _ & Hlt & Htt).
  destruct (series_add_total acc t Hacc Htt) as (acc' & Hadd & Hta & Hla); [congruence|].
  simpl. rewrite Ht. cbn [bind]. rewrite Hadd. cbn [bind].
  apply IH; [assumption|congruence|]. intros l Hl. apply Hall. right. assumption.
Qed.

(** X6: the scoring succeeds exactly when the frame has the eight labels it
    reads and none of these columns holds text. *)
Theorem fantasy_points_succeeds_iff :
  forall (num : Type) (A : Arith num) (df : DataFrame num),
    (exists pts, fantasy_points df = Ok pts) <->
    (forall l, In l scored_labels ->
       exists s, getitem df l = Ok s /\ forallb not_text s = true).
Proof.
  intros num A df. split.
  - intros (pts & E). apply (fantasy_points_labels df pts E).
  - intros Hall. unfold fantasy_points, scoring. cbv beta iota.
    destruct (Hall "Yds_pass"%string) as (s & Hs & Hts); [left; reflexivity|].
    destruct (weighted_total df "Yds_pass" (dec 4 2) s Hs Hts) as (t & Ht).
    destruct (weighted_label _ _ _ _ Ht) as (_ & _ & _ & Hlt & Htt).
    rewrite Ht. cbn [bind]. apply weighted_sum_total; [assumption|assumption|].
    intros l Hl. apply Hall. right. exact Hl.
Qed.

Lemma fantasy_points_succeeds_iff_witness :
  exists players,
    merge_season Sample.passing Sample.rushing Sample.receiving = Ok players /\
    ((exists pts, fantasy_points players = Ok pts) <->
     (forall l, In l scored_labels ->
        exists s, getitem players l = Ok s /\ forallb not_text s = true)).
Proof.
  eexists. split; [vm_compute; reflexivity|].
  apply (fantasy_points_succeeds_iff float float64).
Defined.

Lemma suffix_not_scored (label d : string) :
  In label ["Yds_pass"; "TD_pass"; "Int"; "Yds_rush"; "TD_rush"; "Rec"; "Yds"; "TD"]%string ->
  (d ++ "_x")%string <> label /\ (d ++ "_y")%string <> label.
Proof.
  intros Hl. simpl in Hl.
  repeat (destruct Hl as [<-|Hl]; [
    split; destruct d as [|a1 [|a2 [|a3 [|a4 [|a5 [|a6 [|a7 [|a8 [|a9 d]]]]]]]]];
      simpl; discriminate |]).
  destruct Hl.
Qed.

(** X7: when a label the scoring reads is carried both by the first join and
    by the receiving table, the season fails to load; and whenever the
    second join itself succeeds, it has renamed both columns, with [_x] and
    with [_y], no column of its result keeps the label, and the scoring of
    the zero-filled result fails: the collision is an error, not a silent
    choice of one column. *)
Theorem scored_label_collision_fails :
  forall (num : Type) (A : Arith num) (fs : raw_data num) (year : Z)
         (passing rushing receiving first : DataFrame num) (label : string),
    fs year "passing"%string = Ok passing ->
    fs year "rushing"%string = Ok rushing ->
    fs year "receiving"%string = Ok receiving ->
    merge passing rushing join_keys ("_pass", "_rush")%string = Ok first ->
    In label scored_labels ->
    In label (columns first) -> In label (columns receiving) ->
    (exists e, load_and_preprocess_data fs year = Err e) /\
    (forall both,
       merge first receiving join_keys default_suffixes = Ok both ->
       In (label ++ "_x")%string (columns both) /\
       In (label ++ "_y")%string (columns both) /\
       ~ In label (columns both) /\
       exists e, fantasy_points (fillna both) = Err e).
Proof.
  intros num A fs year passing rushing receiving first label Hp Hr Hc H1 Hl Hf Hrc.
  assert (Hlabel : In label ["Yds_pass"; "TD_pass"; "Int"; "Yds_rush"; "TD_rush";
                             "Rec"; "Yds"; "TD"]%string) by exact Hl.
  assert (Hkey : ~ In label join_keys).
  { intros Hk. simpl in Hk, Hlabel.
    repeat (destruct Hlabel as [<-|Hlabel]; [intuition discriminate|]). destruct Hlabel. }
  assert (Hboth : forall both,
            merge first receiving join_keys default_suffixes = Ok both ->
            In (label ++ "_x")%string (columns both) /\
            In (label ++ "_y")%string (columns both) /\
            ~ In label (columns both) /\
            exists e, fantasy_points (fillna both) = Err e).
  { intros both H2.
    destruct (merge_disambiguates _ _ _ _ _ H2) as (Hren & _).
    destruct (Hren label Hf Hrc Hkey) as [Hx Hy].
    assert (Hno : ~ In label (columns both)).
    { apply (merge_renames_shared_label first receiving both join_keys
               default_suffixes label H2 Hf Hrc Hkey);
        intros d; apply (suffix_not_scored label d Hlabel). }
    split; [exact Hx|]. split; [exact Hy|]. split; [exact Hno|].
    destruct (fantasy_points (fillna both)) as [pts|e] eqn:Hpts; [|eauto].
    exfalso. destruct (fantasy_points_labels _ _ Hpts label Hl) as (s & Hs & _).
    unfold getitem in Hs. inv_bind Hs as i Hi. apply get_loc_index in Hi.
    apply index_of_Some in Hi. destruct Hi as [_ Hi]. apply nth_error_In in Hi.
    cbn [fillna columns] in Hi. exact (Hno Hi). }
  split; [|exact Hboth].
  unfold load_and_preprocess_data. rewrite Hp, Hr, Hc. cbn [bind].
  unfold merge_season. rewrite H1. cbn [bind].
  destruct (merge first receiving join_keys default_suffixes) as [both|e] eqn:H2;
    cbn [bind]; [|eauto].
  destruct (Hboth both eq_refl) as (_ & _ & _ & e & He). rewrite He. cbn [bind]. eauto.
Qed.

Lemma scored_label_collision_fails_witness :
  exists first both,
    merge Sample.passing Sample.rushing join_keys ("_pass", "_rush")%string = Ok first /\
    merge first Sample.receiving_int join_keys default_suffixes = Ok both /\
    (exists e, load_and_preprocess_data Sample.colliding_files 2023 = Err e) /\
    In "Int_x"%string (columns both) /\
    In "Int_y"%string (columns both) /\
    ~ In "Int"%string (columns both) /\
    exists e, fantasy_points (fillna both) = Err e.
Proof.
  eexists. eexists. split; [vm_compute; reflexivity|]. split; [vm_compute; reflexivity|].
  assert (Hl : In "Int"%string (scored_labels (num:=float)))
    by (do 2 right; left; reflexivity).
  destruct (scored_label_collision_fails float float64 Sample.colliding_files 2023%Z
              Sample.passing Sample.rushing Sample.receiving_int _ "Int"%string
              eq_refl eq_refl eq_refl eq_refl Hl)
    as [He Hboth]; [vm_compute; tauto | vm_compute; tauto |].
  split; [exact He|]. exact (Hboth _ eq_refl).
Defined.

(* ================================================================== *)
(** * More on the season records *)

Lemma getitem_setitem {num} `{Arith num} (df : DataFrame num) label v :
  wf df -> length v = nrows df -> getitem (setitem df label v) label = Ok v.
Proof.
  intros Hwf Hlen. unfold getitem, get_loc, setitem, nrows in *.
  destruct (index_of label (columns df)) as [i|] eqn:Hi; cbn [columns rows].
  - rewrite Hi. cbn [bind]. f_equal. rewrite map_map.
    apply index_of_Some in Hi. destruct Hi as [Hi _].
    assert (Hr : forall r, In r (rows df) -> i < length r)
      by (intros r Hr; rewrite (wf_row _ _ Hwf Hr); assumption).
    clear Hwf. revert v Hlen. induction (rows df) as [|r rs IH]; intros [|c v] Hlen;
      simpl in *; try discriminate; [reflexivity|].
    unfold cell_at at 1. rewrite nth_set_nth_same by (apply Hr; auto).
    f_equal. apply IH; [intros; apply Hr; auto | lia].
  - rewrite (index_of_app_new _ _ Hi). cbn [bind]. f_equal. rewrite map_map.
    assert (Hr : forall r, In r (rows df) -> length r = length (columns df))
      by (intros r Hr; apply wf_row; assumption).
    clear Hwf. revert v Hlen. induction (rows df) as [|r rs IH]; intros [|c v] Hlen;
      simpl in *; try discriminate; [reflexivity|].
    unfold cell_at at 1. rewrite app_nth2 by (rewrite Hr; auto).
    rewrite Hr, Nat.sub_diag by auto. simpl.
    f_equal. apply IH; [intros; apply Hr; auto | lia].
Qed.

Lemma In_set_nth {X} (l : list X) i v x : In x (set_nth i l v) -> x = v \/ In x l.
Proof.
  revert i; induction l as [|y l IH]; intros [|i]; simpl; try tauto.
  - intros [<-|Hin]; auto.
  - intros [<-|Hin]; auto. destruct (IH _ Hin); auto.
Qed.

Lemma In_setitem_row {num} `{Arith num} (df : DataFrame num) label v r' c :
  In r' (rows (setitem df label v)) -> In c r' ->
  In c v \/ exists r, In r (rows df) /\ In c r.
Proof.
  unfold setitem. destruct (index_of label (columns df)) as [i|]; cbn [rows];
    intros Hr Hc; apply in_map_iff in Hr; destruct Hr as ([r p] & <- & Hrp);
    cbn [fst snd] in Hc.
  - apply In_set_nth in Hc. destruct Hc as [->|Hc].
    + left. eapply in_combine_r; eauto.
    + right. exists r. split; [eapply in_combine_l; eauto | assumption].
  - apply in_app_or in Hc. destruct Hc as [Hc|[<-|[]]].
    + right. exists r. split; [eapply in_combine_l; eauto | assumption].
    + left. eapply in_combine_r; eauto.
Qed.

Lemma Forall2_Forall_r {X Y} (P : X -> Y -> Prop) (Q : Y -> Prop) l l' :
  Forall2 P l l' -> (forall a b, In a l -> P a b -> Q b) -> Forall Q l'.
Proof.
  induction 1 as [|a b l l' Hab _ IH]; intros HQ; constructor.
  - apply (HQ a b); [left; reflexivity | assumption].
  - apply IH. intros a' b' Ha'. apply HQ. right. assumption.
Qed.

Lemma load_and_preprocess_data_wf {num} `{Arith num} (fs : raw_data num) year players :
  (forall category t, fs year category = Ok t -> wf t) ->
  load_and_preprocess_data fs year = Ok players -> wf players.
Proof.
  intros Hwf Hload. unfold load_and_preprocess_data in Hload.
  inv_bind Hload as passing Hp. inv_bind Hload as rushing Hr.
  inv_bind Hload as receiving Hc. inv_bind Hload as merged Hm.
  inv_bind Hload as pts Hpts. injection Hload as <-.
  destruct (merge_season_wf _ _ _ _ (Hwf _ _ Hp) (Hwf _ _ Hr) (Hwf _ _ Hc) Hm) as [Wm _].
  apply fantasy_points_rows in Hpts.
  apply setitem_frame; [|assumption]. symmetry. eapply Forall2_length; eauto.
Qed.

(** X8: the record of a season, loaded from rectangular tables, is
    rectangular, has no missing cell, and carries a [FantasyPoints] column
    that holds a number in every row. *)
Theorem season_record_is_complete :
  forall (num : Type) (A : Arith num) (fs : raw_data num) (year : Z)
         (passing rushing receiving players : DataFrame num),
    fs year "passing"%string = Ok passing ->
    fs year "rushing"%string = Ok rushing ->
    fs year "receiving"%string = Ok receiving ->
    wf passing -> wf rushing -> wf receiving ->
    load_and_preprocess_data fs year = Ok players ->
    wf players /\
    (forall r c, In r (rows players) -> In c r -> c <> NaN) /\
    exists points,
      getitem players "FantasyPoints" = Ok points /\
      Forall (fun c => exists x, c = Num x) points.
Proof.
  intros num A fs year passing rushing receiving players Hp Hr Hc Wp Wr Wc Hload.
  unfold load_and_preprocess_data in Hload. rewrite Hp, Hr, Hc in Hload.
  cbn [bind] in Hload. inv_bind Hload as merged Hm. inv_bind Hload as pts Hpts.
  injection Hload as <-.
  destruct (merge_season_wf _ _ _ _ Wp Wr Wc Hm) as [Wm Hna].
  apply fantasy_points_rows in Hpts.
  assert (Hlen : length pts = nrows merged)
    by (symmetry; eapply Forall2_length; eauto).
  assert (Hnum : Forall (fun c => exists x, c = Num x) pts).
  { eapply Forall2_Forall_r; [exact Hpts|]. intros r p Hin (i & a & Hi & Ha & Hsum).
    destruct (row_score (columns merged) r i a p (wf_row _ _ Wm Hin)
                (fun c => Hna r c Hin) Hi Ha Hsum)
      as (x1 & x2 & x3 & x4 & x5 & x6 & x7 & x8 & _ & _ & _ & _ & _ & _ & _ & _ & ->).
    eauto. }
  destruct (setitem_frame merged "FantasyPoints" pts Hlen) as (_ & Hwf & _).
  split; [auto|]. split.
  - intros r c Hrin Hcin. destruct (In_setitem_row _ _ _ _ _ Hrin Hcin) as [Hv|(r0 & Hr0 & Hc0)].
    + rewrite Forall_forall in Hnum. destruct (Hnum c Hv) as (x & ->). discriminate.
    + eapply Hna; eauto.
  - exists pts. split; [apply getitem_setitem; assumption | assumption].
Qed.

Lemma season_record_is_complete_witness :
  exists players,
    load_and_preprocess_data Sample.files 2023 = Ok players /\
    wf players /\
    (forall r c, In r (rows players) -> In c r -> c <> NaN) /\
    exists points,
      getitem players "FantasyPoints" = Ok points /\
      Forall (fun c => exists x, c = Num x) points.
Proof.
  eexists. split; [vm_compute; reflexivity|].
  apply (season_record_is_complete float float64 Sample.files 2023%Z
           Sample.passing Sample.rushing Sample.receiving); reflexivity.
Defined.

(* ================================================================== *)
(** * One row per player and team *)

Lemma NoDup_map_equiv {X Y Z} (f : X -> Y) (g : X -> Z) (l : list X) :
  (forall x y, In x l -> In y l -> f x = f y -> g x = g y) ->
  NoDup (map g l) -> NoDup (map f l).
Proof.
  induction l as [|x l IH]; intros Hfg Hnd; simpl; [constructor|].
  simpl in Hnd. inversion Hnd as [|? ? Hx Hl]; subst. constructor.
  - intros Hin. apply Hx. apply in_map_iff in Hin. destruct Hin as (y & E & Hy).
    apply in_map_iff. exists y. split; [|assumption].
    apply Hfg; [right; assumption | left; reflexivity | assumption].
  - apply IH; [|assumption]. intros a b Ha Hb. apply Hfg; right; assumption.
Qed.

Lemma NoDup_map_filter {X Y} (f : X -> Y) (g : X -> bool) (l : list X) :
  NoDup (map f l) -> NoDup (map f (filter g l)).
Proof.
  induction l as [|x l IH]; simpl; intros Hnd; [constructor|].
  inversion Hnd as [|? ? Hx Hl]; subst. destruct (g x); simpl; [|auto].
  constructor; [|auto]. intros Hin. apply Hx. apply in_map_iff in Hin.
  destruct Hin as (y & E & Hy). apply filter_In in Hy. apply in_map_iff. exists y. tauto.
Qed.

Lemma flat_map_singletons {X Y} (F : X -> list Y) (g : X -> Y) (l : list X) :
  (forall x, In x l -> F x = [g x]) -> flat_map F l = map g l.
Proof.
  induction l as [|x l IH]; intros E; simpl; [reflexivity|].
  rewrite (E x) by (left; reflexivity). rewrite IH; [reflexivity|].
  intros y Hy. apply E. right. assumption.
Qed.

Lemma flat_map_optional {X Y} (c : X -> bool) (g : X -> Y) (l : list X) :
  flat_map (fun x => if c x then [] else [g x]) l = map g (filter (fun x => negb (c x)) l).
Proof.
  induction l as [|x l IH]; simpl; [reflexivity|].
  rewrite IH. destruct (c x); reflexivity.
Qed.

Lemma map_flat_map {X Y Z} (f : Y -> Z) (F : X -> list Y) (l : list X) :
  map f (flat_map F l) = flat_map (fun x => map f (F x)) l.
Proof.
  induction l as [|x l IH]; simpl; [reflexivity|]. rewrite map_app, IH. reflexivity.
Qed.

Lemma keyed_rows {num} `{Arith num} (df : DataFrame num) i j r :
  keyed df ->
  index_of "Player" (columns df) = Some i ->
  index_of "Tm" (columns df) = Some j ->
  In r (rows df) -> exists p t, key_of [i; j] r = [Str p; Str t].
Proof.
  unfold keyed, keyedb. intros Hk Hi Hj Hr. rewrite Hi, Hj in Hk.
  rewrite forallb_forall in Hk. specialize (Hk r Hr). apply andb_prop in Hk.
  destruct Hk as [Ha Hb]. unfold key_of. cbn [map].
  destruct (cell_at i r); try discriminate. destruct (cell_at j r); try discriminate.
  eauto.
Qed.

Lemma keyed_intro {num} `{Arith num} (df : DataFrame num) i j :
  index_of "Player" (columns df) = Some i ->
  index_of "Tm" (columns df) = Some j ->
  (forall r, In r (rows df) -> exists p t, key_of [i; j] r = [Str p; Str t]) ->
  keyed df.
Proof.
  intros Hi Hj Hall. unfold keyed, keyedb. rewrite Hi, Hj. apply forallb_forall.
  intros r Hr. destruct (Hall r Hr) as (p & t & E). unfold key_of in E. cbn [map] in E.
  injection E as -> ->. reflexivity.
Qed.

Lemma pairs_keys {num} `{Arith num} (df : DataFrame num) i j :
  index_of "Player" (columns df) = Some i ->
  index_of "Tm" (columns df) = Some j ->
  NoDup (pairs df) <-> NoDup (map (key_of [i; j]) (rows df)).
Proof.
  intros Hi Hj. unfold pairs, at_label. rewrite Hi, Hj. cbn [option_map].
  split; apply NoDup_map_equiv; intros x y _ _; unfold key_of; cbn [map]; congruence.
Qed.

Section JoinKeys.
Context {num : Type} `{Arith num}.
Variables (left right m : DataFrame num) (suffixes : string * string).
Variables (i j i' j' : nat).
Hypothesis Wl : wf left.
Hypothesis Hi : index_of "Player" (columns left) = Some i.
Hypothesis Hj : index_of "Tm" (columns left) = Some j.
Hypothesis Hi' : index_of "Player" (columns right) = Some i'.
Hypothesis Hj' : index_of "Tm" (columns right) = Some j'.
Hypothesis Hm : merge left right join_keys suffixes = Ok m.
Hypothesis Kl : keyed left.
Hypothesis Kr : keyed right.

Local Abbreviation unmatched :=
  (fun r => negb (existsb (fun l => same_key [i; j] [i'; j'] l r) (rows left))).

(** The keys of the rows of a join: those of the left frame, then those only
    the right frame has. *)
Lemma merge_keys :
  NoDup (map (key_of [i'; j']) (rows right)) ->
  map (key_of [i; j]) (rows m)
  = map (key_of [i; j]) (rows left)
    ++ map (key_of [i'; j']) (filter unmatched (rows right)).
Proof.
  intros Hnd. destruct (key_locs_distinct _ _ _ Hi Hj) as (Hij & Hil & Hjl).
  destruct (merge_Ok _ _ _ _ _ Hm) as (lk & rk & Hlk & Hrk & _ & Hrows).
  rewrite (join_locs _ _ _ Hi Hj) in Hlk. rewrite (join_locs _ _ _ Hi' Hj') in Hrk.
  injection Hlk as <-. injection Hrk as <-. cbv zeta in Hrows.
  rewrite Hrows, map_app, !map_flat_map. f_equal.
  - apply flat_map_singletons. intros l Hl.
    pose proof (wf_row _ _ Wl Hl) as Hlen.
    destruct (keyed_rows left i j l Kl Hi Hj Hl) as (p & t & Hkey).
    unfold from_left.
    assert (Hmatch : forall r, In r (filter (same_key [i; j] [i'; j'] l) (rows right)) ->
                       key_of [i'; j'] r = [Str p; Str t]).
    { intros r Hr. apply filter_In in Hr. destruct Hr as [_ Hs].
      unfold same_key in Hs. rewrite Hkey in Hs. apply keys_eqb_pair_l in Hs. exact Hs. }
    pose proof (NoDup_map_filter (key_of [i'; j']) (same_key [i; j] [i'; j'] l) _ Hnd)
      as Hnd'.
    destruct (filter (same_key [i; j] [i'; j'] l) (rows right)) as [|r0 [|r1 ms]].
    + cbn [map]. rewrite key_of_app by (rewrite Hlen; assumption). reflexivity.
    + cbn [map]. rewrite key_of_app by (rewrite Hlen; assumption). reflexivity.
    + exfalso. cbn [map] in Hnd'.
      rewrite (Hmatch r0), (Hmatch r1) in Hnd' by (simpl; auto).
      inversion Hnd' as [|? ? Hx _]. apply Hx. left. reflexivity.
  - rewrite <- flat_map_optional. apply flat_map_ext. intros r. unfold from_right.
    destruct (existsb _ (rows left)); [reflexivity|]. cbn [map negb]. f_equal.
    rewrite key_of_app by (rewrite length_put_keys, repeat_length; assumption).
    change (key_of [i'; j'] r) with [cell_at i' r; cell_at j' r].
    apply key_of_put_keys; rewrite ?repeat_length; assumption.
Qed.

Lemma merge_unique_keys :
  NoDup (map (key_of [i; j]) (rows left)) ->
  NoDup (map (key_of [i'; j']) (rows right)) ->
  NoDup (map (key_of [i; j]) (rows m)).
Proof.
  intros Hl Hr. rewrite (merge_keys Hr). apply NoDup_app.
  - assumption.
  - apply NoDup_map_filter. assumption.
  - intros k Hkl Hkr. apply in_map_iff in Hkl, Hkr.
    destruct Hkl as (l & <- & Hlin). destruct Hkr as (r & E & Hrin).
    apply filter_In in Hrin. destruct Hrin as [_ Hun].
    apply negb_true_iff in Hun. apply not_true_iff_false in Hun. apply Hun.
    apply existsb_exists. exists l. split; [assumption|].
    destruct (keyed_rows left i j l Kl Hi Hj Hlin) as (p & t & Hkey).
    unfold same_key. rewrite E, Hkey. apply keys_eqb_pair_l. reflexivity.
Qed.

Lemma merge_keyed_rows x :
  In x (rows m) -> exists p t, key_of [i; j] x = [Str p; Str t].
Proof.
  intros Hx. destruct (key_locs_distinct _ _ _ Hi Hj) as (Hij & Hil & Hjl).
  destruct (merge_rows _ _ _ _ _ _ _ _ Hm (join_locs _ _ _ Hi Hj) (join_locs _ _ _ Hi' Hj') Hx)
    as [(l & Hl & -> & _)|[(l & r & Hl & Hr & _ & ->)|(r & Hr & -> & _)]].
  - rewrite key_of_app by (rewrite (wf_row _ _ Wl Hl); assumption).
    apply (keyed_rows left); assumption.
  - rewrite key_of_app by (rewrite (wf_row _ _ Wl Hl); assumption).
    apply (keyed_rows left); assumption.
  - rewrite key_of_app by (rewrite length_put_keys, repeat_length; assumption).
    change (key_of [i'; j'] r) with [cell_at i' r; cell_at j' r].
    rewrite key_of_put_keys by (rewrite ?repeat_length; assumption).
    apply (keyed_rows right i' j' r); assumption.
Qed.

End JoinKeys.

Lemma keyed_locs {num} `{Arith num} (df : DataFrame num) :
  keyed df ->
  exists i j, index_of "Player" (columns df) = Some i /\ index_of "Tm" (columns df) = Some j.
Proof.
  unfold keyed, keyedb.
  destruct (index_of "Player" (columns df)) as [i|]; [|discriminate].
  destruct (index_of "Tm" (columns df)) as [j|]; [|discriminate]. eauto.
Qed.

(** X9: when each of the three tables of a season is rectangular, has its
    player and team identifiers as text and lists every (player, team) pair
    once, so does the merged record: the two joins give one row per player
    and team. *)
Theorem merged_record_has_one_row_per_pair :
  forall (num : Type) (A : Arith num) (passing rushing receiving players : DataFrame num),
    wf passing -> wf rushing -> wf receiving ->
    keyed passing -> keyed rushing -> keyed receiving ->
    NoDup (pairs passing) -> NoDup (pairs rushing) -> NoDup (pairs receiving) ->
    merge_season passing rushing receiving = Ok players ->
    keyed players /\ NoDup (pairs players).
Proof.
  intros num A passing rushing receiving players Wp Wr Wc Kp Kr Kc Np Nr Nc Hm.
  destruct (keyed_locs _ Kp) as (i & j & Hi & Hj).
  destruct (keyed_locs _ Kr) as (i1 & j1 & Hi1 & Hj1).
  destruct (keyed_locs _ Kc) as (i2 & j2 & Hi2 & Hj2).
  apply merge_season_Ok in Hm. destruct Hm as (first & both & H1 & H2 & ->).
  apply (pairs_keys _ _ _ Hi Hj) in Np. apply (pairs_keys _ _ _ Hi1 Hj1) in Nr.
  apply (pairs_keys _ _ _ Hi2 Hj2) in Nc.
  assert (Hsfx1 : In (fst ("_pass", "_rush")%string) ["_pass"; "_x"]%string)
    by (left; reflexivity).
  assert (Hsfx2 : In (fst default_suffixes) ["_pass"; "_x"]%string)
    by (right; left; reflexivity).
  assert (Hkp : In "Player"%string join_keys) by (left; reflexivity).
  assert (Hkt : In "Tm"%string join_keys) by (right; left; reflexivity).
  pose proof (merge_key_loc _ _ _ _ _ _ H1 Hsfx1 Hkp Hi) as Fi.
  pose proof (merge_key_loc _ _ _ _ _ _ H1 Hsfx1 Hkt Hj) as Fj.
  pose proof (merge_key_loc _ _ _ _ _ _ H2 Hsfx2 Hkp Fi) as Bi.
  pose proof (merge_key_loc _ _ _ _ _ _ H2 Hsfx2 Hkt Fj) as Bj.
  assert (Wf : wf first) by exact (merge_wf _ _ _ _ _ Wp Wr H1).
  assert (Kf : keyed first).
  { apply (keyed_intro first i j Fi Fj). intros x Hx.
    eapply (merge_keyed_rows passing rushing first); eauto. }
  assert (Nf : NoDup (map (key_of [i; j]) (rows first)))
    by (eapply (merge_unique_keys passing rushing first); eauto).
  assert (Kb : forall x, In x (rows both) -> exists p t, key_of [i; j] x = [Str p; Str t])
    by (intros x Hx; eapply (merge_keyed_rows first receiving both); eauto).
  assert (Nb : NoDup (map (key_of [i; j]) (rows both)))
    by (eapply (merge_unique_keys first receiving both); eauto).
  destruct (key_locs_distinct _ _ _ Bi Bj) as (_ & Hil & Hjl).
  assert (Hfill : forall x, In x (rows both) -> wf both ->
                    key_of [i; j] (map fill x) = key_of [i; j] x).
  { intros x Hx Wb. pose proof (wf_row _ _ Wb Hx) as Hlen.
    destruct (Kb x Hx) as (p & t & E). unfold key_of in *. cbn [map] in *.
    rewrite !cell_at_map_fill by (rewrite Hlen; assumption).
    injection E as -> ->. reflexivity. }
  assert (Wb : wf both) by exact (merge_wf _ _ _ _ _ Wf Wc H2).
  split.
  - apply (keyed_intro (fillna both) i j Bi Bj). cbn [fillna rows]. intros x Hx.
    apply in_map_iff in Hx. destruct Hx as (x0 & <- & Hx0).
    rewrite Hfill by assumption. auto.
  - apply (pairs_keys (fillna both) i j Bi Bj). cbn [fillna rows]. rewrite map_map.
    rewrite (map_ext_in _ (key_of [i; j])); [assumption|].
    intros x Hx. apply Hfill; assumption.
Qed.

Lemma merged_record_has_one_row_per_pair_witness :
  exists players,
    merge_season Sample.passing Sample.rushing Sample.receiving = Ok players /\
    keyed players /\ NoDup (pairs players).
Proof.
  eexists. split; [vm_compute; reflexivity|].
  apply (merged_record_has_one_row_per_pair float float64
           Sample.passing Sample.rushing Sample.receiving).
  - reflexivity.
  - reflexivity.
  - reflexivity.
  - reflexivity.
  - reflexivity.
  - reflexivity.
  - vm_compute. repeat constructor; simpl; intuition discriminate.
  - vm_compute. repeat constructor; simpl; intuition discriminate.
  - vm_compute. repeat constructor; simpl; intuition discriminate.
  - vm_compute. reflexivity.
Defined.

(* ================================================================== *)
(** * More on the normalisation *)

Lemma scale_features_Ok {num} `{Arith num} (df out : DataFrame num) :
  scale_features df = Ok out ->
  rows df <> [] /\
  existsb is_numeric (map (column df) (seq 0 (length (columns df)))) = true /\
  columns out = columns df /\
  rows out = map (fun r => map scale_cell
                             (combine (map (column df) (seq 0 (length (columns df)))) r))
                 (rows df).
Proof.
  unfold scale_features. intros Hs.
  destruct (rows df) as [|r0 rs] eqn:Hrows; [discriminate|]. rewrite <- Hrows in Hs.
  destruct (existsb is_numeric _) eqn:E; [|discriminate]. injection Hs as <-.
  rewrite Hrows. repeat split. discriminate.
Qed.

Lemma scaled_row_cell {num} `{Arith num} (df : DataFrame num) (r : list (cell num)) j :
  length r = length (columns df) ->
  cell_at j (map scale_cell (combine (map (column df) (seq 0 (length (columns df)))) r))
  = if j <? length (columns df) then scale_cell (column df j, cell_at j r) else NaN.
Proof.
  intros Hlen. unfold cell_at at 1. destruct (Nat.ltb_spec j (length (columns df))) as [Hj|Hj].
  - rewrite (nth_map_combine _ _ _ _ [] NaN).
    + rewrite (nth_indep _ [] (column df 0)) by (rewrite length_map, length_seq; assumption).
      rewrite map_nth, seq_nth by assumption. reflexivity.
    + rewrite length_map, length_seq. assumption.
    + rewrite length_map, length_seq. symmetry. assumption.
  - apply nth_overflow. rewrite length_map, length_combine, length_map, length_seq. lia.
Qed.

Lemma scaled_row_length {num} `{Arith num} (df : DataFrame num) (r : list (cell num)) :
  length r = length (columns df) ->
  length (map scale_cell (combine (map (column df) (seq 0 (length (columns df)))) r))
  = length r.
Proof.
  intros Hlen. rewrite length_map, length_combine, length_map, length_seq. lia.
Qed.

Lemma Forall2_map_In {X Y} (P : X -> Y -> Prop) (f : X -> Y) (l : list X) :
  (forall x, In x l -> P x (f x)) -> Forall2 P l (map f l).
Proof.
  induction l as [|x l IH]; intros HP; simpl; constructor.
  - apply HP. left. reflexivity.
  - apply IH. intros y Hy. apply HP. right. assumption.
Qed.

Lemma scale_cell_keeps {num} `{Arith num} (s : list (cell num)) (c : cell num) :
  (forall x, c <> Num x) -> scale_cell (s, c) = c.
Proof.
  intros Hc. unfold scale_cell. cbn [fst snd]. destruct (is_numeric s); [|reflexivity].
  destruct c; try reflexivity. exfalso. eapply Hc. reflexivity.
Qed.

Lemma scale_features_wf {num} `{Arith num} (df out : DataFrame num) :
  wf df -> scale_features df = Ok out -> wf out.
Proof.
  intros Hwf Hs. destruct (scale_features_Ok _ _ Hs) as (_ & _ & Hcols & Hrows).
  apply wf_intro. intros r' Hr'. rewrite Hrows in Hr'. apply in_map_iff in Hr'.
  destruct Hr' as (r & <- & Hr). rewrite Hcols.
  rewrite scaled_row_length; apply wf_row; assumption.
Qed.

(** X10: the scaler keeps the shape of a rectangular dataset and touches
    numbers only: same labels, same number of rows and of cells in every
    row, every text or missing cell as it was, and a column that holds text
    unchanged as a whole. *)
Theorem scale_features_touches_numbers_only :
  forall (num : Type) (A : Arith num) (df out : DataFrame num),
    wf df -> scale_features df = Ok out ->
    columns out = columns df /\ wf out /\ nrows out = nrows df /\
    Forall2 (fun r r' =>
               length r' = length r /\
               forall j, (forall x, cell_at j r <> Num x) -> cell_at j r' = cell_at j r)
            (rows df) (rows out) /\
    (forall j, j < length (columns df) -> is_numeric (column df j) = false ->
               column out j = column df j).
Proof.
  intros num A df out Hwf Hs.
  destruct (scale_features_Ok _ _ Hs) as (_ & _ & Hcols & Hrows).
  split; [assumption|]. split; [eapply scale_features_wf; eauto|].
  split; [unfold nrows; rewrite Hrows; apply length_map|]. split.
  - rewrite Hrows. apply Forall2_map_In. intros r Hr.
    pose proof (wf_row _ _ Hwf Hr) as Hlen. split; [apply scaled_row_length; assumption|].
    intros j Hc. rewrite scaled_row_cell by assumption.
    destruct (Nat.ltb_spec j (length (columns df))) as [Hj|Hj].
    + apply scale_cell_keeps. assumption.
    + symmetry. apply nth_overflow. lia.
  - intros j Hj Hn. destruct (scale_features_column df out j Hwf Hs Hj) as [_ ->].
    rewrite <- (map_id (column df j)) at 2. apply map_ext. intros c.
    unfold scale_cell. cbn [fst snd]. rewrite Hn. reflexivity.
Qed.

Lemma scale_features_touches_numbers_only_witness :
  exists out,
    scale_features Sample.dataset = Ok out /\
    columns out = columns Sample.dataset /\ wf out /\ nrows out = nrows Sample.dataset.
Proof.
  eexists. split; [vm_compute; reflexivity|].
  destruct (scale_features_touches_numbers_only float float64 Sample.dataset _
              eq_refl eq_refl) as (Hc & Hw & Hn & _).
  split; [exact Hc|]. split; [exact Hw|exact Hn].
Defined.

Lemma is_numeric_standardize {num} `{Arith num} (s col : list (cell num)) :
  is_numeric col = true -> is_numeric (map (standardize s) col) = true.
Proof.
  unfold is_numeric. induction col as [|c col IH]; [reflexivity|].
  simpl. intros Hc. apply andb_prop in Hc. destruct Hc as [Hc Hcol].
  rewrite IH by assumption. destruct c; [reflexivity|reflexivity|discriminate].
Qed.

Lemma scaled_column_numeric {num} `{Arith num} (df out : DataFrame num) j :
  wf df -> scale_features df = Ok out -> j < length (columns df) ->
  is_numeric (column out j) = is_numeric (column df j).
Proof.
  intros Hwf Hs Hj. destruct (scale_features_column df out j Hwf Hs Hj) as [_ Hcol].
  destruct (is_numeric (column df j)) eqn:Hn.
  - rewrite Hcol. rewrite (map_ext _ (standardize (column df j))).
    + apply is_numeric_standardize. assumption.
    + intros c. unfold scale_cell. cbn [fst snd]. rewrite Hn. reflexivity.
  - rewrite Hcol. rewrite (map_ext _ (fun c => c)), map_id; [assumption|].
    intros c. unfold scale_cell. cbn [fst snd]. rewrite Hn. reflexivity.
Qed.

Section ScalingTwice.
Local Open Scope R_scope.

(** Once standardised, the numbers of a column have mean 0 and scale 1. *)
Lemma standardized_is_standard (l : list R) :
  let ys := map (fun x => (x - mean l) / scale_ l) l in
  mean ys = 0 /\ scale_ ys = 1.
Proof.
  intros ys. split; [apply mean_centered|].
  destruct (Req_dec_T (variance l) 0) as [Hv|Hv].
  - apply scale_zero_variance. unfold ys. rewrite variance_scaled, Hv. ring.
  - destruct (standardized_moments l Hv) as [_ Hstd]. cbv zeta in Hstd. fold ys in Hstd.
    unfold scale_. rewrite Hstd. to_R. unfold Reqb.
    destruct (Req_dec_T 1 0); [lra|reflexivity].
Qed.

Lemma rescale_cell (df out : DataFrame R) (j : nat) (c : cell R) :
  wf df -> scale_features df = Ok out -> (j < length (columns df))%nat ->
  scale_cell (column out j, c) = c.
Proof.
  intros Hwf Hs Hj. unfold scale_cell. cbn [fst snd].
  rewrite (scaled_column_numeric df out j Hwf Hs Hj).
  destruct (is_numeric (column df j)) eqn:Hn; [|reflexivity].
  destruct c as [|y|s]; try reflexivity. unfold standardize.
  rewrite (scaled_numeric_column df out j Hwf Hs Hj Hn), numbers_standardize.
  destruct (standardized_is_standard (numbers (column df j))) as [Hm Hsc].
  cbv zeta in Hm, Hsc. to_R. rewrite Hm, Hsc. f_equal. field.
Qed.

End ScalingTwice.

(** X12: in exact arithmetic, normalising a normalised dataset changes
    nothing. *)
Theorem scale_features_idempotent :
  forall (df out : DataFrame R),
    wf df -> scale_features df = Ok out -> scale_features out = Ok out.
Proof.
  intros df out Hwf Hs.
  pose proof (scale_features_wf df out Hwf Hs) as Hwf'.
  destruct (scale_features_Ok _ _ Hs) as (Hne & Hex & Hcols & Hrows).
  assert (Hne' : rows out <> []).
  { rewrite Hrows. destruct (rows df); [congruence | discriminate]. }
  unfold scale_features. destruct (rows out) as [|r0 rs] eqn:E; [congruence|].
  rewrite <- E in *. clear E r0 rs.
  assert (Hex' : existsb is_numeric (map (column out) (seq 0 (length (columns out)))) = true).
  { apply existsb_exists in Hex. destruct Hex as (s & Hin & Hnum).
    apply in_map_iff in Hin. destruct Hin as (j & <- & Hj).
    apply existsb_exists. exists (column out j). split.
    - apply in_map. rewrite Hcols. assumption.
    - apply in_seq in Hj. rewrite (scaled_column_numeric df out j Hwf Hs) by lia.
      assumption. }
  rewrite Hex'. destruct out as [cols rws]. cbn [columns rows] in *. f_equal. f_equal.
  rewrite <- (map_id rws) at 2. apply map_ext_in. intros r Hr.
  pose proof (wf_row _ _ Hwf' Hr) as Hlen. cbn [columns] in Hlen.
  apply (nth_ext _ _ NaN NaN).
  - rewrite length_map, length_combine, length_map, length_seq. lia.
  - intros j Hj. rewrite length_map, length_combine, length_map, length_seq in Hj.
    pose proof (scaled_row_cell {| columns := cols; rows := rws |} r j Hlen) as Hc.
    unfold cell_at in Hc at 1. cbn [columns] in Hc. rewrite Hc.
    destruct (Nat.ltb_spec j (length cols)) as [Hj'|Hj']; [|lia].
    apply (rescale_cell df). 
    + assumption.
    + assumption.
    + rewrite <- Hcols. assumption.
Qed.

Lemma scale_features_idempotent_witness :
  exists out, scale_features Sample.scores = Ok out /\ scale_features out = Ok out.
Proof.
  eexists. split; [reflexivity|].
  apply (scale_features_idempotent Sample.scores); reflexivity.
Defined.

(* ================================================================== *)
(** * More on the position extraction *)

Lemma append_empty_r (s : string) : (s ++ "")%string = s.
Proof. induction s as [|c s IH]; simpl; congruence. Qed.

Lemma append_assoc (a b c : string) : ((a ++ b) ++ c)%string = (a ++ (b ++ c))%string.
Proof. induction a as [|x a IH]; simpl; congruence. Qed.

Lemma no_space_app (a b : string) :
  no_space (a ++ b) = no_space a && no_space b.
Proof.
  induction a as [|c a IH]; simpl; [reflexivity|]. rewrite IH, andb_assoc. reflexivity.
Qed.

Lemma append_nonempty_r (a : string) (c : ascii) (b : string) :
  (a ++ String c b)%string <> EmptyString.
Proof. destruct a; discriminate. Qed.

Lemma split_from_tokens (s : string) :
  forall tok,
    (forall t, tok = Some t -> t <> EmptyString /\ no_space t = true) ->
    forall u, In u (split_from tok s) -> u <> EmptyString /\ no_space u = true.
Proof.
  induction s as [|c s IH]; intros tok Htok u Hu; simpl in Hu.
  - destruct tok as [t|]; [|destruct Hu]. destruct Hu as [<-|[]]. apply Htok. reflexivity.
  - destruct (is_space c) eqn:Hc.
    + assert (Hrest : forall u, In u (split_from None s) ->
                        u <> EmptyString /\ no_space u = true)
        by (apply IH; discriminate).
      destruct tok as [t|]; [|auto]. destruct Hu as [<-|Hu]; [apply Htok; reflexivity | auto].
    + revert Hu. apply IH. intros t [= <-]. destruct tok as [t|].
      * destruct (Htok t eq_refl) as [_ Hns]. split; [apply append_nonempty_r|].
        rewrite no_space_app, Hns. simpl. rewrite Hc. reflexivity.
      * split; [discriminate|]. simpl. rewrite Hc. reflexivity.
Qed.

Lemma split_from_Some (s : string) : forall t, split_from (Some t) s <> [].
Proof.
  induction s as [|c s IH]; intros t; simpl; [discriminate|].
  destruct (is_space c); [discriminate | apply IH].
Qed.

Lemma split_nil_all_space (s : string) : split s = [] -> all_space s = true.
Proof.
  unfold split. induction s as [|c s IH]; simpl; [reflexivity|].
  destruct (is_space c); [exact IH|]. intros E. exfalso. exact (split_from_Some _ _ E).
Qed.

Lemma split_from_app_space (a : string) (sp : ascii) (b : string) :
  is_space sp = true ->
  forall tok, split_from tok (a ++ String sp b) = split_from tok a ++ split_from None b.
Proof.
  intros Hsp. induction a as [|c a IH]; intros tok; simpl.
  - rewrite Hsp. destruct tok; reflexivity.
  - destruct (is_space c); [|apply IH].
    destruct tok; simpl; rewrite IH; reflexivity.
Qed.

Lemma split_from_word (t : string) :
  no_space t = true -> forall u, split_from (Some u) t = [(u ++ t)%string].
Proof.
  induction t as [|c t IH]; intros Hns u; simpl.
  - rewrite append_empty_r. reflexivity.
  - simpl in Hns. apply andb_prop in Hns. destruct Hns as [Hc Hns].
    apply negb_true_iff in Hc. rewrite Hc, (IH Hns), append_assoc. reflexivity.
Qed.

Lemma split_word (t : string) :
  t <> EmptyString -> no_space t = true -> split t = [t].
Proof.
  intros Hne Hns. destruct t as [|c t]; [congruence|]. unfold split. simpl.
  simpl in Hns. apply andb_prop in Hns. destruct Hns as [Hc Hns].
  apply negb_true_iff in Hc. rewrite Hc. apply (split_from_word t Hns).
Qed.

Lemma split_from_app_blank (w : string) :
  all_space w = true ->
  forall a tok, split_from tok (a ++ w) = split_from tok a.
Proof.
  intros Hw. induction a as [|c a IH]; intros tok; simpl.
  - revert tok. induction w as [|c w IHw]; intros tok; [reflexivity|].
    simpl in *. apply andb_prop in Hw. destruct Hw as [Hc Hw]. rewrite Hc.
    pose proof (IHw Hw None) as E. simpl in E. destruct tok; rewrite E; reflexivity.
  - destruct (is_space c); [|apply IH]. destruct tok; rewrite IH; reflexivity.
Qed.

(** X13: [split] gives the words of a string: every token is non-empty and
    free of white space; there is no token exactly when the string is empty
    or white space only; a white-space character separates the tokens on
    its two sides; a non-empty string free of white space is its own only
    token. *)
Theorem split_gives_the_words :
  (forall s t, In t (split s) -> t <> EmptyString /\ no_space t = true) /\
  (forall s, split s = [] <-> all_space s = true) /\
  (forall a sp b, is_space sp = true -> split (a ++ String sp b) = split a ++ split b) /\
  (forall t, t <> EmptyString -> no_space t = true -> split t = [t]).
Proof.
  split; [|split; [|split]].
  - intros s t. apply split_from_tokens. discriminate.
  - intros s. split; [apply split_nil_all_space | apply split_all_space].
  - intros a sp b Hsp. apply split_from_app_space. assumption.
  - apply split_word.
Qed.

Lemma split_gives_the_words_witness :
  split "Patrick Mahomes QB" = split "Patrick Mahomes" ++ split "QB" /\
  split "QB" = ["QB"%string].
Proof.
  destruct split_gives_the_words as (_ & _ & Happ & Hword). split.
  - apply (Happ "Patrick Mahomes"%string " "%char "QB"%string). reflexivity.
  - apply Hword; [discriminate | reflexivity].
Defined.

(** X14: the position extracted from a player identifier is its last word:
    what follows the last white-space character before the trailing white
    space, or the identifier itself when it is a single word. *)
Theorem position_is_the_last_word :
  forall (num : Type) (A : Arith num) (a : string) (sp : ascii) (t w : string),
    is_space sp = true -> t <> EmptyString -> no_space t = true -> all_space w = true ->
    position (num:=num) (Str (a ++ String sp (t ++ w))) = Ok (Str t) /\
    position (num:=num) (Str (t ++ w)) = Ok (Str t).
Proof.
  intros num A a sp t w Hsp Hne Hns Hw. unfold position, split. split.
  - rewrite split_from_app_space by assumption.
    rewrite (split_from_app_blank w Hw t None).
    fold (split t). rewrite (split_word t Hne Hns), rev_app_distr. reflexivity.
  - rewrite (split_from_app_blank w Hw t None).
    fold (split t). rewrite (split_word t Hne Hns). reflexivity.
Qed.

Lemma position_is_the_last_word_witness :
  position (num:=float) (Str "Patrick Mahomes QB ") = Ok (Str "QB") /\
  position (num:=float) (Str "QB ") = Ok (Str "QB").
Proof.
  apply (position_is_the_last_word float float64 "Patrick Mahomes" " "%char "QB" " ");
    [reflexivity | discriminate | reflexivity | reflexivity].
Defined.

Lemma position_has_token {num} `{Arith num} (c : cell num) :
  (has_token c = true -> exists t, position c = Ok (Str t)) /\
  (has_token c = false -> position c = Err AttributeError \/ position c = Err IndexError).
Proof.
  destruct c as [|x|s]; simpl; try (split; [discriminate | auto]).
  destruct (all_space s) eqn:Hs; simpl.
  - split; [discriminate|]. intros _. right. rewrite (split_all_space s Hs). reflexivity.
  - split; [|discriminate]. intros _.
    destruct (rev (split s)) as [|t l] eqn:E; [|eauto].
    exfalso. apply (f_equal (@rev _)) in E. rewrite rev_involutive in E. simpl in E.
    apply split_nil_all_space in E. congruence.
Qed.

Lemma apply_position {num} `{Arith num} (s : list (cell num)) :
  (forallb has_token s = true -> exists v, apply position s = Ok v) /\
  (forall v, apply position s = Ok v -> forallb has_token s = true) /\
  (forall e, apply position s = Err e -> e = AttributeError \/ e = IndexError).
Proof.
  unfold apply. induction s as [|c s (IH1 & IH2 & IH3)]; simpl.
  - split; [eauto|]. split; [reflexivity | discriminate].
  - destruct (position_has_token c) as [Hyes Hno]. destruct (has_token c) eqn:Hc; simpl.
    + destruct (Hyes eq_refl) as (t & ->). cbn [bind]. split; [|split].
      * intros Hs. destruct (IH1 Hs) as (v & ->). simpl. eauto.
      * intros v E. inv_bind E as v' Hv'. eauto.
      * intros e E. destruct (mapM position s) as [v'|e'] eqn:Hm; [discriminate|].
        simpl in E. injection E as <-. apply IH3. reflexivity.
    + split; [discriminate|]. destruct (Hno eq_refl) as [->| ->]; simpl;
        (split; [discriminate|]); intros e [= <-]; auto.
Qed.

(** X15: the position extraction succeeds exactly when the dataset has a
    [Player] column whose every cell is a string with a character that is
    not white space; any failure is a [KeyError] for [Player], an
    [AttributeError] or an [IndexError]. *)
Theorem extract_position_succeeds_iff :
  forall (num : Type) (A : Arith num) (df : DataFrame num),
    ((exists df', extract_position df = Ok (tt, df')) <->
     (exists s, getitem df "Player" = Ok s /\ forallb has_token s = true)) /\
    (forall e, extract_position df = Err e ->
       e = KeyError "Player" \/ e = AttributeError \/ e = IndexError).
Proof.
  intros num A df. unfold extract_position, assigns.
  destruct (getitem df "Player") as [s|e0] eqn:Hs; cbn [bind].
  - destruct (apply_position s) as (H1 & H2 & H3). split; [split|].
    + intros (df' & E). exists s. split; [reflexivity|].
      destruct (apply position s) as [v|e] eqn:Hv; [|discriminate]. eauto.
    + intros (s' & [= <-] & Hall). destruct (H1 Hall) as (v & ->). simpl. eauto.
    + intros e E. destruct (apply position s) as [v|e'] eqn:Hv; [discriminate|].
      simpl in E. injection E as <-. right. apply H3. reflexivity.
  - split; [split|].
    + intros (df' & E). discriminate.
    + intros (s & E & _). discriminate.
    + intros e [= <-]. left. unfold getitem, get_loc in Hs.
      destruct (index_of "Player" (columns df)); simpl in Hs; congruence.
Qed.

Lemma extract_position_succeeds_iff_witness :
  exists df', extract_position Sample.dataset = Ok (tt, df').
Proof.
  apply (proj2 (proj1 (extract_position_succeeds_iff float float64 Sample.dataset))).
  eexists. split; [vm_compute; reflexivity | reflexivity].
Defined.

(* ================================================================== *)
(** * More on the concatenation *)

Lemma In_add_labels (cols acc : list string) c :
  In c (fold_left add_label cols acc) <-> In c acc \/ In c cols.
Proof.
  revert acc; induction cols as [|d cols IH]; intros acc; simpl; [tauto|].
  rewrite IH. unfold add_label. destruct (mem d acc) eqn:E.
  - apply mem_In in E. split; [tauto|]. intros [Hc|[<-|Hc]]; auto.
  - rewrite in_app_iff. simpl. tauto.
Qed.

Lemma NoDup_add_labels (cols acc : list string) :
  NoDup acc -> NoDup (fold_left add_label cols acc).
Proof.
  revert acc; induction cols as [|d cols IH]; intros acc Hacc; simpl; [assumption|].
  apply IH. unfold add_label. destruct (mem d acc) eqn:E; [assumption|].
  apply NoDup_app; [assumption | repeat constructor; simpl; tauto |].
  intros x Hx [<-|[]]. apply mem_In in Hx. congruence.
Qed.

Lemma In_union_from {num} (frames : list (DataFrame num)) : forall acc c,
  In c (fold_left (fun acc df => fold_left add_label (columns df) acc) frames acc)
  <-> In c acc \/ exists df, In df frames /\ In c (columns df).
Proof.
  induction frames as [|f frames IH]; intros acc c; simpl.
  - split; [tauto|]. intros [Hc|(df & [] & _)]. assumption.
  - rewrite IH, In_add_labels. split.
    + intros [[Hc|Hc]|(df & Hdf & Hc)]; eauto 6.
    + intros [Hc|(df & [<-|Hdf] & Hc)]; eauto 6.
Qed.

Lemma NoDup_union_from {num} (frames : list (DataFrame num)) : forall acc,
  NoDup acc ->
  NoDup (fold_left (fun acc df => fold_left add_label (columns df) acc) frames acc).
Proof.
  induction frames as [|f frames IH]; intros acc Hacc; simpl; [assumption|].
  apply IH. apply NoDup_add_labels. assumption.
Qed.

Lemma In_union_columns {num} `{Arith num} (frames : list (DataFrame num)) c :
  In c (union_columns frames) <-> exists df, In df frames /\ In c (columns df).
Proof.
  unfold union_columns. rewrite In_union_from. simpl. tauto.
Qed.

Lemma NoDup_union_columns {num} `{Arith num} (frames : list (DataFrame num)) :
  NoDup (union_columns frames).
Proof. apply NoDup_union_from. constructor. Qed.

Lemma nth_map_in {X Y} (f : X -> Y) (l : list X) k d d' :
  k < length l -> nth k (map f l) d = f (nth k l d').
Proof.
  revert k; induction l as [|x l IH]; intros [|k] Hk; simpl in *; try lia; [reflexivity|].
  apply IH. lia.
Qed.

Lemma reindex_cell {num} `{Arith num} cols_from cols_to (r : list (cell num)) c k :
  index_of c cols_to = Some k ->
  cell_at k (reindex cols_from cols_to r)
  = match index_of c cols_from with Some i => cell_at i r | None => NaN end.
Proof.
  intros Hk. apply index_of_Some in Hk. destruct Hk as [Hlt Hk].
  unfold reindex, cell_at at 1.
  rewrite (nth_map_in _ _ _ _ c) by assumption.
  rewrite (nth_error_nth _ _ _ Hk). reflexivity.
Qed.

Lemma concat_Ok {num} `{Arith num} (frames : list (DataFrame num)) out :
  concat frames = Ok out ->
  frames <> [] /\ columns out = union_columns frames /\
  rows out = flat_map (fun df => map (reindex (columns df) (union_columns frames)) (rows df))
               frames.
Proof.
  unfold concat. destruct frames as [|f fs] eqn:E; [discriminate|]. rewrite <- E.
  intros [= <-]. split; [congruence|]. split; reflexivity.
Qed.

(** X16: [pd.concat] aligns frames with distinct labels by label: the
    labels of the result are the labels of the frames, each once; a row of a
    frame gives a row of the result that holds, under every label, the cell
    the row had under it, and a missing value under a label its frame lacks;
    and every row of the result comes from a row of a frame in this way. *)
Theorem concat_aligns_by_label :
  forall (num : Type) (A : Arith num) (frames : list (DataFrame num)) (out : DataFrame num),
    (forall df, In df frames -> NoDup (columns df)) ->
    concat frames = Ok out ->
    NoDup (columns out) /\
    (forall c, In c (columns out) <-> exists df, In df frames /\ In c (columns df)) /\
    (forall df r, In df frames -> In r (rows df) ->
       exists r', In r' (rows out) /\
         forall c, In c (columns out) ->
           at_label out r' c
           = Some (match at_label df r c with Some x => x | None => NaN end)) /\
    (forall r', In r' (rows out) ->
       exists df r, In df frames /\ In r (rows df) /\
                    r' = reindex (columns df) (columns out) r).
Proof.
  intros num A frames out _ Hc. destruct (concat_Ok _ _ Hc) as (_ & Hcols & Hrows).
  split; [rewrite Hcols; apply NoDup_union_columns|].
  split; [intros c; rewrite Hcols; apply In_union_columns|]. split.
  - intros df r Hdf Hr. exists (reindex (columns df) (columns out) r). split.
    + rewrite Hrows, Hcols. apply in_flat_map. exists df. split; [assumption|].
      apply in_map. assumption.
    + intros c Hin. unfold at_label. destruct (index_of_In _ _ Hin) as (k & Hk).
      rewrite Hk. cbn [option_map]. rewrite (reindex_cell _ _ _ _ _ Hk).
      destruct (index_of c (columns df)); reflexivity.
  - intros r' Hr'. rewrite Hrows in Hr'. apply in_flat_map in Hr'.
    destruct Hr' as (df & Hdf & Hr'). apply in_map_iff in Hr'.
    destruct Hr' as (r & <- & Hr). exists df, r. rewrite Hcols. auto.
Qed.

Lemma concat_aligns_by_label_witness :
  exists out,
    concat [Sample.passing; Sample.rushing] = Ok out /\
    NoDup (columns out) /\
    (forall c, In c (columns out) <->
       exists df, In df [Sample.passing; Sample.rushing] /\ In c (columns df)).
Proof.
  eexists. split; [vm_compute; reflexivity|].
  assert (Hnd : forall df, In df [Sample.passing; Sample.rushing] -> NoDup (columns df)).
  { intros df [<-|[<-|[]]]; repeat constructor; simpl; intuition discriminate. }
  destruct (concat_aligns_by_label float float64 [Sample.passing; Sample.rushing] _
              Hnd eq_refl) as (Hout & Hin & _).
  split; [exact Hout | exact Hin].
Defined.

Lemma add_labels_known (cols acc : list string) :
  incl cols acc -> fold_left add_label cols acc = acc.
Proof.
  induction cols as [|d cols IH]; intros Hincl; simpl; [reflexivity|].
  unfold add_label at 2.
  assert (Hd : mem d acc = true) by (apply mem_In; apply Hincl; left; reflexivity).
  rewrite Hd. apply IH. intros x Hx. apply Hincl. right. assumption.
Qed.

Lemma add_labels_new (cols acc : list string) :
  NoDup (acc ++ cols) -> fold_left add_label cols acc = acc ++ cols.
Proof.
  revert acc; induction cols as [|d cols IH]; intros acc Hnd; simpl.
  - rewrite app_nil_r. reflexivity.
  - unfold add_label at 2.
    assert (Hd : mem d acc = false).
    { apply not_true_iff_false. intros Hm. apply mem_In in Hm.
      apply NoDup_remove_2 in Hnd. apply Hnd. apply in_or_app. auto. }
    rewrite Hd, IH; rewrite <- app_assoc; [reflexivity | assumption].
Qed.

Lemma union_columns_same {num} `{Arith num} (frames : list (DataFrame num)) cols :
  frames <> [] -> NoDup cols -> (forall df, In df frames -> columns df = cols) ->
  union_columns frames = cols.
Proof.
  intros Hne Hnd Hall. unfold union_columns. destruct frames as [|f frames]; [congruence|].
  simpl. rewrite (Hall f) by (left; reflexivity).
  rewrite (add_labels_new cols []) by assumption. simpl.
  assert (Hrest : forall df, In df frames -> columns df = cols)
    by (intros; apply Hall; right; assumption).
  clear Hall Hne. induction frames as [|g frames IH]; simpl; [reflexivity|].
  rewrite (Hrest g) by (left; reflexivity).
  rewrite add_labels_known by apply incl_refl.
  apply IH. intros. apply Hrest. right. assumption.
Qed.

Lemma index_of_nth (cols : list string) k d :
  NoDup cols -> k < length cols -> index_of (nth k cols d) cols = Some k.
Proof.
  revert k; induction cols as [|c cols IH]; intros k Hnd Hk; simpl in *; [lia|].
  inversion Hnd as [|? ? Hnotin Hnd']; subst. destruct k as [|k].
  - rewrite String.eqb_refl. reflexivity.
  - destruct (String.eqb c (nth k cols d)) eqn:E.
    + apply String.eqb_eq in E. exfalso. apply Hnotin. rewrite E. apply nth_In. lia.
    + rewrite IH by (assumption || lia). reflexivity.
Qed.

Lemma reindex_same {num} `{Arith num} cols (r : list (cell num)) :
  NoDup cols -> length r = length cols -> reindex cols cols r = r.
Proof.
  intros Hnd Hlen. apply (nth_ext _ _ NaN NaN); [rewrite length_reindex; auto|].
  intros k Hk. rewrite length_reindex in Hk.
  assert (Hi : index_of (nth k cols EmptyString) cols = Some k)
    by (apply index_of_nth; assumption).
  pose proof (reindex_cell cols cols r _ _ Hi) as E. rewrite Hi in E. exact E.
Qed.

(** X17: seasons that carry the same distinct labels are stacked as they
    are: the concatenation has these labels and the rows of the seasons, in
    order and unchanged. *)
Theorem concat_stacks_like_frames :
  forall (num : Type) (A : Arith num) (frames : list (DataFrame num)) (cols : list string),
    frames <> [] -> NoDup cols ->
    (forall df, In df frames -> columns df = cols /\ wf df) ->
    concat frames = Ok {| columns := cols; rows := flat_map (@rows num) frames |}.
Proof.
  intros num A frames cols Hne Hnd Hall.
  assert (Hu : union_columns frames = cols)
    by (apply union_columns_same; [assumption | assumption | intros; apply Hall; assumption]).
  unfold concat. destruct frames as [|f fs] eqn:E; [congruence|]. rewrite <- E in *.
  cbv zeta. rewrite Hu. f_equal. f_equal. clear E Hne Hu.
  induction frames as [|g frames IH]; simpl; [reflexivity|].
  rewrite IH by (intros; apply Hall; right; assumption). f_equal.
  destruct (Hall g) as [Hg Hwf]; [left; reflexivity|].
  rewrite <- (map_id (rows g)) at 2. apply map_ext_in. intros r Hr.
  rewrite Hg. apply reindex_same; [assumption|]. rewrite <- Hg. apply wf_row; assumption.
Qed.

Lemma concat_stacks_like_frames_witness :
  concat [Sample.dataset; Sample.blank_dataset]
  = Ok {| columns := columns Sample.dataset;
          rows := flat_map (@rows float) [Sample.dataset; Sample.blank_dataset] |}.
Proof.
  apply (concat_stacks_like_frames float float64).
  - discriminate.
  - repeat constructor; simpl; intuition discriminate.
  - intros df [<-|[<-|[]]]; split; reflexivity.
Defined.

Lemma concat_getitem {num} `{Arith num} (frames : list (DataFrame num)) out label
    (col : DataFrame num -> list (cell num)) :
  concat frames = Ok out ->
  (forall df, In df frames -> getitem df label = Ok (col df)) ->
  getitem out label = Ok (flat_map col frames).
Proof.
  intros Hc Hall. destruct (concat_Ok _ _ Hc) as (Hne & Hcols & Hrows).
  assert (Hin : In label (columns out)).
  { rewrite Hcols. apply In_union_columns. destruct frames as [|f fs]; [congruence|].
    exists f. split; [left; reflexivity|].
    specialize (Hall f (or_introl eq_refl)). unfold getitem in Hall.
    inv_bind Hall as i Hi. apply get_loc_index in Hi. apply index_of_Some in Hi.
    destruct Hi as [_ Hi]. eapply nth_error_In; eauto. }
  destruct (index_of_In _ _ Hin) as (k & Hk).
  unfold getitem, get_loc. rewrite Hk. cbn [bind]. f_equal.
  rewrite Hrows. rewrite <- Hcols. clear Hrows Hne Hc Hcols.
  induction frames as [|f fs IH]; simpl; [reflexivity|].
  rewrite map_app, IH by (intros; apply Hall; right; assumption). f_equal.
  specialize (Hall f (or_introl eq_refl)). unfold getitem in Hall.
  inv_bind Hall as i Hi. apply get_loc_index in Hi. injection Hall as <-.
  rewrite map_map. apply map_ext. intros r.
  rewrite (reindex_cell _ _ _ _ _ Hk), Hi. reflexivity.
Qed.

Lemma season_year {num} `{Arith num} (fs : raw_data num) :
  (forall year category t, fs year category = Ok t -> wf t) ->
  forall ys frames,
    mapM (season fs) ys = Ok frames ->
    exists records,
      mapM (load_and_preprocess_data fs) ys = Ok records /\
      (forall df, In df frames -> exists s, getitem df "Year" = Ok s) /\
      flat_map (fun df => match getitem df "Year" with Ok s => s | Err _ => [] end) frames
      = flat_map (fun yr => repeat (Num (num_of_Z (fst yr))) (nrows (snd yr)))
          (combine ys records).
Proof.
  intros Hwf. induction ys as [|y ys IH]; intros frames E; simpl in E.
  - injection E as <-. exists []. split; [reflexivity|]. split; [intros df []|reflexivity].
  - inv_bind E as f Hf. inv_bind E as fs' Hfs. injection E as <-.
    destruct (IH _ Hfs) as (records & Hrec & Hall & Hflat).
    unfold season in Hf. inv_bind Hf as players Hp. injection Hf as <-.
    assert (Hy : getitem (setitem players "Year" (repeat (Num (num_of_Z y)) (nrows players)))
                   "Year" = Ok (repeat (Num (num_of_Z y)) (nrows players))).
    { apply getitem_setitem; [|apply repeat_length].
      eapply load_and_preprocess_data_wf; [apply Hwf | exact Hp]. }
    exists (players :: records). simpl. rewrite Hp. cbn [bind]. rewrite Hrec. cbn [bind].
    split; [reflexivity|]. split.
    + intros df [<-|Hdf]; [eauto | auto].
    + rewrite Hy, Hflat. reflexivity.
Qed.

(** X18: when the raw tables are rectangular and the merged records have
    distinct labels, the [Year] column of the concatenated dataset lists,
    season after season from 2019 to 2023, the year of the season once for
    every row of its merged record: every row is stamped with the year it
    was loaded for. *)
Theorem every_row_carries_its_season :
  forall (num : Type) (A : Arith num) (fs : raw_data num) (df : DataFrame num),
    (forall year category t, fs year category = Ok t -> wf t) ->
    (forall year players,
       load_and_preprocess_data fs year = Ok players -> NoDup (columns players)) ->
    all_players_df fs = Ok df ->
    exists records,
      mapM (load_and_preprocess_data fs) seasons = Ok records /\
      getitem df "Year"
      = Ok (flat_map (fun yr => repeat (Num (num_of_Z (fst yr))) (nrows (snd yr)))
              (combine seasons records)).
Proof.
  intros num A fs df Hwf _ Hdf. unfold all_players_df, all_players in Hdf.
  inv_bind Hdf as frames Hf.
  destruct (season_year fs Hwf _ _ Hf) as (records & Hrec & Hall & Hflat).
  exists records. split; [assumption|]. rewrite <- Hflat.
  apply concat_getitem; [assumption|]. intros f Hin.
  destruct (Hall f Hin) as (s & ->). reflexivity.
Qed.

Lemma sample_files_wf year category t : Sample.files year category = Ok t -> wf t.
Proof.
  unfold Sample.files.
  destruct (String.eqb category "passing"); [intros [= <-]; reflexivity|].
  destruct (String.eqb category "rushing"); [intros [= <-]; reflexivity|].
  destruct (String.eqb category "receiving"); [intros [= <-]; reflexivity|].
  discriminate.
Qed.

Lemma sample_files_labels year players :
  load_and_preprocess_data Sample.files year = Ok players -> NoDup (columns players).
Proof.
  intros E. vm_compute in E. injection E as <-. cbn [columns].
  repeat constructor; simpl; intuition discriminate.
Qed.

Lemma every_row_carries_its_season_witness :
  exists df records,
    all_players_df Sample.files = Ok df /\
    mapM (load_and_preprocess_data Sample.files) seasons = Ok records /\
    getitem df "Year"
    = Ok (flat_map (fun yr => repeat (Num (num_of_Z (fst yr))) (nrows (snd yr)))
            (combine seasons records)).
Proof.
  eexists.
  destruct (every_row_carries_its_season float float64 Sample.files _
              sample_files_wf sample_files_labels eq_refl)
    as (records & Hrec & Hyear).
  exists records. split; [reflexivity|]. split; assumption.
Defined.

(* ================================================================== *)
(** * More on the notebook *)





Lemma groupby_mean_ext {num} `{Arith num} (df df' : DataFrame num) by_ label :
  getitem df' by_ = getitem df by_ -> getitem df' label = getitem df label ->
  groupby_mean df' by_ label = groupby_mean df by_ label.
Proof.
  intros E1 E2. unfold groupby_mean, groupby. rewrite E1, E2. reflexivity.
Qed.

(** X20: what the notebook reports is computed from the dataset it read:
    the summary, the correlations, the histogram and the ranking before the
    [Position] column is assigned; after it, the box plot pairs the new
    positions with the [FantasyPoints] read before, the statistics by
    position group these same points by the new positions, and the yearly
    averages are those of the dataset read: the assignment changes none of
    the columns read later. *)
Theorem report_reads_the_dataset :
  forall (num : Type) (A : Arith num) (df df' : DataFrame num) (rep : report num),
    wf df -> analysis df = Ok (rep, df') ->
    summary rep = describe_frame df /\
    heatmap rep = corr df /\
    getitem df "FantasyPoints" = Ok (histplot rep) /\
    top_players df = Ok (ranking rep) /\
    groupby_mean df "Year" "FantasyPoints" = Ok (yearly_avg rep) /\
    exists players positions,
      getitem df "Player" = Ok players /\
      apply position players = Ok positions /\
      boxplot rep = (positions, histplot rep) /\
      position_stats rep
      = map (fun k => (k, describe (group_of positions (histplot rep) k)))
          (sort_by key_leb (unique (dropna positions))).
Proof.
  intros num A df df' rep Hwf Hrun. unfold analysis in Hrun.
  apply sbind_Ok in Hrun. destruct Hrun as (a1 & d1 & H1 & Hrun).
  apply reads_Ok in H1. destruct H1 as [H1 ->].
  apply sbind_Ok in Hrun. destruct Hrun as (a2 & d2 & H2 & Hrun).
  apply reads_Ok in H2. destruct H2 as [H2 ->].
  apply sbind_Ok in Hrun. destruct Hrun as (a3 & d3 & H3 & Hrun).
  apply reads_Ok in H3. destruct H3 as [H3 ->].
  apply sbind_Ok in Hrun. destruct Hrun as (a4 & d4 & H4 & Hrun).
  apply reads_Ok in H4. destruct H4 as [H4 ->].
  apply sbind_Ok in Hrun. destruct Hrun as (u & d5 & Hpos & Hrun).
  apply sbind_Ok in Hrun. destruct Hrun as (a6 & d6 & H6 & Hrun).
  apply reads_Ok in H6. destruct H6 as [H6 ->].
  apply sbind_Ok in Hrun. destruct Hrun as (a7 & d7 & H7 & Hrun).
  apply reads_Ok in H7. destruct H7 as [H7 ->].
  apply sbind_Ok in Hrun. destruct Hrun as (a8 & d8 & H8 & Hrun).
  apply reads_Ok in H8. destruct H8 as [H8 ->].
  unfold sret in Hrun. injection Hrun as <- <-. cbn [summary heatmap histplot ranking
    boxplot position_stats yearly_avg].
  injection H1 as <-. injection H2 as <-.
  unfold extract_position in Hpos.
  apply assigns_Ok in Hpos. destruct Hpos as (positions & Hpos & ->).
  inv_bind Hpos as players Hplayers.
  assert (Hlen : length positions = nrows df).
  { unfold apply in Hpos. rewrite (mapM_length _ _ _ Hpos). eapply getitem_length; eauto. }
  destruct (setitem_frame df "Position" positions Hlen) as (_ & _ & Hother).
  specialize (Hother Hwf).
  pose proof (getitem_setitem df "Position" positions Hwf Hlen) as Hnew.
  assert (Hpts : getitem (setitem df "Position" positions) "FantasyPoints" = Ok a3)
    by (rewrite Hother by discriminate; assumption).
  split; [reflexivity|]. split; [reflexivity|]. split; [assumption|]. split; [assumption|].
  split.
  - rewrite <- H8. symmetry. apply groupby_mean_ext; apply Hother; discriminate.
  - exists players, positions. split; [assumption|]. split; [assumption|]. split.
    + rewrite Hnew, Hpts in H7. cbn [bind] in H7. congruence.
    + unfold groupby in H6. rewrite Hnew, Hpts in H6. cbn [bind snd] in H6.
      injection H6 as <-. rewrite map_map. reflexivity.
Qed.

Lemma report_reads_the_dataset_witness :
  exists rep df',
    analysis Sample.dataset = Ok (rep, df') /\
    summary rep = describe_frame Sample.dataset /\
    heatmap rep = corr Sample.dataset /\
    getitem Sample.dataset "FantasyPoints" = Ok (histplot rep) /\
    top_players Sample.dataset = Ok (ranking rep) /\
    groupby_mean Sample.dataset "Year" "FantasyPoints" = Ok (yearly_avg rep).
Proof.
  eexists. eexists. split; [vm_compute; reflexivity|].
  destruct (report_reads_the_dataset float float64 Sample.dataset _ _ eq_refl eq_refl)
    as (H1 & H2 & H3 & H4 & H5 & _).
  split; [exact H1|]. split; [exact H2|]. split; [exact H3|]. split; [exact H4|exact H5].
Defined.




Section Correlation.
Local Open Scope R_scope.

Lemma paired_swap (a b : list (cell R)) :
  flat_map (fun ab : cell R * cell R =>
              match ab with (Num x, Num y) => [(x, y)] | _ => [] end) (combine b a)
  = map (fun p => (snd p, fst p))
      (flat_map (fun ab : cell R * cell R =>
                   match ab with (Num x, Num y) => [(x, y)] | _ => [] end) (combine a b)).
Proof.
  revert b; induction a as [|x a IH]; intros [|y b]; simpl; try reflexivity.
  rewrite IH. destruct x, y; reflexivity.
Qed.

Lemma map_fst_swap (P : list (R * R)) : map fst (map (fun p => (snd p, fst p)) P) = map snd P.
Proof. rewrite map_map. apply map_ext. reflexivity. Qed.

Lemma map_snd_swap (P : list (R * R)) : map snd (map (fun p => (snd p, fst p)) P) = map fst P.
Proof. rewrite map_map. apply map_ext. reflexivity. Qed.

Lemma pearson_sym (a b : list (cell R)) : pearson a b = pearson b a.
Proof.
  unfold pearson. cbv zeta. rewrite (paired_swap a b).
  set (P := flat_map _ (combine a b)). clearbody P.
  rewrite map_fst_swap, map_snd_swap, !map_map. cbn [fst snd].
  match goal with
  | |- match _ with [] => _ | _ :: _ => ?X end = match _ with [] => _ | _ :: _ => ?Y end =>
      assert (Hif : X = Y); [|destruct P; [reflexivity | exact Hif]]
  end.
  to_R.
  set (sxx := total (map (fun p : R * R => (fst p - _) * (fst p - _)) P)).
  set (syy := total (map (fun p : R * R => (snd p - _) * (snd p - _)) P)).
  rewrite (Rmult_comm syy sxx).
  replace (total (map (fun x : R * R => (snd x - mean (map snd P)) * (fst x - mean (map fst P))) P))
    with (total (map (fun p : R * R => (fst p - mean (map fst P)) * (snd p - mean (map snd P))) P));
    [reflexivity|].
  f_equal. apply map_ext. intros p. apply Rmult_comm.
Qed.

Lemma paired_diag (a : list (cell R)) :
  flat_map (fun ab : cell R * cell R =>
              match ab with (Num x, Num y) => [(x, y)] | _ => [] end) (combine a a)
  = map (fun x => (x, x)) (numbers a).
Proof.
  induction a as [|c a IH]; [reflexivity|]. simpl. rewrite IH. destruct c; reflexivity.
Qed.

Lemma map_fst_diag (l : list R) : map fst (map (fun x => (x, x)) l) = l.
Proof. rewrite map_map. apply map_id. Qed.

Lemma map_snd_diag (l : list R) : map snd (map (fun x => (x, x)) l) = l.
Proof. rewrite map_map. apply map_id. Qed.

(** The correlation of a column with itself. *)
Lemma pearson_diag (a : list (cell R)) :
  pearson a a = if Reqb (variance (numbers a)) 0 then NaN else Num 1.
Proof.
  unfold pearson. cbv zeta. rewrite paired_diag.
  rewrite map_fst_diag, map_snd_diag, !map_map. cbn [fst snd].
  generalize (numbers a). intros xs.
  assert (HS : 0 <= total (map (fun x => (x - mean xs) * (x - mean xs)) xs))
    by (apply total_nonneg; apply squares_nonneg).
  assert (Hv : variance xs
               = total (map (fun x => (x - mean xs) * (x - mean xs)) xs) / count xs).
  { unfold variance, mean at 1. cbv zeta. unfold count. rewrite length_map. reflexivity. }
  rewrite Hv. to_R. rewrite sqrt_square by assumption.
  destruct xs as [|x0 xs'].
  - cbn [map]. rewrite total_nil. unfold Rdiv. rewrite Rmult_0_l.
    unfold Reqb. destruct (Req_dec_T 0 0); [reflexivity|congruence].
  - assert (Hn : 0 < count (x0 :: xs')) by (apply count_pos; discriminate).
    to_R. cbn [map].
    change ((x0 - mean (x0 :: xs')) * (x0 - mean (x0 :: xs'))
            :: map (fun x => (x - mean (x0 :: xs')) * (x - mean (x0 :: xs'))) xs')
      with (map (fun x => (x - mean (x0 :: xs')) * (x - mean (x0 :: xs'))) (x0 :: xs')) in *.
    set (S := total (map (fun x => (x - mean (x0 :: xs')) * (x - mean (x0 :: xs')))
                       (x0 :: xs'))) in *.
    set (n := IZR (Z.of_nat (length (x0 :: xs')))) in *.
    unfold Reqb.
    destruct (Req_dec_T S 0) as [Hz|Hz], (Req_dec_T (S / n) 0) as [Hz'|Hz'].
    + reflexivity.
    + exfalso. apply Hz'. rewrite Hz. unfold Rdiv. apply Rmult_0_l.
    + exfalso. apply Hz. unfold Rdiv in Hz'.
      apply Rmult_integral in Hz'. destruct Hz' as [Hz'|Hz']; [assumption|].
      exfalso. revert Hz'. apply Rinv_neq_0_compat. lra.
    + f_equal. field. assumption.
Qed.

Lemma entry_corr (df : DataFrame R) i j :
  entry (corr df) i j
  = if (i <? length (numeric_columns df))%nat && (j <? length (numeric_columns df))%nat
    then pearson (snd (nth i (numeric_columns df) (EmptyString, [])))
                 (snd (nth j (numeric_columns df) (EmptyString, [])))
    else NaN.
Proof.
  unfold entry, corr. cbv zeta. set (cols := numeric_columns df).
  destruct (Nat.ltb_spec i (length cols)) as [Hi|Hi].
  - rewrite (nth_map_in _ _ _ _ (EmptyString, [])) by assumption. cbn [snd andb].
    destruct (Nat.ltb_spec j (length cols)) as [Hj|Hj].
    + rewrite (nth_map_in _ _ _ _ (EmptyString, [])) by assumption. reflexivity.
    + apply nth_overflow. rewrite length_map. assumption.
  - rewrite (nth_overflow (map _ cols)) by (rewrite length_map; assumption).
    cbn [snd andb].
    destruct j; reflexivity.
Qed.

End Correlation.

(** X22: over the reals, the correlation of two columns does not depend on
    their order, so the matrix drawn as a heat map is symmetric; the
    correlation of a column with itself is 1, and missing when the column
    has zero variance. *)
Theorem correlations_are_symmetric :
  (forall a b : list (cell R), pearson a b = pearson b a) /\
  (forall (df : DataFrame R) (i j : nat), entry (corr df) i j = entry (corr df) j i) /\
  (forall a : list (cell R), variance (numbers a) <> 0%R -> pearson a a = Num 1%R) /\
  (forall a : list (cell R), variance (numbers a) = 0%R -> pearson a a = NaN).
Proof.
  split; [exact pearson_sym|]. split; [|split].
  - intros df i j. rewrite !entry_corr, andb_comm.
    destruct (_ && _); [apply pearson_sym | reflexivity].
  - intros a Hv. rewrite pearson_diag. unfold Reqb.
    destruct (Req_dec_T (variance (numbers a)) 0); [contradiction | reflexivity].
  - intros a Hv. rewrite pearson_diag, Hv. unfold Reqb.
    destruct (Req_dec_T 0 0); [reflexivity | congruence].
Qed.

Lemma correlations_are_symmetric_witness :
  pearson [Num 1%R; Num 3%R] [Num 3%R; Num 1%R]
  = pearson [Num 3%R; Num 1%R] [Num 1%R; Num 3%R] /\
  entry (corr Sample.scores) 0 1 = entry (corr Sample.scores) 1 0.
Proof.
  destruct correlations_are_symmetric as (Hsym & Hcorr & _).
  split; [apply Hsym | apply Hcorr].
Defined.

(* ================================================================== *)
(** * The pipeline as a whole *)

Lemma mapM_ext_in {A B} (f g : A -> result B) (l : list A) :
  (forall a, In a l -> f a = g a) -> mapM f l = mapM g l.
Proof.
  induction l as [|a l IH]; intros E; simpl; [reflexivity|].
  rewrite (E a) by (left; reflexivity). rewrite IH; [reflexivity|].
  intros b Hb. apply E. right. assumption.
Qed.

(** X23: the merge job reads the passing, rushing and receiving files of
    the five seasons and nothing else: the defense files the collector
    writes, and the files of any other year, have no effect on the merged
    and on the normalised dataset. *)
Theorem merger_reads_three_tables :
  forall (num : Type) (A : Arith num) (fs fs' : raw_data num),
    (forall year category,
       In year seasons -> In category ["passing"; "rushing"; "receiving"]%string ->
       fs year category = fs' year category) ->
    all_players_df fs = all_players_df fs' /\
    all_players_scaled fs = all_players_scaled fs'.
Proof.
  intros num A fs fs' Hsame.
  assert (Hdf : all_players_df fs = all_players_df fs').
  { unfold all_players_df, all_players. f_equal. apply mapM_ext_in. intros year Hy.
    unfold season, load_and_preprocess_data.
    rewrite !(Hsame year) by (assumption || (simpl; auto)). reflexivity. }
  split; [assumption|]. unfold all_players_scaled. rewrite Hdf. reflexivity.
Qed.

Lemma merger_reads_three_tables_witness :
  Sample.archive 2023%Z "defense"%string <> Sample.files 2023%Z "defense"%string /\
  all_players_df Sample.files = all_players_df Sample.archive /\
  all_players_scaled Sample.files = all_players_scaled Sample.archive.
Proof.
  split; [discriminate|].
  apply (merger_reads_three_tables float float64 Sample.files Sample.archive).
  intros year category _ [<-|[<-|[<-|[]]]]; reflexivity.
Defined.

Lemma mapM_Err_inv {A B} (f : A -> result B) (l : list A) e :
  mapM f l = Err e -> exists a, In a l /\ f a = Err e.
Proof.
  induction l as [|a l IH]; simpl; [discriminate|].
  destruct (f a) as [b|e'] eqn:Ha; simpl.
  - destruct (mapM f l) as [bs|e'']; simpl; [discriminate|].
    intros [= <-]. destruct (IH eq_refl) as (x & Hx & Hfx). eauto.
  - intros [= <-]. eauto.
Qed.

Lemma get_loc_Err cols label e : get_loc cols label = Err e -> e = KeyError label.
Proof. unfold get_loc. destruct (index_of label cols); [discriminate | congruence]. Qed.

Lemma merge_Err {num} `{Arith num} (left right : DataFrame num) on suffixes e :
  merge left right on suffixes = Err e -> exists key, In key on /\ e = KeyError key.
Proof.
  unfold merge. destruct (mapM (get_loc (columns left)) on) as [lk|e1] eqn:Hl; cbn [bind].
  - destruct (mapM (get_loc (columns right)) on) as [rk|e2] eqn:Hr; cbn [bind];
      [discriminate|].
    intros [= <-]. destruct (mapM_Err_inv _ _ _ Hr) as (k & Hk & E).
    exists k. split; [assumption | eapply get_loc_Err; eauto].
  - intros [= <-]. destruct (mapM_Err_inv _ _ _ Hl) as (k & Hk & E).
    exists k. split; [assumption | eapply get_loc_Err; eauto].
Qed.

Lemma merge_season_Err {num} `{Arith num} (passing rushing receiving : DataFrame num) e :
  merge_season passing rushing receiving = Err e ->
  exists key, In key join_keys /\ e = KeyError key.
Proof.
  unfold merge_season.
  destruct (merge passing rushing join_keys _) as [first|e1] eqn:H1; cbn [bind].
  - destruct (merge first receiving join_keys _) as [both|e2] eqn:H2; cbn [bind];
      [discriminate|].
    intros [= <-]. eapply merge_Err; eauto.
  - intros [= <-]. eapply merge_Err; eauto.
Qed.

Lemma getitem_Err {num} `{Arith num} (df : DataFrame num) label e :
  getitem df label = Err e -> e = KeyError label.
Proof.
  unfold getitem. destruct (get_loc (columns df) label) eqn:E; cbn [bind]; [discriminate|].
  intros [= <-]. eapply get_loc_Err; eauto.
Qed.

Lemma weighted_Err {num} `{Arith num} (df : DataFrame num) label w e :
  weighted df label w = Err e -> e = KeyError label \/ e = TypeError.
Proof.
  unfold weighted. destruct (getitem df label) as [s|e1] eqn:Hs; cbn [bind].
  - intros E. right. destruct (mapM_Err_inv _ _ _ E) as (c & _ & Hc).
    destruct c; simpl in Hc; congruence.
  - intros [= <-]. left. eapply getitem_Err; eauto.
Qed.

Lemma series_add_Err {num} `{Arith num} (a b : list (cell num)) e :
  series_add a b = Err e -> e = TypeError.
Proof.
  unfold series_add. intros E. destruct (mapM_Err_inv _ _ _ E) as ([x y] & _ & Hxy).
  cbn [fst snd] in Hxy. destruct x, y; simpl in Hxy; congruence.
Qed.

Lemma weighted_sum_Err {num} `{Arith num} (df : DataFrame num) terms : forall acc e,
  weighted_sum df acc terms = Err e ->
  (exists label, In label (map fst terms) /\ e = KeyError label) \/ e = TypeError.
Proof.
  induction terms as [|[label w] rest IH]; intros acc e; simpl; [discriminate|].
  destruct (weighted df label w) as [t|e1] eqn:Ht; cbn [bind].
  - destruct (series_add acc t) as [acc'|e2] eqn:Ha; cbn [bind].
    + intros E. destruct (IH _ _ E) as [(l & Hl & ->)| ->]; [left|right]; eauto.
    + intros [= <-]. right. eapply series_add_Err; eauto.
  - intros [= <-]. destruct (weighted_Err _ _ _ _ Ht) as [->| ->]; [left|right]; eauto.
Qed.

Lemma fantasy_points_Err {num} `{Arith num} (df : DataFrame num) e :
  fantasy_points df = Err e ->
  (exists label, In label scored_labels /\ e = KeyError label) \/ e = TypeError.
Proof.
  unfold fantasy_points, scored_labels, scoring. cbv beta iota.
  destruct (weighted df "Yds_pass" (dec 4 2)) as [t|e1] eqn:Ht; cbn [bind].
  - intros E. destruct (weighted_sum_Err _ _ _ _ E) as [(l & Hl & ->)| ->]; [left|right; auto].
    exists l. split; [right; exact Hl | reflexivity].
  - intros [= <-]. destruct (weighted_Err _ _ _ _ Ht) as [->| ->]; [left|right; auto].
    eexists. split; [left; reflexivity | reflexivity].
Qed.

(** X24: after a successful collection the merge job finds the passing,
    rushing and receiving files of each of the five seasons: loading a
    season never fails for want of a file. *)
Theorem merger_finds_the_collected_files :
  forall (num : Type) (A : Arith num) (site : web num) (year : Z),
    snd (collector site) = Ok tt ->
    In year seasons ->
    (forall category, In category ["passing"; "rushing"; "receiving"]%string ->
       exists table, read_csv (fst (collector site)) year category = Ok table) /\
    load_and_preprocess_data (read_csv (fst (collector site))) year
    <> Err FileNotFoundError.
Proof.
  intros num A site year Hok Hy.
  destruct (collected_seasons site Hok year Hy) as ([[[p r] c] d] & Hs).
  destruct (collected_tables site year p r c d Hok Hy Hs) as (Hp & Hr & Hc & _).
  split.
  - intros category [<-|[<-|[<-|[]]]]; eauto.
  - unfold load_and_preprocess_data. rewrite Hp, Hr, Hc. cbn [bind].
    destruct (merge_season p r c) as [players|e] eqn:Hm; cbn [bind].
    + destruct (fantasy_points players) as [pts|e] eqn:Hpts; cbn [bind]; [discriminate|].
      destruct (fantasy_points_Err _ _ Hpts) as [(l & _ & ->)| ->]; discriminate.
    + destruct (merge_season_Err _ _ _ _ Hm) as (k & _ & ->). discriminate.
Qed.

Lemma merger_finds_the_collected_files_witness :
  (forall category, In category ["passing"; "rushing"; "receiving"]%string ->
     exists table, read_csv (fst (collector Sample.site)) 2023 category = Ok table) /\
  load_and_preprocess_data (read_csv (fst (collector Sample.site))) 2023
  <> Err FileNotFoundError.
Proof.
  apply (merger_finds_the_collected_files float float64 Sample.site 2023%Z).
  - vm_compute. reflexivity.
  - vm_compute. tauto.
Defined.

(** X25: a season whose tables hold text in their [Player] and [Tm]
    columns fails to load only in these ways: one of its three files cannot
    be read; a table lacks one of the join keys ([KeyError]); the merged
    record lacks a label the scoring reads ([KeyError]); or a scored column
    holds text ([TypeError]). *)
Theorem load_and_preprocess_data_errors :
  forall (num : Type) (A : Arith num) (fs : raw_data num) (year : Z) (e : error),
    (forall category table key s,
       fs year category = Ok table -> In key join_keys ->
       getitem table key = Ok s -> forallb is_text s = true) ->
    load_and_preprocess_data fs year = Err e ->
    (exists category,
       In category ["passing"; "rushing"; "receiving"]%string /\
       fs year category = Err e) \/
    (exists key, In key join_keys /\ e = KeyError key) \/
    (exists label, In label scored_labels /\ e = KeyError label) \/
    e = TypeError.
Proof.
  intros num A fs year e _. unfold load_and_preprocess_data.
  destruct (fs year "passing"%string) as [p|e1] eqn:Hp; cbn [bind];
    [|intros [= <-]; left; exists "passing"%string; simpl; auto].
  destruct (fs year "rushing"%string) as [r|e2] eqn:Hr; cbn [bind];
    [|intros [= <-]; left; exists "rushing"%string; simpl; auto].
  destruct (fs year "receiving"%string) as [c|e3] eqn:Hc; cbn [bind];
    [|intros [= <-]; left; exists "receiving"%string; simpl; auto].
  destruct (merge_season p r c) as [players|e4] eqn:Hm; cbn [bind];
    [|intros [= <-]; right; left; eapply merge_season_Err; eauto].
  destruct (fantasy_points players) as [pts|e5] eqn:Hs; cbn [bind]; [discriminate|].
  intros [= <-]. right. right. eapply fantasy_points_Err; eauto.
Qed.

Lemma load_and_preprocess_data_errors_witness :
  load_and_preprocess_data Sample.colliding_files 2023 = Err (KeyError "Int") /\
  ((exists category,
      In category ["passing"; "rushing"; "receiving"]%string /\
      Sample.colliding_files 2023%Z category = Err (KeyError "Int")) \/
   (exists key, In key join_keys /\ KeyError "Int" = KeyError key) \/
   (exists label, In label (scored_labels (num:=float)) /\ KeyError "Int" = KeyError label) \/
   KeyError "Int" = TypeError).
Proof.
  split; [vm_compute; reflexivity|].
  apply (load_and_preprocess_data_errors float float64 Sample.colliding_files 2023%Z).
  - intros category table key s Ht Hk Hs. unfold Sample.colliding_files in Ht.
    destruct (String.eqb category "passing");
      [|destruct (String.eqb category "rushing");
        [|destruct (String.eqb category "receiving"); [|discriminate]]];
      injection Ht as <-; destruct Hk as [<-|[<-|[]]];
      vm_compute in Hs; injection Hs as <-; reflexivity.
  - vm_compute. reflexivity.
Defined.

(* ================================================================== *)
(** * What the normalisation does to the merged dataset *)

Lemma load_points {num} `{Arith num} (fs : raw_data num) year players :
  (forall category t, fs year category = Ok t -> wf t) ->
  load_and_preprocess_data fs year = Ok players ->
  exists points,
    getitem players "FantasyPoints" = Ok points /\
    Forall (fun c => exists x, c = Num x) points.
Proof.
  intros Hwf Hload. unfold load_and_preprocess_data in Hload.
  inv_bind Hload as passing Hp. inv_bind Hload as rushing Hr.
  inv_bind Hload as receiving Hc. inv_bind Hload as merged Hm.
  inv_bind Hload as pts Hpts. injection Hload as <-.
  destruct (merge_season_wf _ _ _ _ (Hwf _ _ Hp) (Hwf _ _ Hr) (Hwf _ _ Hc) Hm) as [Wm Hna].
  apply fantasy_points_rows in Hpts.
  exists pts. split.
  - apply getitem_setitem; [assumption|]. symmetry. eapply Forall2_length; eauto.
  - eapply Forall2_Forall_r; [exact Hpts|]. intros r p Hin (i & a & Hi & Ha & Hsum).
    destruct (row_score (columns merged) r i a p (wf_row _ _ Wm Hin)
                (fun c => Hna r c Hin) Hi Ha Hsum)
      as (x1 & x2 & x3 & x4 & x5 & x6 & x7 & x8 & _ & _ & _ & _ & _ & _ & _ & _ & ->).
    eauto.
Qed.

Lemma season_numbers {num} `{Arith num} (fs : raw_data num) year df label :
  (forall year category t, fs year category = Ok t -> wf t) ->
  season fs year = Ok df ->
  In label ["Year"; "FantasyPoints"]%string ->
  exists s, getitem df label = Ok s /\ Forall (fun c => exists x, c = Num x) s.
Proof.
  intros Hwf Hs Hl. unfold season in Hs. inv_bind Hs as players Hp. injection Hs as <-.
  pose proof (load_and_preprocess_data_wf fs year players (Hwf year) Hp) as Wp.
  destruct Hl as [<-|[<-|[]]].
  - eexists. split; [apply getitem_setitem; [assumption | apply repeat_length]|].
    apply Forall_forall. intros c Hc. apply repeat_spec in Hc. eauto.
  - destruct (load_points fs year players (Hwf year) Hp) as (pts & Hpts & Hnum).
    exists pts. split; [|assumption].
    destruct (setitem_frame players "Year" (repeat (Num (num_of_Z year)) (nrows players))
                (repeat_length _ _)) as (_ & _ & Hother).
    rewrite Hother by (assumption || discriminate). assumption.
Qed.

Lemma Forall2_In_r {X Y} (P : X -> Y -> Prop) l l' y :
  Forall2 P l l' -> In y l' -> exists x, In x l /\ P x y.
Proof.
  induction 1 as [|a b l l' Hab _ IH]; intros Hin; [destruct Hin|].
  destruct Hin as [<-|Hin]; [exists a; simpl; auto|].
  destruct (IH Hin) as (x & Hx & Hp). exists x. simpl. auto.
Qed.

Lemma numbers_is_numeric {num} `{Arith num} (s : list (cell num)) :
  Forall (fun c => exists x, c = Num x) s -> is_numeric s = true.
Proof.
  unfold is_numeric. induction 1 as [|c s (x & ->) _ IH]; simpl; auto.
Qed.

Lemma getitem_column {num} `{Arith num} (df : DataFrame num) label s :
  getitem df label = Ok s ->
  exists j, index_of label (columns df) = Some j /\ j < length (columns df) /\
            s = column df j.
Proof.
  unfold getitem. intros E. inv_bind E as j Hj. injection E as <-.
  apply get_loc_index in Hj. exists j. split; [assumption|]. split; [|reflexivity].
  apply index_of_Some in Hj. tauto.
Qed.

(** X26: the normalisation treats [Year] and [FantasyPoints] like any other
    numeric column of the merged dataset: both hold numbers only, and the
    normalised dataset holds, in their place, each year and each score
    minus the mean of its column, divided by the scale of the column.
    (Raw tables rectangular, merged records with distinct labels.) *)
Theorem normalisation_rewrites_year_and_points :
  forall (num : Type) (A : Arith num) (fs : raw_data num) (df out : DataFrame num),
    (forall year category t, fs year category = Ok t -> wf t) ->
    (forall year players,
       load_and_preprocess_data fs year = Ok players -> NoDup (columns players)) ->
    all_players_df fs = Ok df ->
    scale_features df = Ok out ->
    forall label, In label ["Year"; "FantasyPoints"]%string ->
      exists s,
        getitem df label = Ok s /\
        Forall (fun c => exists x, c = Num x) s /\
        getitem out label = Ok (map (standardize s) s).
Proof.
  intros num A fs df out Hwf _ Hdf Hs label Hl.
  pose proof (all_players_df_wf fs df Hdf) as Wdf.
  unfold all_players_df, all_players in Hdf. inv_bind Hdf as frames Hf.
  apply mapM_Forall2 in Hf.
  assert (Hall : forall f, In f frames ->
            exists s, getitem f label = Ok s /\ Forall (fun c => exists x, c = Num x) s).
  { intros f Hin. destruct (Forall2_In_r _ _ _ _ Hf Hin) as (y & _ & Hy).
    eapply season_numbers; eauto. }
  set (col := fun f : DataFrame num =>
                match getitem f label with Ok s => s | Err _ => [] end).
  assert (Hget : getitem df label = Ok (flat_map col frames)).
  { apply concat_getitem; [assumption|]. intros f Hin. unfold col.
    destruct (Hall f Hin) as (s & -> & _). reflexivity. }
  assert (Hnum : Forall (fun c => exists x, c = Num x) (flat_map col frames)).
  { apply Forall_forall. intros c Hc. apply in_flat_map in Hc.
    destruct Hc as (f & Hin & Hc). unfold col in Hc.
    destruct (Hall f Hin) as (s & E & Hs'). rewrite E in Hc.
    rewrite Forall_forall in Hs'. auto. }
  exists (flat_map col frames). split; [assumption|]. split; [assumption|].
  destruct (getitem_column _ _ _ Hget) as (j & Hj & Hlt & Hcol).
  destruct (scale_features_column df out j Wdf Hs Hlt) as [Hcols Hout].
  unfold getitem, get_loc. rewrite Hcols, Hj. cbn [bind]. f_equal.
  fold (column out j). rewrite Hout, <- Hcol. apply map_ext. intros c.
  unfold scale_cell. cbn [fst snd]. rewrite (numbers_is_numeric _ Hnum). reflexivity.
Qed.

Lemma normalisation_rewrites_year_and_points_witness :
  exists df out,
    all_players_df Sample.files = Ok df /\
    scale_features df = Ok out /\
    forall label, In label ["Year"; "FantasyPoints"]%string ->
      exists s,
        getitem df label = Ok s /\
        Forall (fun c => exists x, c = Num x) s /\
        getitem out label = Ok (map (standardize s) s).
Proof.
  eexists. eexists. split; [vm_compute; reflexivity|]. split; [vm_compute; reflexivity|].
  apply (normalisation_rewrites_year_and_points float float64 Sample.files _ _
           sample_files_wf sample_files_labels);
    vm_compute; reflexivity.
Defined.

(* ================================================================== *)
(** * The summary statistics *)

Section Quartiles.
Local Open Scope R_scope.

Lemma Rleb_total (a b : R) : Rleb a b = true \/ Rleb b a = true.
Proof. rewrite !Rleb_true. lra. Qed.

Lemma sorted_numbers (l : list R) : StronglySorted Rle (sort_by Rleb l).
Proof.
  apply Sorted_StronglySorted; [intros a b c; apply Rle_trans|].
  eapply Sorted_impl; [|apply sort_by_sorted; apply Rleb_total].
  intros a b. apply Rleb_true.
Qed.

Lemma nth_sorted (l : list R) (i j : nat) (d d' : R) :
  StronglySorted Rle l -> (i <= j)%nat -> (j < length l)%nat -> nth i l d <= nth j l d'.
Proof.
  intros Hs. revert i j. induction Hs as [|x l Hs IH Hall]; intros i j Hij Hj;
    simpl in Hj; [lia|].
  destruct i as [|i], j as [|j]; simpl; try lia.
  - lra.
  - rewrite Forall_forall in Hall. apply Hall. apply nth_In. lia.
  - apply IH; lia.
Qed.

(** The value [quartile] interpolates at the position [p] quarters. *)
Lemma quartile_value (k : nat) (x0 : R) (l : list R) :
  quartile k (x0 :: l)
  = Num (let p := (k * length l)%nat in
         let lo := nth (p / 4) (x0 :: l) x0 in
         let hi := nth (S (p / 4)) (x0 :: l) lo in
         lo + (hi - lo) * (INR (p mod 4) / 4)).
Proof.
  unfold quartile, num_of_nat. cbv zeta. to_R.
  replace (length (x0 :: l) - 1)%nat with (length l) by (simpl; lia).
  rewrite <- !INR_IZR_INZ. simpl (INR 4). f_equal. f_equal. f_equal. f_equal. lra.
Qed.

Lemma quarter_bounds (p : nat) : 0 <= INR (p mod 4) / 4 < 1.
Proof.
  assert (Hm : (p mod 4 < 4)%nat) by (apply Nat.mod_upper_bound; lia).
  assert (H0 : 0 <= INR (p mod 4)) by apply pos_INR.
  assert (H4 : INR (p mod 4) <= 3).
  { replace 3 with (INR 3) by (simpl; lra). apply le_INR. lia. }
  lra.
Qed.

(** The interpolated value at [p] quarters lies between the values of the
    sorted list next to it, and grows with [p]. *)
Lemma interpolation_between (s : list R) (x0 : R) (p : nat) :
  StronglySorted Rle s -> (p / 4 < length s)%nat ->
  let lo := nth (p / 4) s x0 in
  let hi := nth (S (p / 4)) s lo in
  lo <= lo + (hi - lo) * (INR (p mod 4) / 4) <= hi /\ lo <= hi.
Proof.
  intros Hs Hp lo hi.
  assert (Hlh : lo <= hi).
  { unfold hi. destruct (Nat.lt_ge_cases (S (p / 4)) (length s)) as [Hin|Hout].
    - unfold lo. apply nth_sorted; [assumption | lia | assumption].
    - rewrite nth_overflow by lia. lra. }
  pose proof (quarter_bounds p) as Hq. split; [|assumption]. nra.
Qed.

Lemma interpolation_mono (s : list R) (x0 : R) (p q : nat) :
  StronglySorted Rle s -> (p <= q)%nat -> (q / 4 < length s)%nat ->
  nth (p / 4) s x0 + (nth (S (p / 4)) s (nth (p / 4) s x0) - nth (p / 4) s x0)
                     * (INR (p mod 4) / 4)
  <= nth (q / 4) s x0 + (nth (S (q / 4)) s (nth (q / 4) s x0) - nth (q / 4) s x0)
                        * (INR (q mod 4) / 4).
Proof.
  intros Hs Hpq Hq.
  assert (Hdiv : (p / 4 <= q / 4)%nat) by (apply Nat.Div0.div_le_mono; assumption).
  destruct (interpolation_between s x0 p Hs) as [[Hp1 Hp2] Hp3]; [lia|].
  destruct (interpolation_between s x0 q Hs Hq) as [[Hq1 Hq2] Hq3].
  cbv zeta in *.
  destruct (Nat.eq_dec (p / 4) (q / 4)) as [E|E].
  - rewrite E in *. 
    assert (Hmod : (p mod 4 <= q mod 4)%nat).
    { pose proof (Nat.div_mod_eq p 4). pose proof (Nat.div_mod_eq q 4). lia. }
    apply le_INR in Hmod.
    set (lo := nth (q / 4) s x0) in *. set (hi := nth (S (q / 4)) s lo) in *.
    nra.
  - assert (Hlt : (S (p / 4) <= q / 4)%nat) by lia.
    assert (Hmid : nth (S (p / 4)) s (nth (p / 4) s x0) <= nth (q / 4) s x0)
      by (apply nth_sorted; [assumption | lia | lia]).
    lra.
Qed.

End Quartiles.

(** X27: over the reals, the summary of a column with at least one number
    gives the smallest and the largest of its numbers as minimum and
    maximum, and three quartiles in ascending order between them; the count
    is the number of its numbers. *)
Theorem describe_orders_the_quartiles :
  forall (s : list (cell R)),
    numbers s <> [] ->
    exists lo q1 q2 q3 hi : R,
      st_min (describe s) = Num lo /\ st_q25 (describe s) = Num q1 /\
      st_q50 (describe s) = Num q2 /\ st_q75 (describe s) = Num q3 /\
      st_max (describe s) = Num hi /\
      st_count (describe s) = Num (INR (length (numbers s))) /\
      In lo (numbers s) /\ In hi (numbers s) /\
      (forall x, In x (numbers s) -> (lo <= x <= hi)%R) /\
      (lo <= q1)%R /\ (q1 <= q2)%R /\ (q2 <= q3)%R /\ (q3 <= hi)%R.
Proof.
  intros s Hne. unfold describe. cbv zeta. cbn [st_min st_q25 st_q50 st_q75 st_max st_count].
  revert Hne. generalize (numbers s). intros l Hne.
  pose proof (sorted_numbers l) as Hs. pose proof (sort_by_perm Rleb l) as Hperm.
  change (sort_by num_leb l) with (sort_by Rleb l).
  revert Hs Hperm. generalize (sort_by Rleb l). intros sorted Hs Hperm.
  assert (Hlen : length sorted = length l) by (apply Permutation_length; assumption).
  destruct sorted as [|x0 rest] eqn:E.
  { exfalso. apply Hne. apply Permutation_nil. assumption. }
  rewrite <- E in Hs, Hperm, Hlen.
  assert (Hn : length sorted = S (length rest)) by (rewrite E; reflexivity).
  rewrite !quartile_value. cbv zeta.
  assert (Hlast : exists hi tl, rev (x0 :: rest) = hi :: tl /\
                                hi = nth (length rest) (x0 :: rest) x0).
  { destruct (rev (x0 :: rest)) as [|hi tl] eqn:Hrev.
    - apply (f_equal (@length R)) in Hrev. rewrite length_rev in Hrev. discriminate.
    - exists hi, tl. split; [reflexivity|].
      change hi with (nth 0 (hi :: tl) x0). rewrite <- Hrev.
      rewrite rev_nth by (simpl; lia). f_equal. simpl. lia. }
  destruct Hlast as (hi & tl & Hrev & Hhi). rewrite Hrev.
  rewrite <- E.
  assert (Hpos : forall k, (k <= 3)%nat -> (k * length rest / 4 < length sorted)%nat).
  { intros k Hk. rewrite Hn. apply Nat.lt_succ_r. apply Nat.Div0.div_le_upper_bound. nia. }
  eexists x0, _, _, _, hi.
  split; [reflexivity|]. split; [reflexivity|]. split; [reflexivity|].
  split; [reflexivity|]. split; [reflexivity|].
  split; [rewrite count_INR; reflexivity|].
  assert (Hx0 : x0 = nth 0 sorted x0) by (rewrite E; reflexivity).
  assert (Hhi' : hi = nth (length rest) sorted x0) by (rewrite E; assumption).
  split; [apply (Permutation_in _ Hperm); rewrite E; left; reflexivity|].
  split; [apply (Permutation_in _ Hperm); rewrite Hhi'; apply nth_In; lia|].
  split.
  { intros x Hx. apply (Permutation_in _ (Permutation_sym Hperm)) in Hx.
    destruct (In_nth _ _ x0 Hx) as (i & Hi & <-). split.
    - rewrite Hx0 at 1. apply nth_sorted; [assumption | lia | assumption].
    - rewrite Hhi'. apply nth_sorted; [assumption | lia | lia]. }
  destruct (interpolation_between sorted x0 (1 * length rest) Hs (Hpos 1%nat ltac:(lia)))
    as [[H1 _] _].
  destruct (interpolation_between sorted x0 (3 * length rest) Hs (Hpos 3%nat ltac:(lia)))
    as [[_ H3] _].
  cbv zeta in H1, H3.
  split; [|split; [|split]].
  - etransitivity; [|exact H1]. rewrite Hx0 at 1.
    apply nth_sorted; [assumption | lia | apply (Hpos 1%nat); lia].
  - apply interpolation_mono; [assumption | lia | apply (Hpos 2%nat); lia].
  - apply interpolation_mono; [assumption | lia | apply (Hpos 3%nat); lia].
  - etransitivity; [exact H3|].
    destruct (Nat.lt_ge_cases (S (3 * length rest / 4)) (length sorted)) as [Hin|Hout].
    + rewrite Hhi'. apply nth_sorted; [assumption | lia | lia].
    + rewrite nth_overflow by lia. rewrite Hhi'.
      apply nth_sorted; [assumption | | lia].
      pose proof (Hpos 3%nat ltac:(lia)). lia.
Qed.

Lemma describe_orders_the_quartiles_witness :
  exists lo q1 q2 q3 hi : R,
    st_min (describe [Num 1%R; Num 3%R]) = Num lo /\
    st_q25 (describe [Num 1%R; Num 3%R]) = Num q1 /\
    st_q50 (describe [Num 1%R; Num 3%R]) = Num q2 /\
    st_q75 (describe [Num 1%R; Num 3%R]) = Num q3 /\
    st_max (describe [Num 1%R; Num 3%R]) = Num hi /\
    (lo <= q1)%R /\ (q1 <= q2)%R /\ (q2 <= q3)%R /\ (q3 <= hi)%R.
Proof.
  destruct (describe_orders_the_quartiles [Num 1%R; Num 3%R])
    as (lo & q1 & q2 & q3 & hi & H1 & H2 & H3 & H4 & H5 & _ & _ & _ & _ & H6);
    [discriminate|].
  exists lo, q1, q2, q3, hi. repeat (split; [assumption|]). exact H6.
Defined.
